(** * Crawl orchestration core of the Facebook pages scraper

    A shallow embedding of the pure parts of [src/facebook/src/functions.ts]
    and of the start-up code of the actor's entry point, with the
    properties the design document states about them.

    Conventions of the embedding.
    - A JavaScript [number] that holds an item count or a millisecond
      timestamp is a [Z]; where the source divides or multiplies by a
      fraction the operands are converted to IEEE 754 binary64 values
      ([PrimFloat.float], the kernel's doubles) by [JS.num], and the
      operation is the double operation, so that rounding is the
      program's own.
    - A function that can [throw] returns a [JS.Result].
    - Mutable closures ([dateRangeItemCounter], [scrollUntil]) become
      records of their captured variables, and their methods become
      state transformers. *)

From Stdlib Require Import ZArith List Bool String Ascii Lia.
From Stdlib Require Import Floats.
Import ListNotations.

Set Warnings "-inexact-float".

(* ===================================================================== *)
(** * Part I: the program                                                 *)
(* ===================================================================== *)

(** ** JavaScript values shared by the components *)

Module JS.

(** Outcome of a call: a value, or an exception of class [E]. *)
Inductive Result (E A : Type) : Type :=
| Ok (a : A)
| Throw (e : E).
Arguments Ok {E A} a.
Arguments Throw {E A} e.

Definition bind {E A B} (r : Result E A) (k : A -> Result E B) : Result E B :=
  match r with
  | Ok a => k a
  | Throw e => Throw e
  end.

(** The double nearest to an integer (round to nearest, ties to even):
    what a [number] holding that integer is.  Exact below [2^53]. *)
Definition num (z : Z) : float :=
  SF2Prim (binary_normalize prec emax z 0 false).

(** [x > y] on doubles; false as soon as one side is NaN. *)
Definition gt (x y : float) : bool := PrimFloat.ltb y x.

(** Truthiness of a [number]: everything but [0], [-0] and [NaN]. *)
Definition truthy_float (f : float) : bool :=
  negb (PrimFloat.eqb f 0 || PrimFloat.is_nan f).

(** Truthiness of an integer-valued [number]. *)
Definition truthy (z : Z) : bool := negb (z =? 0)%Z.

Definition truthy_string (s : string) : bool :=
  match s with
  | EmptyString => false
  | String _ _ => true
  end.

(** An integer-valued [number], as [Math.round] returns one: an integer,
    an infinity or NaN. *)
Inductive integral : Type :=
| Int (z : Z)
| PlusInfinity
| MinusInfinity
| NotANumber.

(** [Math.round]: the nearest integer, a tie going up, which is
    [floor (x + 1/2)]; the double [(-1)^s * m * 2^e] is read off its
    representation. *)
Definition Math_round (x : float) : integral :=
  match Prim2SF x with
  | S754_zero _ => Int 0
  | S754_infinity false => PlusInfinity
  | S754_infinity true => MinusInfinity
  | S754_nan => NotANumber
  | S754_finite s m e =>
    let v := if s then Z.neg m else Z.pos m in
    Int (match e with
         | Z0 => v
         | Zpos _ => v * 2 ^ e
         | Zneg k => (2 * v + 2 ^ Z.pos k) / 2 ^ (Z.pos k + 1)
         end)%Z
  end.

(** The double that an integral [number] is. *)
Definition to_float (x : integral) : float :=
  match x with
  | Int z => num z
  | PlusInfinity => infinity
  | MinusInfinity => neg_infinity
  | NotANumber => nan
  end.

(** [x + k] for an integral [x] and an integer constant [k]: the sum of
    the two doubles, rounded as the addition of doubles rounds it.  The
    sum of two integral doubles is integral, and is read back the way
    [Math_round] reads a double. *)
Definition plus (x : integral) (k : Z) : integral :=
  Math_round (to_float x + num k)%float.

(** [x * k] and [x >= k'] for integer constants [k > 0] and [k'].  The
    program only compares the product with [0x7FFFFFFF], which a double
    holds exactly; rounding the product to a double is monotone and
    exact below [2^53], so the comparison is that of the exact product. *)
Definition times (x : integral) (k : Z) : integral :=
  match x with
  | Int z => Int (z * k)
  | other => other
  end.

Definition geq (x : integral) (k : Z) : bool :=
  match x with
  | Int z => (k <=? z)%Z
  | PlusInfinity => true
  | MinusInfinity | NotANumber => false
  end.

End JS.

(** ** [convertDate] (functions.ts, lines 132-157) *)

Module ConvertDate.
Import JS.

(** The argument: [string | number | Date | undefined | null].  A [Date]
    is represented by its time value. *)
Inductive value : Type :=
| Undefined
| Null
| Num (n : float)
| Str (s : string)
| DateObj (time : float).

(** [!value] is false exactly on the truthy values; objects are truthy. *)
Definition truthy_value (v : value) : bool :=
  match v with
  | Undefined | Null => false
  | Num n => truthy_float n
  | Str s => truthy_string s
  | DateObj _ => true
  end.

Inductive output : Type :=
| Number (n : float)
| IsoString (s : string).

Inductive RangeError : Type := InvalidTimeValue.

Section Platform.
(** The built-ins the function calls, as the engine provides them. *)
(** time value of [new Date(s)] for a string, NaN when unparsable *)
Variable Date_of_string : string -> float.
(** time value of [new Date(n)] for a number *)
Variable Date_of_number : float -> float.
(** [Date.prototype.toISOString]; throws on an invalid time value *)
Variable toISOString : float -> Result RangeError string.
(** unary [+] on a string *)
Variable Number_of_string : string -> float.
(** the template literal [`${n}`] *)
Variable String_of_number : float -> string.

Definition render (isoString : bool) (time : float) : Result RangeError output :=
  if isoString
  then bind (toISOString time) (fun s => Ok (IsoString s))
  else Ok (Number time).

Definition convertDate (v : value) (isoString : bool) : Result RangeError output :=
  if negb (truthy_value v) then
    Ok (if isoString then IsoString "2100-01-01T00:00:00.000Z" else Number infinity)
  else
    match v with
    | DateObj time => render isoString time
    | _ =>
      let tryConvert :=
        match v with
        | Str s => Date_of_string s
        | Num n => Date_of_number n
        | _ => nan
        end in
      let tryConvert :=
        if PrimFloat.is_nan tryConvert
           || (String.length (String_of_number tryConvert) <? 13)%nat
        then
          match v with
          | Str s =>
            Date_of_number
              (if (13 <=? String.length s)%nat
               then Number_of_string s
               else (Number_of_string s * 1000)%float)
          | Num n =>
            Date_of_number
              (if (13 <=? String.length (String_of_number n))%nat
               then n
               else (n * 1000)%float)
          | _ => tryConvert
          end
        else tryConvert in
      render isoString tryConvert
    end.
End Platform.

End ConvertDate.

(** ** Date windows: [parseTimeUnit] and [minMaxDates]
       (functions.ts, lines 967-1024) *)

Module DateWindow.
Import JS.
Local Open Scope Z_scope.

(** A [moment]: an instant in milliseconds since the epoch, or the
    invalid moment a failed parse produces. *)
Inductive moment : Type :=
| Valid (ms : Z)
| Invalid.

(** [a.diff(b)]: the difference in milliseconds, [None] standing for the
    NaN an invalid operand gives. *)
Definition diff (a b : moment) : option Z :=
  match a, b with
  | Valid x, Valid y => Some (x - y)
  | _, _ => None
  end.

(** Comparisons of a [diff] with [0]; a NaN compares false. *)
Definition lt0 (d : option Z) : bool :=
  match d with Some z => z <? 0 | None => false end.
Definition le0 (d : option Z) : bool :=
  match d with Some z => z <=? 0 | None => false end.
Definition gt0 (d : option Z) : bool :=
  match d with Some z => 0 <? z | None => false end.
Definition ge0 (d : option Z) : bool :=
  match d with Some z => 0 <=? z | None => false end.

Inductive timeUnit : Type :=
| minute | second | day | hour | month | year | week.

(** What [parseTimeUnit] distinguishes in its argument. *)
Inductive timeInput : Type :=
| Falsy                                (* undefined, null, '', 0 *)
| Today
| Yesterday
| Ago (n : positive) (unit : timeUnit) (* "<n> <unit>[s]" with n > 0 *)
| Other (parsed : moment).             (* anything else v, "0 <unit>" too,
                                          as moment(v) *)

Record MinMax : Type := { min : timeInput; max : timeInput }.

Section Calendar.
(** The two calendar operations of the moment library that depend on
    the time zone of the process. *)
Variable startOfDay : Z -> Z.
Variable subtract : Z -> positive -> timeUnit -> Z.

(** [now] is the clock reading of the [moment()] call. *)
Definition parseTimeUnit (now : Z) (value : timeInput) : option moment :=
  match value with
  | Falsy => None
  | Today => Some (Valid (startOfDay now))
  | Yesterday => Some (Valid (startOfDay (subtract now 1 day)))
  | Ago n unit => Some (Valid (subtract now n unit))
  | Other parsed => Some parsed
  end.

(** The object [minMaxDates] returns: the two captured bounds. *)
Record MinMaxDates : Type := { minDate : option moment; maxDate : option moment }.

Inductive Error : Type :=
| MinimumNeedsToBeLessThanMax (minDate maxDate : moment).

(** The check of [minMaxDates] on the two parsed bounds, and the object
    it returns. *)
Definition build (minDate maxDate : option moment) : Result Error MinMaxDates :=
  match minDate, maxDate with
  | Some lo, Some hi =>
    if lt0 (diff hi lo)
    then Throw (MinimumNeedsToBeLessThanMax lo hi)
    else Ok {| minDate := minDate; maxDate := maxDate |}
  | _, _ => Ok {| minDate := minDate; maxDate := maxDate |}
  end.

(** [now_min] and [now_max] are the clock readings of the two calls of
    [parseTimeUnit], in that order. *)
Definition minMaxDates (now_min now_max : Z) (arg : MinMax) : Result Error MinMaxDates :=
  let minDate := parseTimeUnit now_min (min arg) in
  let maxDate := parseTimeUnit now_max (max arg) in
  build minDate maxDate.

(** [compare(time)], [base] being [moment(time)]. *)
Definition compare (w : MinMaxDates) (base : moment) : Result Error bool :=
  Ok ((match minDate w with Some lo => le0 (diff lo base) | None => true end)
      && (match maxDate w with Some hi => ge0 (diff hi base) | None => true end)).
End Calendar.

Definition compare_bool (w : MinMaxDates) (base : moment) : bool :=
  match compare w base with
  | Ok b => b
  | Throw _ => false
  end.

End DateWindow.

(** ** The date-windowed sampler: [dateRangeItemCounter]
       (functions.ts, lines 1173-1257) *)

Module Counter.
Import JS.
Local Open Scope Z_scope.

Record bucket : Type := { older : Z; newer : Z }.

(** The variables the closure captures, under their names in the source. *)
Record vars : Type := {
  total : Z;
  max : bucket;
  min : bucket;
  outOfRange : Z;
  empty : Z;
  inRange : Z;
  calls : Z
}.

Definition init : vars :=
  {| total := 0;
     max := {| older := 0; newer := 0 |};
     min := {| older := 0; newer := 0 |};
     outOfRange := 0; empty := 0; inRange := 0; calls := 0 |}.

Section Window.
Variable minMax : DateWindow.MinMaxDates.

(** [!!minMax.maxDate && !!minMax.minDate]: a moment object is truthy,
    valid or not. *)
Definition willCheckRange : bool :=
  match DateWindow.maxDate minMax, DateWindow.minDate minMax with
  | Some _, Some _ => true
  | _, _ => false
  end.

(** [stats()] *)
Definition stats (s : vars) : vars := s.

(** [empty(predicate)] *)
Definition call_empty (predicate : bool) (s : vars) : vars :=
  let calls := calls s + 1 in
  let empty := if predicate then empty s + 1 else empty s in
  {| total := total s; max := max s; min := min s;
     outOfRange := outOfRange s; empty := empty;
     inRange := inRange s; calls := calls |}.

(** [add(value)] *)
Definition call_add (value : Z) (s : vars) : vars :=
  {| total := total s + value; max := max s; min := min s;
     outOfRange := outOfRange s; empty := empty s;
     inRange := inRange s; calls := calls s + 1 |}.

Definition bump_max (value : DateWindow.moment) (b : bucket) : bucket :=
  match DateWindow.maxDate minMax with
  | Some maxDate =>
    if DateWindow.gt0 (DateWindow.diff maxDate value)
    then {| older := older b + 1; newer := newer b |}
    else if DateWindow.lt0 (DateWindow.diff maxDate value)
    then {| older := older b; newer := newer b + 1 |}
    else b
  | None => b
  end.

Definition bump_min (value : DateWindow.moment) (b : bucket) : bucket :=
  match DateWindow.minDate minMax with
  | Some minDate =>
    if DateWindow.lt0 (DateWindow.diff minDate value)
    then {| older := older b; newer := newer b + 1 |}
    else if DateWindow.gt0 (DateWindow.diff minDate value)
    then {| older := older b + 1; newer := newer b |}
    else b
  | None => b
  end.

(** [time(value)]: the comparison's result and the updated variables. *)
Definition call_time (value : DateWindow.moment) (s : vars) : bool * vars :=
  let compare := DateWindow.compare_bool minMax value in
  if negb compare then
    (compare,
     {| total := total s;
        max := bump_max value (max s);
        min := bump_min value (min s);
        outOfRange := outOfRange s + 1; empty := empty s;
        inRange := inRange s; calls := calls s |})
  else
    (compare,
     {| total := total s; max := max s; min := min s;
        outOfRange := outOfRange s; empty := empty s;
        inRange := inRange s + 1; calls := calls s |}).

(** [isOver()] *)
Definition isOver (s : vars) : bool :=
  if (0 <? calls s) && (0 <? total s) then
    (if willCheckRange && (0 <? inRange s)
     then gt (num (outOfRange s) / num (total s) + num (inRange s) / num (total s))%float
             0.95%float
     else false)
    || (if truthy (empty s)
        then gt (num (empty s) / num (total s))%float 0.8%float
        else false)
  else false.

(** A use of the counter: a sequence of method calls on a fresh one. *)
Inductive call : Type :=
| Empty (predicate : bool)
| Add (value : Z)
| Time (value : DateWindow.moment).

Definition step (s : vars) (c : call) : vars :=
  match c with
  | Empty predicate => call_empty predicate s
  | Add value => call_add value s
  | Time value => snd (call_time value s)
  end.

Definition run (cs : list call) : vars := fold_left step cs init.

(** The variables a counter can hold. *)
Definition reachable (s : vars) : Prop := exists cs, s = run cs.
End Window.

End Counter.

(** ** The per-task time budget (entry point, lines 104-116) *)

Module Main.
Import JS.
Local Open Scope Z_scope.

(** The one [log.warning] of the block, with the values it reports. *)
Inductive warning : Type :=
| ParameterTooHigh (maxPostComments maxPosts : Z) (handlePageTimeoutSecs : integral).

Definition MAX_TIMEOUT : Z := 0x7FFFFFFF.

(** [Math.round(60 * (((maxPostComments + maxPosts) || 10) * 0.08)) + 600],
    before the overflow check. *)
Definition scaledTimeoutSecs (maxPostComments maxPosts : Z) : integral :=
  let volume := maxPostComments + maxPosts in
  plus (Math_round (60 * (num (if truthy volume then volume else 10) * 0.08))%float) 600.

(** [handlePageTimeoutSecs * 60000 >= 0x7FFFFFFF] *)
Definition overflows (secs : integral) : bool :=
  geq (times secs 60000) MAX_TIMEOUT.

(** The value of [handlePageTimeoutSecs] after the block, and the
    warnings it logged. *)
Definition handlePageTimeoutSecs (maxPostComments maxPosts : Z) : integral * list warning :=
  let secs := scaledTimeoutSecs maxPostComments maxPosts in
  if overflows secs
  then (Int (MAX_TIMEOUT / 60000), [ParameterTooHigh maxPostComments maxPosts secs])
  else (secs, []).

End Main.

(** ** Change detection of [scrollUntil] (functions.ts, lines 755-882) *)

Module Scroll.
Import JS.

(** A [Set<number>]: its members in insertion order, without repeats. *)
Definition NumberSet : Type := list Z.

Definition has (histogram : NumberSet) (val : Z) : bool :=
  existsb (Z.eqb val) histogram.

Definition add (val : Z) (histogram : NumberSet) : NumberSet :=
  if has histogram val then histogram else histogram ++ [val].

Definition size (histogram : NumberSet) : nat := List.length histogram.

(** The variables of the closure. *)
Record vars : Type := {
  scrolls : NumberSet;
  heights : NumberSet;
  count : nat;
  lastCount : nat
}.

Definition init : vars :=
  {| scrolls := []; heights := []; count := 0; lastCount := 0 |}.

(** [isChanging(histogram, num)]: the answer and the new value of the
    captured [lastCount].  [None] is an [undefined] or [null] sample. *)
Definition isChanging (histogram : NumberSet) (num : option Z) (lastCount : nat)
  : bool * nat :=
  match num with
  | None => (false, lastCount)
  | Some num =>
    if (size histogram <=? lastCount)%nat then (false, lastCount)
    else (forallb (fun val => negb (Z.eqb num val)) histogram, size histogram)
  end.

(** What one pass of the loop reads from the page. *)
Record sample : Type := { lastScroll : option Z; bodyHeight : option Z }.

(** [if (x) set.add(x)] *)
Definition addTruthy (x : option Z) (histogram : NumberSet) : NumberSet :=
  match x with
  | Some v => if truthy v then add v histogram else histogram
  | None => histogram
  end.

(** What one pass reports: the sizes of the two sets when they were
    checked, and the two answers. *)
Record report : Type := {
  scrollSize : nat;
  heightSize : nat;
  scrollChanged : bool;
  bodyChanged : bool
}.

(** The sampling part of one pass of the loop (lines 841-857). *)
Definition pass (x : sample) (s : vars) : report * vars :=
  let '(scrollChanged, lastCount1) := isChanging (scrolls s) (lastScroll x) (lastCount s) in
  let scrolls' := addTruthy (lastScroll x) (scrolls s) in
  let '(bodyChanged, lastCount2) := isChanging (heights s) (bodyHeight x) lastCount1 in
  let heights' := addTruthy (bodyHeight x) (heights s) in
  ({| scrollSize := size (scrolls s); heightSize := size (heights s);
      scrollChanged := scrollChanged; bodyChanged := bodyChanged |},
   {| scrolls := scrolls'; heights := heights';
      count := count s; lastCount := lastCount2 |}).

(** [shouldContinue] answers from the page and from [maybeStop]; here the
    caller's decision after each pass. *)
Section Loop.
Variable shouldContinue : report -> vars -> bool.

(** The loop over the samples the page delivers, one per pass. *)
Fixpoint loop (xs : list sample) (s : vars) : list report * vars :=
  match xs with
  | [] => ([], s)
  | x :: xs' =>
    let '(r, s1) := pass x s in
    if shouldContinue r s1 then
      let s2 := {| scrolls := scrolls s1; heights := heights s1;
                   count := S (count s1); lastCount := lastCount s1 |} in
      let '(rs, s3) := loop xs' s2 in
      (r :: rs, s3)
    else ([r], s1)
  end.

Definition scrollUntil (xs : list sample) : list report * vars := loop xs init.
End Loop.

(** The design document's reading: one mark per signal. *)
Module PerSignal.
Record vars : Type := {
  scrolls : NumberSet;
  heights : NumberSet;
  lastScrollCount : nat;
  lastHeightCount : nat
}.

Definition init : vars :=
  {| scrolls := []; heights := []; lastScrollCount := 0; lastHeightCount := 0 |}.

Definition pass (x : sample) (s : vars) : report * vars :=
  let '(scrollChanged, mark1) := isChanging (scrolls s) (lastScroll x) (lastScrollCount s) in
  let '(bodyChanged, mark2) := isChanging (heights s) (bodyHeight x) (lastHeightCount s) in
  ({| scrollSize := size (scrolls s); heightSize := size (heights s);
      scrollChanged := scrollChanged; bodyChanged := bodyChanged |},
   {| scrolls := addTruthy (lastScroll x) (scrolls s);
      heights := addTruthy (bodyHeight x) (heights s);
      lastScrollCount := mark1; lastHeightCount := mark2 |}).

Fixpoint passes (xs : list sample) (s : vars) : list report :=
  match xs with
  | [] => []
  | x :: xs' => let '(r, s1) := pass x s in r :: passes xs' s1
  end.
End PerSignal.

End Scroll.

(** ** Strings: the [String.prototype] methods the URL code calls *)

Module Str.
Local Open Scope string_scope.

Definition is_digit (c : ascii) : bool :=
  let n := nat_of_ascii c in ((48 <=? n) && (n <=? 57))%nat.
Definition is_lower (c : ascii) : bool :=
  let n := nat_of_ascii c in ((97 <=? n) && (n <=? 122))%nat.
Definition is_upper (c : ascii) : bool :=
  let n := nat_of_ascii c in ((65 <=? n) && (n <=? 90))%nat.
Definition is_alnum (c : ascii) : bool := is_digit c || is_lower c || is_upper c.

(** Membership of a character in the characters of a string. *)
Fixpoint one_of (cs : string) (c : ascii) : bool :=
  match cs with
  | "" => false
  | String d cs' => Ascii.eqb c d || one_of cs' c
  end.

(** Every character satisfies [p]. *)
Fixpoint all (p : ascii -> bool) (s : string) : bool :=
  match s with
  | "" => true
  | String c s' => p c && all p s'
  end.

(** [s.startsWith(p)] *)
Fixpoint startsWith (p s : string) : bool :=
  match p, s with
  | "", _ => true
  | String a p', String b s' => Ascii.eqb a b && startsWith p' s'
  | String _ _, "" => false
  end.

(** [s.includes(p)] *)
Fixpoint includes (p s : string) : bool :=
  startsWith p s ||
  match s with
  | "" => false
  | String _ s' => includes p s'
  end.

(** [s.slice(n)] *)
Fixpoint drop (n : nat) (s : string) : string :=
  match n, s with
  | O, _ => s
  | S n', String _ s' => drop n' s'
  | S _, "" => ""
  end.

(** [s.replace(pattern, replacement)] for a string pattern: the first
    occurrence only. *)
Fixpoint replace (pattern replacement s : string) : string :=
  if startsWith pattern s then replacement ++ drop (String.length pattern) s
  else match s with
       | "" => ""
       | String c s' => String c (replace pattern replacement s')
       end.

(** The longest prefix free of the characters [p] selects, and the rest. *)
Fixpoint break (p : ascii -> bool) (s : string) : string * string :=
  match s with
  | "" => ("", "")
  | String c s' =>
    if p c then ("", s)
    else let '(a, b) := break p s' in (String c a, b)
  end.

(** [s.split(sep)] for a one-character separator. *)
Fixpoint split (sep : ascii) (s : string) : list string :=
  match s with
  | "" => [""]
  | String c s' =>
    if Ascii.eqb c sep then "" :: split sep s'
    else match split sep s' with
         | piece :: pieces => String c piece :: pieces
         | [] => [String c ""]
         end
  end.

(** [pieces.join(sep)] *)
Definition join (sep : string) (pieces : list string) : string :=
  String.concat sep pieces.

(** [array.filter(s => s)] on strings *)
Definition nonempty (s : string) : bool :=
  match s with "" => false | String _ _ => true end.

End Str.

(** ** Regular expressions, for the three [RegExp.prototype.test] calls *)

Module RegExp.

Inductive regex : Type :=
| Never
| Eps
| Class (p : ascii -> bool)
| Cat (r1 r2 : regex)
| Alt (r1 r2 : regex)
| Star (r : regex).

Fixpoint nullable (r : regex) : bool :=
  match r with
  | Never => false
  | Eps => true
  | Class _ => false
  | Cat r1 r2 => nullable r1 && nullable r2
  | Alt r1 r2 => nullable r1 || nullable r2
  | Star _ => true
  end.

(** Brzozowski derivative. *)
Fixpoint deriv (c : ascii) (r : regex) : regex :=
  match r with
  | Never => Never
  | Eps => Never
  | Class p => if p c then Eps else Never
  | Cat r1 r2 =>
    if nullable r1
    then Alt (Cat (deriv c r1) r2) (deriv c r2)
    else Cat (deriv c r1) r2
  | Alt r1 r2 => Alt (deriv c r1) (deriv c r2)
  | Star r1 => Cat (deriv c r1) (Star r1)
  end.

(** The whole string matches. *)
Fixpoint matches (r : regex) (s : string) : bool :=
  match s with
  | EmptyString => nullable r
  | String c s' => matches (deriv c r) s'
  end.

Definition any : regex := Star (Class (fun _ => true)).

(** [r.test(s)] for a pattern without anchors: some substring matches. *)
Definition test (r : regex) (s : string) : bool :=
  matches (Cat any (Cat r any)) s.

Definition chr (c : ascii) : regex := Class (Ascii.eqb c).

Fixpoint lit (s : string) : regex :=
  match s with
  | EmptyString => Eps
  | String c s' => Cat (chr c) (lit s')
  end.

Definition opt (r : regex) : regex := Alt Eps r.
Definition plus (r : regex) : regex := Cat r (Star r).
Definition digit : regex := Class Str.is_digit.

End RegExp.

(** ** The platform's [URL] and [URLSearchParams]

    The class of URLs modelled: [http://] or [https://], a lower-case
    DNS host name without port or credentials, a path, an optional query
    and an optional fragment, all written with characters the URL parser
    and the query serializer leave as they are.  [parse] answers [None]
    on every other string, be it one the constructor rejects with a
    [TypeError] or one outside this class. *)

Module Url.
Import Str.
Local Open Scope string_scope.

Inductive scheme : Type := http | https.

Definition scheme_text (s : scheme) : string :=
  match s with http => "http:" | https => "https:" end.

(** The list of name-value pairs of a [URLSearchParams]. *)
Definition params : Type := list (string * string).

(** A [URL] object together with its [searchParams] object. *)
Record URL : Type := {
  protocol : scheme;
  hostname : string;
  pathname : string;
  query : option string;
  fragment : option string;
  searchParams : params
}.

Definition host_char (c : ascii) : bool := is_lower c || is_digit c || one_of ".-" c.
Definition path_char (c : ascii) : bool := is_alnum c || one_of "._~-/" c.
Definition query_char (c : ascii) : bool := is_alnum c || one_of "*-._=&" c.
Definition fragment_char (c : ascii) : bool := is_alnum c || one_of "._~-" c.

(** A domain the host parser returns unchanged: no punycode label, and a
    last label that is alphabetic, hence not a number. *)
Definition valid_host (h : string) : bool :=
  nonempty h && all host_char h && negb (includes "xn--" h)
  && (let tld := List.last (split "." h) "" in nonempty tld && all is_lower tld).

Definition dot_segment (s : string) : bool := String.eqb s "." || String.eqb s "..".

(** A path the path parser returns unchanged. *)
Definition valid_path (p : string) : bool :=
  all path_char p && forallb (fun s => negb (dot_segment s)) (split "/" p).

Definition parse_pair (piece : string) : string * string :=
  let '(name, rest) := break (Ascii.eqb "=") piece in (name, drop 1 rest).

(** A query whose pairs parse and serialize without percent-encoding. *)
Definition valid_query (q : string) : bool :=
  all query_char q
  && forallb (fun piece => negb (includes "=" (snd (parse_pair piece)))) (split "&" q).

Definition valid_fragment (f : string) : bool := all fragment_char f.

Definition valid_opt (valid : string -> bool) (o : option string) : bool :=
  match o with Some s => valid s | None => true end.

(** The [application/x-www-form-urlencoded] parser and serializer. *)
Definition parse_query (q : string) : params :=
  map parse_pair (filter nonempty (split "&" q)).

Definition serialize (list : params) : string :=
  join "&" (map (fun '(name, value) => name ++ "=" ++ value) list).

Definition strip_scheme (s : string) : option (scheme * string) :=
  if startsWith "https://" s then Some (https, drop 8 s)
  else if startsWith "http://" s then Some (http, drop 7 s)
  else None.

(** [new URL(s)] *)
Definition parse (s : string) : option URL :=
  match strip_scheme s with
  | None => None
  | Some (sch, rest) =>
    let '(host, rest) := break (one_of "/?#") rest in
    let '(path, rest) := break (one_of "?#") rest in
    let '(query, rest) :=
      match rest with
      | String "?" r => let '(q, r') := break (one_of "#") r in (Some q, r')
      | _ => (None, rest)
      end in
    let fragment :=
      match rest with
      | String "#" f => Some f
      | _ => None
      end in
    if valid_host host && valid_path path
       && valid_opt valid_query query && valid_opt valid_fragment fragment
    then Some {| protocol := sch; hostname := host;
                 pathname := if nonempty path then path else "/";
                 query := query; fragment := fragment;
                 searchParams := match query with
                                 | Some q => parse_query q
                                 | None => []
                                 end |}
    else None
  end.

(** [url.toString()], the same as [url.href] *)
Definition toString (u : URL) : string :=
  scheme_text (protocol u) ++ "//" ++ hostname u ++ pathname u
  ++ match query u with Some q => "?" ++ q | None => "" end
  ++ match fragment u with Some f => "#" ++ f | None => "" end.

(** [url.protocol = ...], between the two schemes *)
Definition set_protocol (s : scheme) (u : URL) : URL :=
  {| protocol := s; hostname := hostname u; pathname := pathname u;
     query := query u; fragment := fragment u; searchParams := searchParams u |}.

(** [url.hostname = h]; a host the parser rejects leaves the URL as it is *)
Definition set_hostname (h : string) (u : URL) : URL :=
  if valid_host h
  then {| protocol := protocol u; hostname := h; pathname := pathname u;
          query := query u; fragment := fragment u; searchParams := searchParams u |}
  else u.

(** [url.pathname = v]: the path is parsed afresh and gets its leading
    slash; [None] when [v] is outside the modelled class *)
Definition set_pathname (v : string) (u : URL) : option URL :=
  if valid_path v
  then Some {| protocol := protocol u; hostname := hostname u;
               pathname := if startsWith "/" v then v else "/" ++ v;
               query := query u; fragment := fragment u;
               searchParams := searchParams u |}
  else None.

(** [url.searchParams.delete(name)]: every pair of that name goes, and the
    query of the URL is rewritten from the list, an empty list giving no
    query at all *)
Definition delete (name : string) (u : URL) : URL :=
  let list := filter (fun '(n, _) => negb (String.eqb n name)) (searchParams u) in
  {| protocol := protocol u; hostname := hostname u; pathname := pathname u;
     query := match list with [] => None | _ => Some (serialize list) end;
     fragment := fragment u; searchParams := list |}.

(** [url.searchParams.forEach(callback)]: the platform walks the live list
    by index, reading it again after every call of [callback(value, key)].
    The callbacks of this program never lengthen the list, so the walk is
    over after as many steps as the list is long at the start. *)
Fixpoint forEach_from (fuel : nat) (callback : string -> string -> URL -> URL)
         (i : nat) (u : URL) : URL :=
  match fuel with
  | O => u
  | S fuel' =>
    match nth_error (searchParams u) i with
    | None => u
    | Some (key, value) => forEach_from fuel' callback (S i) (callback value key u)
    end
  end.

Definition forEach (callback : string -> string -> URL -> URL) (u : URL) : URL :=
  forEach_from (List.length (searchParams u)) callback 0 u.

End Url.

(** ** URL classification and fan-out planning
       (functions.ts, lines 557-709) *)

Module Functions.
Import JS Str Url.
Local Open Scope string_scope.

(** Modelled from the spec: [constants.ts] is not among the sources.  The
    mobile host is the one the comment in [generateSubpagesFromUrl]
    spells out, the desktop host the canonical content host. *)
Definition MOBILE_HOST : string := "m.facebook.com".
Definition DESKTOP_HOST : string := "www.facebook.com".

(** Modelled from the spec: the closed set of labels, [LABELS] and
    [FbLabel] of the absent [constants.ts] and [definitions.ts]. *)
Inductive FbLabel : Type := LISTING | PHOTO | POST | PAGE | SEARCH.

(** Modelled from the spec: the sections of a page, [FbSection] of the
    absent [definitions.ts]. *)
Inductive FbSection : Type := home | posts | about | reviews | services.

Definition section_text (s : FbSection) : string :=
  match s with
  | home => "home" | posts => "posts" | about => "about"
  | reviews => "reviews" | services => "services"
  end.

Inductive exn : Type :=
| TypeError
| InfoError (message url namespace : string).

Definition bindo {A B} (o : option A) (k : A -> option B) : option B :=
  match o with Some a => k a | None => None end.

(** [filterParams: string[] | boolean] *)
Inductive filter : Type :=
| Flag (b : bool)
| AllowList (keys : list string).

Definition listed (f : filter) (key : string) : bool :=
  match f with
  | AllowList keys => existsb (String.eqb key) keys
  | Flag _ => false
  end.

Definition falsy_filter (f : filter) : bool :=
  match f with
  | Flag b => negb b
  | AllowList _ => false
  end.

Definition normalizeToMobilePageUrl (url : string) (filterParams : filter) : option string :=
  bindo (parse url) (fun parsedUrl =>
  bindo (if negb (startsWith "/pg" (pathname parsedUrl))
         then set_pathname
                ("/pg/" ++ join "/" (List.filter nonempty (split "/" (pathname parsedUrl))))
                parsedUrl
         else Some parsedUrl) (fun parsedUrl =>
  let parsedUrl :=
    if negb (String.eqb (hostname parsedUrl) MOBILE_HOST)
    then set_hostname MOBILE_HOST parsedUrl
    else parsedUrl in
  let parsedUrl :=
    forEach (fun _ key u =>
               if listed filterParams key then u
               else if falsy_filter filterParams then u
               else delete key u) parsedUrl in
  Some (toString parsedUrl))).

Definition normalizeOutputPageUrl (url : string) : option string :=
  bindo (parse url) (fun parsedUrl =>
  let parsedUrl := set_protocol https parsedUrl in
  let parsedUrl := set_hostname DESKTOP_HOST parsedUrl in
  let parsedUrl := forEach (fun _ key u => delete key u) parsedUrl in
  bindo (set_pathname (replace "/pg/" "" (pathname parsedUrl)) parsedUrl) (fun parsedUrl =>
  Some (toString parsedUrl))).

(** The three patterns of [getUrlLabel]; the last carries the [i] flag. *)
Definition to_lower (c : ascii) : ascii :=
  if is_upper c then ascii_of_nat (nat_of_ascii c + 32) else c.

Definition chr_i (c : ascii) : RegExp.regex :=
  RegExp.Class (fun d => Ascii.eqb (to_lower d) (to_lower c)).

Definition photo_pattern : RegExp.regex :=      (* /\/photos\/a\.\d+/ *)
  RegExp.Cat (RegExp.lit "/photos/a.") (RegExp.plus RegExp.digit).

Definition post_pattern : RegExp.regex :=       (* /\/posts\/\d+/ *)
  RegExp.Cat (RegExp.lit "/posts/") (RegExp.plus RegExp.digit).

Definition page_pattern : RegExp.regex :=       (* /\/(pg)?\/?[a-z0-9.\-%]+\/?/i *)
  RegExp.Cat (RegExp.chr "/")
 (RegExp.Cat (RegExp.opt (RegExp.Cat (chr_i "p") (chr_i "g")))
 (RegExp.Cat (RegExp.opt (RegExp.chr "/"))
 (RegExp.Cat (RegExp.plus (RegExp.Class (fun c => is_alnum c || one_of ".-%" c)))
             (RegExp.opt (RegExp.chr "/"))))).

Section Classifier.
(** The URL constructor, [None] being its [TypeError]; the classifier
    reads the host name and the path of what it returns. *)
Variable new_URL : string -> option URL.

Definition getUrlLabel (url : string) : Result exn FbLabel :=
  if negb (truthy_string url) then
    Throw (InfoError "Invalid url provided" url "getUrlLabel")
  else
    match new_URL url with
    | None => Throw TypeError
    | Some parsedUrl =>
      if includes "facebook.com" (hostname parsedUrl) then
        if startsWith "/biz/" (pathname parsedUrl) then Ok LISTING
        else if RegExp.test photo_pattern (pathname parsedUrl) then Ok PHOTO
        else if RegExp.test post_pattern (pathname parsedUrl) then Ok POST
        else if RegExp.test page_pattern (pathname parsedUrl) then Ok PAGE
        else Throw (InfoError "Invalid Facebook url provided or could not be determined"
                              url "getUrlLabel")
      else Throw (InfoError "Invalid Facebook url provided or could not be determined"
                            url "getUrlLabel")
    end.
End Classifier.

(** An element of the array [generateSubpagesFromUrl] returns. *)
Record subpage : Type := {
  useMobile : bool;
  url : string;
  section : FbSection
}.

Fixpoint traverse {A B} (f : A -> option B) (l : list A) : option (list B) :=
  match l with
  | [] => Some []
  | a :: l' => bindo (f a) (fun b => bindo (traverse f l') (fun bs => Some (b :: bs)))
  end.

Definition default_pages : list FbSection := [posts; about; reviews; services].

Definition generateSubpagesFromUrl (url : string) (pages : list FbSection)
  : option (list subpage) :=
  bindo (normalizeToMobilePageUrl url (Flag true)) (fun normalized =>
  let base := join "/" (firstn 5 (split "/" normalized)) in
  let urls := [{| url := base; section := home; useMobile := true |}] in
  bindo (traverse (fun sub =>
           bindo (parse base) (fun subUrl =>
           bindo (set_pathname (pathname subUrl ++ "/" ++ section_text sub) subUrl)
                 (fun subUrl =>
           let subUrl := set_hostname MOBILE_HOST subUrl in
           Some {| url := toString subUrl; section := sub; useMobile := true |})))
         pages) (fun subs =>
  Some (urls ++ subs)%list)).

End Functions.

(** ** The page name of a URL: [extractUsernameFromUrl]
       (functions.ts, lines 716-734) *)

Module Username.
Import JS Str Functions.
Local Open Scope string_scope.

(** A string is the sequence of its code units.  [.] matches every one
    of them but a line terminator; below 256 these are the line feed and
    the carriage return. *)
Definition dot (c : ascii) : bool :=
  negb (Ascii.eqb c "010" || Ascii.eqb c "013").

(** [\/([^/]+)] at the head of [s]: the text of the group. *)
Definition name_at (s : string) : option string :=
  match s with
  | String "/" rest =>
    let name := fst (break (Ascii.eqb "/") rest) in
    if nonempty name then Some name else None
  | _ => None
  end.

(** [/facebook.com(?:\/pg)?\/([^/]+)/] at the head of [s]: the optional
    [/pg] is tried first, and given up when the rest of the pattern does
    not match after it. *)
Definition match_here (s : string) : option string :=
  if startsWith "facebook" s then
    match drop 8 s with
    | String c rest =>
      if dot c && startsWith "com" rest then
        let rest := drop 3 rest in
        match (if startsWith "/pg" rest then name_at (drop 3 rest) else None) with
        | Some name => Some name
        | None => name_at rest
        end
      else None
    | "" => None
    end
  else None.

(** [url.match(pattern)]: the leftmost match, its first group. *)
Fixpoint search (s : string) : option string :=
  match match_here s with
  | Some name => Some name
  | None =>
    match s with
    | "" => None
    | String _ s' => search s'
    end
  end.

Definition extractUsernameFromUrl (url : string) : Result exn string :=
  if negb (truthy_string url) then
    Throw (InfoError "Empty url" url "extractUsernameFromUrl")
  else
    match search url with
    | None =>
      Throw (InfoError "Couldn't match username in url" url "extractUsernameFromUrl")
    | Some name =>
      if negb (truthy_string name) then
        Throw (InfoError "Couldn't match username in url" url "extractUsernameFromUrl")
      else Ok name
    end.

End Username.

(** ** The sections planned for a page (main, lines 198-202) *)

Module Sections.
Import Functions.

(** [pageInfo]: the spread of three conditional arrays. *)
Definition pageInfo (scrapePosts scrapeReviews scrapeServices : bool) : list FbSection :=
  (if scrapePosts then [posts] else [])
  ++ (if scrapeReviews then [reviews] else [])
  ++ (if scrapeServices then [services] else []).

End Sections.

(** ** [uniqueNonEmptyArray] (functions.ts, line 219) *)

Module Arrays.
Section Unique.
Variable T : Type.
(** The comparison of [Set], SameValueZero, and the truthiness of a
    value. *)
Variable same : T -> T -> bool.
Variable truthy : T -> bool.

(** [set.add(v)]: the members of a [Set] in insertion order. *)
Definition Set_add (set : list T) (v : T) : list T :=
  if existsb (same v) set then set else set ++ [v].

(** [new Set(value)], spread into an array. *)
Definition new_Set (value : list T) : list T := fold_left Set_add value [].

Definition uniqueNonEmptyArray (value : list T) : list T :=
  List.filter truthy (new_Set value).
End Unique.
End Arrays.

(** ** The cache of page resources: [resourceCache]
       (functions.ts, lines 1026-1171) *)

Module Cache.
Import Str.
Local Open Scope string_scope.

(** [req.resourceType()], as far as the handlers tell the types apart. *)
Inductive resourceType : Type := image | script | stylesheet | other.

Definition Buffer : Type := list Byte.byte.

(** The headers of a response: an object from lower-case names to values. *)
Definition Headers : Type := list (string * string).

Fixpoint get (name : string) (headers : Headers) : option string :=
  match headers with
  | [] => None
  | (n, v) :: headers' => if String.eqb n name then Some v else get name headers'
  end.

(** The value of the [Map]: [loaded] and the three optional fields. *)
Record entry : Type := {
  loaded : bool;
  contentType : option string;
  content : option Buffer;
  headers : option Headers
}.

(** The [Map] from URLs to entries. *)
Definition cache : Type := string -> option entry.

Definition empty : cache := fun _ => None.

Definition set (url : string) (e : entry) (c : cache) : cache :=
  fun key => if String.eqb key url then Some e else c key.

(** The three placeholders of [images], by their key. *)
Inductive placeholder : Type := png | gif | jpg.

Definition images (p : placeholder) : string * string :=
  match p with
  | png => ("image/png",
            "iVBORw0KGgoAAAANSUhEUgAAAAEAAAABCAAAAAA6fptVAAAACklEQVQYV2P4DwABAQEAWk1v8QAAAABJRU5ErkJggg==")
  | gif => ("image/gif", "R0lGODlhAQABAIAAAP///wAAACwAAAAAAQABAAACAkQBADs=")
  | jpg => ("image/jpeg",
            "/9j/4AAQSkZJRgABAQEASABIAAD/2wBDAP//////////////////////////////////////////////////////////////////////////////////////wgALCAABAAEBAREA/8QAFBABAAAAAAAAAAAAAAAAAAAAAP/aAAgBAQABPxA=")
  end.

(** What the [request] handler does with the route. *)
Inductive decision : Type :=
| Abort
| FulfillImage (p : placeholder)
| Fulfill (body : option Buffer) (status : Z) (contentType : option string)
          (headers : option Headers)
| Continue
| Cleanup.                (* the page is closed: the handlers are taken off *)

(** The resources that are never loaded. *)
Definition blocked : list string :=
  [".woff"; ".webp"; ".mov"; ".mpeg"; ".mpg"; ".mp4"; ".woff2"; ".ttf"; ".ico";
   "static_map.php"; "ajax/bz"].

Definition is_blocked (url : string) : bool :=
  existsb (fun resource => includes resource url) blocked.

(** [['script', 'stylesheet'].includes(type)] *)
Definition cacheable (type : resourceType) : bool :=
  match type with script | stylesheet => true | _ => false end.

(** The headers that are not kept with the content. *)
Definition dropped : list string := ["date"; "expires"; "last-modified"; "content-length"].

Definition rest (headers : Headers) : Headers :=
  List.filter (fun '(name, _) => negb (existsb (String.eqb name) dropped)) headers.

Section Paths.
(** [paths.some((path) => path.test(url))], for patterns without the
    flags that make [test] depend on earlier calls. *)
Variable cached_path : string -> bool.

(** The [request] handler; [closed] is [page.isClosed()]. *)
Definition request (closed : bool) (url : string) (type : resourceType) (c : cache)
  : decision * cache :=
  if closed then (Cleanup, c)
  else if is_blocked url then (Abort, c)
  else
    match type with
    | image =>
      if includes ".jpg" url || includes ".jpeg" url then (FulfillImage jpg, c)
      else if includes ".png" url then (FulfillImage png, c)
      else if includes ".gif" url then (FulfillImage gif, c)
      else (Continue, c)
    | _ =>
      if cacheable type && cached_path url then
        match c url with
        | Some {| loaded := true; contentType := contentType; content := content;
                  headers := headers |} =>
          (Fulfill content 200 contentType headers, c)
        | _ =>
          (Continue,
           set url {| loaded := false; contentType := None; content := None;
                      headers := None |} c)
        end
      else (Continue, c)
    end.

(** The [response] handler stops at [await res.body()] and goes on when
    the body is there; the handlers of other requests and responses run
    in between.  The state of the cache is therefore the [Map] and the
    responses that have found their entry not loaded and wait for their
    body, each with its URL and its headers. *)
Record state : Type := {
  entries : cache;
  awaiting : list (string * Headers)
}.

Definition init (c : cache) : state := {| entries := c; awaiting := [] |}.

(** The handler up to [await res.body()]; [closed] is [page.isClosed()]. *)
Definition response (closed : bool) (url : string) (type : resourceType) (hs : Headers)
           (s : state) : state :=
  if closed then s
  else if cacheable type then
    match entries s url with
    | Some e =>
      if negb (loaded e)
      then {| entries := entries s; awaiting := (awaiting s ++ [(url, hs)])%list |}
      else s
    | None => s
    end
  else s.

(** The handler from there on; [body] is [None] when [res.body()]
    throws, and the handler ends in its [catch]. *)
Definition response_body (url : string) (hs : Headers) (body : option Buffer) (c : cache)
  : cache :=
  match body with
  | Some buffer =>
    set url {| contentType := get "content-type" hs;
               loaded := (0 <? List.length buffer)%nat;
               content := Some buffer;
               headers := Some (rest hs) |} c
  | None => c
  end.

(** What reaches the two handlers, over all the pages that share the
    cache: a request, a response, and the body of the [i]-th of the
    responses that wait for one. *)
Inductive event : Type :=
| Request (closed : bool) (url : string) (type : resourceType)
| Response (closed : bool) (url : string) (type : resourceType) (hs : Headers)
| Body (i : nat) (body : option Buffer).

Definition step (s : state) (ev : event) : state :=
  match ev with
  | Request closed url type =>
    {| entries := snd (request closed url type (entries s)); awaiting := awaiting s |}
  | Response closed url type hs => response closed url type hs s
  | Body i body =>
    match nth_error (awaiting s) i with
    | Some (url, hs) =>
      {| entries := response_body url hs body (entries s);
         awaiting := (firstn i (awaiting s) ++ skipn (S i) (awaiting s))%list |}
    | None => s
    end
  end.

Definition steps (events : list event) (s : state) : state := fold_left step events s.

(** The [Map] after the events, from a [Map] no response waits on. *)
Definition run (events : list event) (c : cache) : cache :=
  entries (steps events (init c)).
End Paths.

End Cache.

(** ** A promise settled from outside: [deferred]
       (functions.ts, lines 162-195) *)

Module Deferred.
Section Deferred.
(** The values a promise is resolved with, none of them a thenable, and
    the errors. *)
Variables T E : Type.

Inductive promise : Type :=
| Pending
| Fulfilled (value : option T)       (* [resolve()] passes [undefined] *)
| Rejected (error : E).

(** The captured [resolved], the promise, and the callbacks [setTimeout]
    has queued and not yet run, each with the error it will pass. *)
Record vars : Type := {
  resolved : bool;
  state : promise;
  timers : list E
}.

Definition init : vars := {| resolved := false; state := Pending; timers := [] |}.

(** The two functions the executor receives: the first call of either
    settles the promise. *)
Definition r1 (arg : option T) (p : promise) : promise :=
  match p with Pending => Fulfilled arg | _ => p end.
Definition r2 (arg : E) (p : promise) : promise :=
  match p with Pending => Rejected arg | _ => p end.

Definition resolve (arg : option T) (s : vars) : vars :=
  if negb (resolved s)
  then {| resolved := true; state := r1 arg (state s); timers := timers s |}
  else s.

Definition reject (arg : E) (s : vars) : vars :=
  if negb (resolved s)
  then {| resolved := true; state := state s; timers := timers s ++ [arg] |}
  else s.

(** The event loop runs the oldest queued callback. *)
Definition tick (s : vars) : vars :=
  match timers s with
  | [] => s
  | arg :: rest => {| resolved := resolved s; state := r2 arg (state s); timers := rest |}
  end.

Inductive call : Type :=
| Resolve (arg : option T)
| Reject (arg : E)
| Tick.

Definition step (s : vars) (c : call) : vars :=
  match c with
  | Resolve arg => resolve arg s
  | Reject arg => reject arg s
  | Tick => tick s
  end.

Definition run (calls : list call) : vars := fold_left step calls init.
End Deferred.

Arguments Pending {T E}.
Arguments Fulfilled {T E} value.
Arguments Rejected {T E} error.
Arguments resolved {T E} v.
Arguments state {T E} v.
Arguments timers {T E} v.
Arguments Resolve {T E} arg.
Arguments Reject {T E} arg.
Arguments Tick {T E}.
End Deferred.

(** ** Permalinks: [storyFbToDesktopPermalink] and [photoToPost]
       (functions.ts, lines 96-124 and 630-638) *)

Module Permalink.
Import JS Str Url Functions.
Local Open Scope string_scope.

(** An optional string argument counts when it is there and not empty. *)
Definition given (o : option string) : bool :=
  match o with Some s => truthy_string s | None => false end.

(** An optional string in a template literal. *)
Definition text (o : option string) : string :=
  match o with Some s => s | None => "undefined" end.

(** [searchParams.has(name)] *)
Definition has (name : string) (u : URL) : bool :=
  existsb (fun '(n, _) => String.eqb n name) (searchParams u).

(** The parameters of a story link. *)
Definition kept : list string := ["story_fbid"; "id"; "substory_index"; "type"].

(** [pathname.split('/', 2)[1]] in a template literal *)
Definition second_piece (p : string) : string := nth 1 (split "/" p) "undefined".

(** The outer [None] is the constructor's [TypeError] or a URL outside
    the class modelled, a relative reference, which the constructor
    would resolve against the desktop address, among them; the inner
    [None] is [null]. *)
Definition storyFbToDesktopPermalink (url postId username : option string)
  : option (option URL) :=
  if negb (given url) then Some None
  else
    bindo (parse (text url)) (fun parsed =>
    let parsed := set_hostname DESKTOP_HOST parsed in
    bindo
      (if negb (given postId) then
         if has "story_fbid" parsed && has "id" parsed
            && negb (includes "/photos" (pathname parsed))
            && negb (includes "/video" (pathname parsed))
         then set_pathname "/permalink.php" parsed
         else Some parsed
       else if negb (includes "/permalink.php" (pathname parsed))
               || negb (includes "/story.php" (pathname parsed))
       then set_pathname ((if given username then text username
                           else second_piece (pathname parsed))
                          ++ "/posts/" ++ text postId) parsed
       else Some parsed) (fun parsed =>
    let parsed :=
      forEach (fun _ key u =>
                 if negb (existsb (String.eqb key)
                                  (if includes "/posts" (pathname u) then [] else kept))
                 then delete key u
                 else u) parsed in
    Some (Some (delete "__tn__" parsed)))).

(** [/\/photos\/a\.(\d+)/] at the head of [s]: the digits of the group. *)
Definition digits_at (s : string) : option string :=
  if startsWith "/photos/a." s then
    let digits := fst (break (fun c => negb (is_digit c)) (drop 10 s)) in
    if nonempty digits then Some digits else None
  else None.

(** [url.match(pattern)]: the leftmost match, its first group. *)
Fixpoint photo_search (s : string) : option string :=
  match digits_at s with
  | Some digits => Some digits
  | None =>
    match s with
    | "" => None
    | String _ s' => photo_search s'
    end
  end.

(** The inner [None] is [undefined]. *)
Definition photoToPost (url : string) : option (option string) :=
  match photo_search url with
  | Some digits =>
    option_map (option_map toString)
               (storyFbToDesktopPermalink (Some url) (Some digits) None)
  | None => Some (Some url)
  end.

End Permalink.

(** ** The dispatch of the start URLs (main, lines 169-263) *)

Module Dispatch.
Import JS Str Url Functions Username Permalink.
Local Open Scope string_scope.

Section Dispatch.
(** The [override] object a start request may carry in its [userData]. *)
Variable Override : Type.

(** A request read from the start URLs. *)
Record request : Type := {
  request_url : string;
  request_override : option Override
}.

(** The [userData] of the requests the loop adds. *)
Record userData : Type := {
  override : option Override;
  label : FbLabel;
  sub : option FbSection;
  ref : option string;
  useMobile : bool;
  username : option string;
  canonical : option string
}.

(** What an iteration does to the world outside, in the order it does
    it. *)
Inductive action : Type :=
| Append (username url ref : string)     (* [map.append], with ['#url'] and ['#ref'] *)
| AddRequest (url : string) (data : userData) (forefront : bool)
| AddPageSearch (termOrUrl : string).

(** The actions done, and how the code ended. *)
Definition effect : Type := list action * Result exn unit.

Definition initSubPage (subpage : subpage) (request : request) : effect :=
  let add :=
    AddRequest (url subpage)
               {| override := request_override request; label := PAGE;
                  sub := Some (section subpage); ref := Some (request_url request);
                  useMobile := Functions.useMobile subpage;
                  username := None; canonical := None |}
               true in
  match section subpage with
  | home =>
    match extractUsernameFromUrl (url subpage) with
    | Throw e => ([], Throw e)
    | Ok username =>
      ([Append username (url subpage) (request_url request); add], Ok tt)
    end
  | _ => ([add], Ok tt)
  end.

(** [for (const subpage of subpages) await initSubPage(subpage, request)] *)
Fixpoint initSubPages (subpages : list subpage) (request : request) : effect :=
  match subpages with
  | [] => ([], Ok tt)
  | subpage :: subpages' =>
    match initSubPage subpage request with
    | (done, Ok _) =>
      let '(done', r) := initSubPages subpages' request in ((done ++ done')%list, r)
    | (done, Throw e) => (done, Throw e)
    end
  end.

(** The body of the [try] for one start request; [None] from a function
    of the URL code is its [TypeError]. *)
Definition dispatch (pageInfo : list FbSection) (request : request) : effect :=
  let url := request_url request in
  match getUrlLabel parse url with
  | Throw e => ([], Throw e)
  | Ok PAGE =>
    match generateSubpagesFromUrl url pageInfo with
    | None => ([], Throw TypeError)
    | Some subpages => initSubPages subpages request
    end
  | Ok SEARCH => ([AddPageSearch url], Ok tt)
  | Ok LISTING =>
    ([AddRequest url {| override := request_override request; label := LISTING;
                        sub := None; ref := None; useMobile := false;
                        username := None; canonical := None |} false], Ok tt)
  | Ok POST | Ok PHOTO =>
    (* [LABELS.PHOTO] is a label, a string that is not empty *)
    match photoToPost url with
    | None => ([], Throw TypeError)
    | Some converted =>
      let url := match converted with Some s => s | None => url end in
      match extractUsernameFromUrl url with
      | Throw e => ([], Throw e)
      | Ok username =>
        match storyFbToDesktopPermalink (Some url) None (Some username) with
        | None => ([], Throw TypeError)
        | Some permalink =>
          let add :=
            AddRequest url {| override := request_override request; label := POST;
                              sub := None; ref := None; useMobile := false;
                              username := Some username;
                              canonical := option_map toString permalink |} false in
          match generateSubpagesFromUrl url [] with
          | None => ([add], Throw TypeError)
          | Some [] => ([add], Throw TypeError)      (* a property of [undefined] *)
          | Some (subpage :: _) =>
            let '(done, r) := initSubPage subpage request in (add :: done, r)
          end
        end
      end
    end
  end.

(** What the loop has done so far. *)
Record progress : Type := {
  startUrlCount : nat;
  done : list action;
  warnings : list exn
}.

(** One turn of the loop: the count goes up when the body ends well, an
    [InfoError] is logged and the loop goes on, anything else leaves the
    loop. *)
Definition turn (pageInfo : list FbSection) (p : progress) (request : request)
  : Result exn progress :=
  match dispatch pageInfo request with
  | (actions, Ok _) =>
    Ok {| startUrlCount := S (startUrlCount p); done := (done p ++ actions)%list;
          warnings := warnings p |}
  | (actions, Throw (InfoError message url namespace)) =>
    Ok {| startUrlCount := startUrlCount p; done := (done p ++ actions)%list;
          warnings := (warnings p ++ [InfoError message url namespace])%list |}
  | (_, Throw e) => Throw e
  end.
End Dispatch.

End Dispatch.

(* ===================================================================== *)
(** * Part II: properties                                                 *)
(* ===================================================================== *)

(** ** Doubles: signs survive rounding *)

Module FloatFacts.
Import JS.

(** The sign bit is clear, NaN excluded. *)
Definition nonneg (x : spec_float) : Prop :=
  match x with
  | S754_zero _ => True
  | S754_infinity s | S754_finite s _ _ => s = false
  | S754_nan => False
  end.

Lemma shr_1_nonneg mrs : (0 <= shr_m mrs)%Z -> (0 <= shr_m (shr_1 mrs))%Z.
Proof.
  destruct mrs as [m r s]; simpl.
  destruct m as [|p|p]; simpl; try lia; destruct p; simpl; lia.
Qed.

Lemma iter_shr_1_nonneg p : forall mrs,
  (0 <= shr_m mrs)%Z -> (0 <= shr_m (iter_pos shr_1 p mrs))%Z.
Proof.
  induction p as [p IH|p IH|]; simpl; intros mrs H.
  - apply IH, IH, shr_1_nonneg, H.
  - apply IH, IH, H.
  - apply shr_1_nonneg, H.
Qed.

Lemma shr_fexp_nonneg m e l :
  (0 <= m)%Z -> (0 <= shr_m (fst (shr_fexp prec emax m e l)))%Z.
Proof.
  intros H. unfold shr_fexp, shr.
  assert (H0 : (0 <= shr_m (shr_record_of_loc m l))%Z)
    by (destruct l as [|[]]; simpl; exact H).
  destruct (fexp prec emax (Zdigits2 m + e) - e)%Z; simpl; trivial.
  apply iter_shr_1_nonneg, H0.
Qed.

Lemma round_nearest_even_nonneg m l : (0 <= m)%Z -> (0 <= round_nearest_even m l)%Z.
Proof.
  intros H. destruct l as [|[]]; simpl; try lia.
  destruct (Z.even m); lia.
Qed.

Lemma binary_round_aux_sign s m e l :
  (0 <= m)%Z ->
  match binary_round_aux prec emax s m e l with
  | S754_zero s' | S754_infinity s' | S754_finite s' _ _ => s' = s
  | S754_nan => False
  end.
Proof.
  intros H. unfold binary_round_aux.
  pose proof (shr_fexp_nonneg m e l H) as H1.
  destruct (shr_fexp prec emax m e l) as [mrs' e']. simpl in H1.
  pose proof (shr_fexp_nonneg _ e' loc_Exact
                (round_nearest_even_nonneg _ (loc_of_shr_record mrs') H1)) as H2.
  destruct (shr_fexp prec emax (round_nearest_even (shr_m mrs') (loc_of_shr_record mrs')) e' loc_Exact)
    as [mrs'' e'']. simpl in H2.
  destruct (shr_m mrs'') as [|p|p]; try reflexivity.
  - destruct (e'' <=? emax - prec)%Z; reflexivity.
  - lia.
Qed.

Lemma binary_round_sign s m e :
  match binary_round prec emax s m e with
  | S754_zero s' | S754_infinity s' | S754_finite s' _ _ => s' = s
  | S754_nan => False
  end.
Proof.
  unfold binary_round.
  destruct (shl_align m e (fexp prec emax (Z.pos (digits2_pos m) + e))) as [mz ez].
  apply binary_round_aux_sign. lia.
Qed.

Lemma binary_normalize_nonneg z e : (0 <= z)%Z -> nonneg (binary_normalize prec emax z e false).
Proof.
  intros H. destruct z as [|p|p]; simpl; trivial; try lia.
  pose proof (binary_round_sign false p e) as Hs.
  destruct (binary_round prec emax false p e); simpl; trivial.
Qed.

(** Conversion back to a double keeps a clear sign. *)
Lemma SF2Prim_nonneg x : nonneg x -> nonneg (Prim2SF (SF2Prim x)).
Proof.
  destruct x as [s|s| |s m e]; simpl; intros H.
  - destruct s; vm_compute; trivial.
  - subst s. vm_compute. reflexivity.
  - contradiction.
  - subst s. unfold SF2Prim.
    rewrite Z_ldexp_spec, of_uint63_spec.
    pose proof (binary_normalize_nonneg (Uint63.to_Z (Uint63.of_Z (Z.pos m))) 0) as Hn.
    assert (Hpos : (0 <= Uint63.to_Z (Uint63.of_Z (Z.pos m)))%Z)
      by (pose proof (Uint63.to_Z_bounded (Uint63.of_Z (Z.pos m))); lia).
    specialize (Hn Hpos).
    destruct (binary_normalize prec emax _ 0 false) as [s'|s'| |s' m' e']; simpl in *; trivial.
    subst s'.
    pose proof (binary_round_sign false m' (e' + e)) as Hs.
    unfold SFldexp.
    destruct (binary_round prec emax false m' _); simpl; trivial.
Qed.

Lemma num_nonneg z : (0 <= z)%Z -> nonneg (Prim2SF (num z)).
Proof. intros H. apply SF2Prim_nonneg, binary_normalize_nonneg, H. Qed.

(** A product with a finite factor of clear sign keeps a clear sign. *)
Lemma SFmul_nonneg x y :
  nonneg x -> nonneg y ->
  match y with S754_finite _ _ _ => True | _ => False end ->
  nonneg (SFmul prec emax x y).
Proof.
  destruct y as [| | |sy my ey]; try contradiction.
  intros Hx Hy _. simpl in Hy. subst sy.
  destruct x as [sx|sx| |sx mx ex]; simpl in *; trivial.
  - subst sx. reflexivity.
  - subst sx. cbn [xorb].
    assert (Hm : (0 <= Z.pos (mx * my))%Z) by lia.
    pose proof (binary_round_aux_sign false (Z.pos (mx * my)) (ex + ey) loc_Exact Hm) as Hs.
    destruct (binary_round_aux prec emax false (Z.pos (mx * my)) (ex + ey) loc_Exact);
      simpl; trivial.
Qed.

Lemma SFmul_nonneg_l x y :
  nonneg x -> nonneg y ->
  match x with S754_finite _ _ _ => True | _ => False end ->
  nonneg (SFmul prec emax x y).
Proof.
  destruct x as [| | |sx mx ex]; try contradiction.
  intros Hx Hy _. simpl in Hx. subst sx.
  destruct y as [sy|sy| |sy my ey]; simpl in *; trivial.
  subst sy. cbn [xorb].
  assert (Hm : (0 <= Z.pos (mx * my))%Z) by lia.
  pose proof (binary_round_aux_sign false (Z.pos (mx * my)) (ex + ey) loc_Exact Hm) as Hs.
  destruct (binary_round_aux prec emax false (Z.pos (mx * my)) (ex + ey) loc_Exact);
    simpl; trivial.
Qed.

(** [0 / t > 0.8] is false whatever [t] is. *)
Lemma zero_ratio t : gt (num 0 / t)%float 0.8%float = false.
Proof.
  unfold gt. rewrite ltb_spec, div_spec.
  change (Prim2SF (num 0)) with (S754_zero false).
  destruct (Prim2SF t) as [[]|[]| |[] m e]; vm_compute; reflexivity.
Qed.

(** [Math.round] of a double with a clear sign. *)
Lemma Math_round_nonneg x :
  nonneg (Prim2SF x) ->
  Math_round x = PlusInfinity \/ exists z, Math_round x = Int z /\ (0 <= z)%Z.
Proof.
  unfold Math_round. destruct (Prim2SF x) as [s|s| |s m e]; cbn [nonneg]; intros H.
  - right. exists 0%Z. split; [reflexivity | lia].
  - subst s. left. reflexivity.
  - contradiction.
  - subst s. right. eexists. split; [reflexivity|].
    destruct e as [|p|p].
    + lia.
    + apply Z.mul_nonneg_nonneg; [lia | apply Z.pow_nonneg; lia].
    + apply Z.div_pos; [|apply Z.pow_pos_nonneg; lia].
      pose proof (Z.pow_pos_nonneg 2 (Z.pos p)). lia.
Qed.


Local Open Scope Z_scope.

(** [m * 2^e] is at least [600 = 75 * 2^3]. *)
Definition at_least_600 (m e : Z) : Prop :=
  75 * 2 ^ Z.max 0 (3 - e) <= m * 2 ^ Z.max 0 (e - 3).

Lemma at_least_600_low m e : e <= 3 -> at_least_600 m e <-> 75 * 2 ^ (3 - e) <= m.
Proof.
  intros H. unfold at_least_600.
  rewrite (Z.max_r 0 (3 - e)), (Z.max_l 0 (e - 3)) by lia.
  rewrite Z.pow_0_r, Z.mul_1_r. reflexivity.
Qed.

Lemma at_least_600_high m e : 3 <= e -> at_least_600 m e <-> 75 <= m * 2 ^ (e - 3).
Proof.
  intros H. unfold at_least_600.
  rewrite (Z.max_l 0 (3 - e)), (Z.max_r 0 (e - 3)) by lia.
  rewrite Z.pow_0_r, Z.mul_1_r. reflexivity.
Qed.

Lemma at_least_600_mono m m' e : m <= m' -> at_least_600 m e -> at_least_600 m' e.
Proof.
  unfold at_least_600. intros H H1.
  pose proof (Z.pow_nonneg 2 (Z.max 0 (e - 3))). nia.
Qed.

(** Shifting the mantissa left by [d] and the exponent down by [d]. *)
Lemma at_least_600_shl m e d :
  0 <= d -> at_least_600 m e -> at_least_600 (m * 2 ^ d) (e - d).
Proof.
  intros Hd H.
  destruct (Z.le_gt_cases e 3) as [He|He].
  - rewrite at_least_600_low in H by exact He. rewrite at_least_600_low by lia.
    replace (3 - (e - d)) with ((3 - e) + d) by lia.
    rewrite Z.pow_add_r by lia.
    pose proof (Z.pow_pos_nonneg 2 d). nia.
  - rewrite at_least_600_high in H by lia.
    destruct (Z.le_gt_cases (e - d) 3) as [He'|He'].
    + rewrite at_least_600_low by exact He'.
      replace d with ((e - 3) + (3 - (e - d))) at 2 by lia.
      rewrite Z.pow_add_r by lia.
      pose proof (Z.pow_pos_nonneg 2 (3 - (e - d))). nia.
    + rewrite at_least_600_high by lia.
      rewrite <- Z.mul_assoc, <- Z.pow_add_r by lia.
      replace (d + (e - d - 3)) with (e - 3) by lia. exact H.
Qed.

Lemma iter_xO m d : Z.pos (Pos.iter xO m d) = Z.pos m * 2 ^ Z.pos d.
Proof.
  induction d as [|d IH] using Pos.peano_ind.
  - cbn [Pos.iter]. lia.
  - rewrite Pos.iter_succ, Pos2Z.inj_xO, IH, Pos2Z.inj_succ, Z.pow_succ_r by lia. lia.
Qed.

Lemma shl_align_600 m e e' :
  at_least_600 (Z.pos m) e ->
  at_least_600 (Z.pos (fst (shl_align m e e'))) (snd (shl_align m e e')).
Proof.
  intros H. unfold shl_align.
  destruct (e' - e) as [|d|d] eqn:E; cbn [fst snd]; trivial.
  rewrite iter_xO. replace e' with (e - Z.pos d) by lia.
  apply at_least_600_shl; [lia | exact H].
Qed.

Lemma shl_align_exp m e e' : e' <= e -> snd (shl_align m e e') = e'.
Proof.
  intros H. unfold shl_align.
  destruct (e' - e) as [|d|d] eqn:E; cbn [snd]; lia.
Qed.

Lemma shr_1_div mrs : 0 <= shr_m mrs -> shr_m (shr_1 mrs) = shr_m mrs / 2.
Proof.
  destruct mrs as [m r s]; cbn [shr_m]. intros H.
  destruct m as [|[p|p|]|p]; cbn [shr_1 shr_m]; try lia.
  - reflexivity.
  - apply (Z.div_unique_pos _ _ _ 1); lia.
  - apply (Z.div_unique_pos _ _ _ 0); lia.
  - reflexivity.
Qed.

Lemma iter_shr_1_div p : forall mrs,
  0 <= shr_m mrs -> shr_m (iter_pos shr_1 p mrs) = shr_m mrs / 2 ^ Z.pos p.
Proof.
  induction p as [p IH|p IH|]; cbn [iter_pos]; intros mrs H.
  - assert (H1 : 0 <= shr_m (shr_1 mrs))
      by (rewrite shr_1_div by exact H; apply Z.div_pos; lia).
    assert (H2 : 0 <= shr_m (iter_pos shr_1 p (shr_1 mrs)))
      by (rewrite IH by exact H1; apply Z.div_pos; [exact H1 | apply Z.pow_pos_nonneg; lia]).
    pose proof (Z.pow_pos_nonneg 2 (Z.pos p) ltac:(lia) ltac:(lia)).
    rewrite IH, IH, shr_1_div by assumption.
    rewrite !Z.div_div by lia.
    replace (Z.pos p~1) with (1 + Z.pos p + Z.pos p) by lia.
    rewrite !Z.pow_add_r by lia. rewrite Z.mul_assoc. reflexivity.
  - assert (H2 : 0 <= shr_m (iter_pos shr_1 p mrs))
      by (rewrite IH by exact H; apply Z.div_pos; [exact H | apply Z.pow_pos_nonneg; lia]).
    pose proof (Z.pow_pos_nonneg 2 (Z.pos p) ltac:(lia) ltac:(lia)).
    rewrite IH, IH by assumption.
    rewrite !Z.div_div by lia.
    replace (Z.pos p~0) with (Z.pos p + Z.pos p) by lia.
    rewrite !Z.pow_add_r by lia. reflexivity.
  - apply shr_1_div, H.
Qed.

Lemma digits2_pos_low p : 2 ^ (Z.pos (digits2_pos p) - 1) <= Z.pos p.
Proof.
  induction p as [p IH|p IH|]; cbn [digits2_pos].
  - replace (Z.pos (Pos.succ (digits2_pos p)) - 1)
      with (Z.succ (Z.pos (digits2_pos p) - 1)) by lia.
    rewrite Z.pow_succ_r by lia. lia.
  - replace (Z.pos (Pos.succ (digits2_pos p)) - 1)
      with (Z.succ (Z.pos (digits2_pos p) - 1)) by lia.
    rewrite Z.pow_succ_r by lia. lia.
  - cbn. lia.
Qed.

(** Dropping the low bits of a mantissa to fit the format keeps the
    value at or above 600, which the format holds exactly. *)
Lemma shr_fexp_600 m e :
  0 < m -> at_least_600 m e ->
  at_least_600 (shr_m (fst (shr_fexp prec emax m e loc_Exact)))
               (snd (shr_fexp prec emax m e loc_Exact)).
Proof.
  intros Hm H. unfold shr_fexp, shr. cbn [shr_record_of_loc].
  destruct (fexp prec emax (Zdigits2 m + e) - e) as [|p|p] eqn:E; cbn [fst snd shr_m]; trivial.
  rewrite iter_shr_1_div by (cbn; lia). cbn [shr_m].
  pose proof (Z.pow_pos_nonneg 2 (Z.pos p) ltac:(lia) ltac:(lia)) as Hp.
  destruct (Z.le_gt_cases (e + Z.pos p) 3) as [He|He].
  - rewrite at_least_600_low by exact He.
    rewrite at_least_600_low in H by lia.
    apply Z.div_le_lower_bound; [exact Hp|].
    replace (3 - e) with (Z.pos p + (3 - (e + Z.pos p))) in H by lia.
    rewrite Z.pow_add_r in H by lia. lia.
  - rewrite at_least_600_high by lia.
    assert (Hbig : 2 ^ 52 <= m / 2 ^ Z.pos p).
    { destruct m as [|q|q]; try lia. cbn [Zdigits2] in E.
      unfold fexp, emin in E. change prec with 53 in E. change emax with 1024 in E.
      assert (Ed : Z.pos p = Z.pos (digits2_pos q) - 53) by lia.
      apply Z.div_le_lower_bound; [exact Hp|].
      pose proof (digits2_pos_low q) as Hq.
      replace (Z.pos (digits2_pos q) - 1) with (Z.pos p + 52) in Hq by lia.
      rewrite Z.pow_add_r in Hq by lia. lia. }
    pose proof (Z.pow_pos_nonneg 2 (e + Z.pos p - 3) ltac:(lia) ltac:(lia)).
    assert (75 <= 2 ^ 52) by (vm_compute; discriminate). nia.
Qed.

Lemma round_nearest_even_le m l : m <= round_nearest_even m l.
Proof. destruct l as [|[]]; cbn; try lia. destruct (Z.even m); lia. Qed.

(** Rounding to the format keeps a value at or above 600 there: the
    result is [+Infinity] or a positive double of at least 600. *)
Definition big (x : spec_float) : Prop :=
  match x with
  | S754_infinity false => True
  | S754_finite false m e => at_least_600 (Z.pos m) e
  | _ => False
  end.

Lemma at_least_600_pos m e : at_least_600 m e -> 0 < m.
Proof.
  unfold at_least_600. intros H.
  pose proof (Z.pow_pos_nonneg 2 (Z.max 0 (3 - e)) ltac:(lia) ltac:(lia)).
  pose proof (Z.pow_pos_nonneg 2 (Z.max 0 (e - 3)) ltac:(lia) ltac:(lia)). nia.
Qed.

Lemma binary_round_aux_600 m e :
  0 < m -> at_least_600 m e -> big (binary_round_aux prec emax false m e loc_Exact).
Proof.
  intros Hm H. unfold binary_round_aux.
  pose proof (shr_fexp_600 m e Hm H) as H1.
  destruct (shr_fexp prec emax m e loc_Exact) as [mrs' e']. cbn [fst snd] in H1.
  apply (at_least_600_mono _ _ _ (round_nearest_even_le _ (loc_of_shr_record mrs'))) in H1.
  pose proof (shr_fexp_600 _ e' (at_least_600_pos _ _ H1) H1) as H2.
  destruct (shr_fexp prec emax _ e' loc_Exact) as [mrs'' e'']. cbn [fst snd] in H2.
  pose proof (at_least_600_pos _ _ H2) as Hp.
  destruct (shr_m mrs'') as [|q|q]; try lia.
  destruct (e'' <=? emax - prec); cbn; trivial.
Qed.

Lemma binary_round_600 m e :
  at_least_600 (Z.pos m) e -> big (binary_round prec emax false m e).
Proof.
  intros H. unfold binary_round.
  pose proof (shl_align_600 m e (fexp prec emax (Z.pos (digits2_pos m) + e)) H) as H1.
  destruct (shl_align m e _) as [mz ez]. cbn [fst snd] in H1.
  apply binary_round_aux_600; [lia | exact H1].
Qed.

(** Adding 600 to a double of clear sign. *)
Lemma SFadd_600 x :
  nonneg x -> big (SFadd prec emax x (Prim2SF (num 600))).
Proof.
  change (Prim2SF (num 600)) with (S754_finite false 5277655813324800 (-43)).
  assert (H600 : at_least_600 5277655813324800 (-43)) by (vm_compute; discriminate).
  destruct x as [s|s| |s m e]; cbn [nonneg SFadd]; intros H; try contradiction.
  - exact H600.
  - subst s. exact I.
  - subst s. cbn [cond_Zopp].
    pose proof (shl_align_600 5277655813324800 (-43) (Z.min e (-43)) H600) as Hy.
    rewrite shl_align_exp in Hy by lia.
    destruct (shl_align 5277655813324800 (-43) (Z.min e (-43))) as [my ey].
    destruct (shl_align m e (Z.min e (-43))) as [mx ex]. cbn [fst snd] in *.
    cbn [Z.add binary_normalize].
    apply binary_round_600.
    apply (at_least_600_mono (Z.pos my)); [lia | exact Hy].
Qed.

Lemma Math_round_big x :
  big (Prim2SF x) ->
  Math_round x = PlusInfinity \/ exists z, Math_round x = Int z /\ 600 <= z.
Proof.
  unfold Math_round. destruct (Prim2SF x) as [s|[]| |[] m e]; cbn [big]; intros H;
    try contradiction.
  - left. reflexivity.
  - right. eexists. split; [reflexivity|].
    destruct e as [|p|p].
    + rewrite at_least_600_low in H by lia. change (2 ^ (3 - 0)) with 8 in H. lia.
    + destruct (Z.le_gt_cases (Z.pos p) 3) as [He|He].
      * rewrite at_least_600_low in H by exact He.
        assert (E : 2 ^ 3 = 2 ^ (3 - Z.pos p) * 2 ^ Z.pos p)
          by (rewrite <- Z.pow_add_r by lia; f_equal; lia).
        change (2 ^ 3) with 8 in E.
        pose proof (Z.pow_pos_nonneg 2 (Z.pos p) ltac:(lia) ltac:(lia)). nia.
      * rewrite at_least_600_high in H by lia.
        assert (E : 2 ^ Z.pos p = 2 ^ (Z.pos p - 3) * 8)
          by (change 8 with (2 ^ 3); rewrite <- Z.pow_add_r by lia; f_equal; lia).
        rewrite E. nia.
    + rewrite at_least_600_low in H by lia.
      replace (3 - Z.neg p) with (3 + Z.pos p) in H by lia.
      rewrite Z.pow_add_r in H by lia. change (2 ^ 3) with 8 in H.
      pose proof (Z.pow_pos_nonneg 2 (Z.pos p) ltac:(lia) ltac:(lia)) as Hp.
      rewrite Z.pow_add_r by lia. change (2 ^ 1) with 2.
      apply Z.div_le_lower_bound; [lia | nia].
Qed.

End FloatFacts.

(** ** [convertDate] *)

Module ConvertDateFacts.
Import JS ConvertDate.
Local Open Scope string_scope.

(** The values the check [!value] lets through are the falsy ones. *)
Lemma listed_values_falsy :
  truthy_value Undefined = false /\ truthy_value Null = false
  /\ truthy_value (Num 0) = false /\ truthy_value (Str "") = false.
Proof. repeat split; reflexivity. Qed.

(** C10. On a falsy argument [convertDate] answers [Infinity] in number
    mode and the fixed date ['2100-01-01T00:00:00.000Z'] in ISO-string
    mode, whatever the date built-ins do: it neither throws nor reaches
    them. *)
Theorem convertDate_falsy :
  forall (Date_of_string : string -> float) (Date_of_number : float -> float)
         (toISOString : float -> Result RangeError string)
         (Number_of_string : string -> float) (String_of_number : float -> string)
         (v : value),
    truthy_value v = false ->
    convertDate Date_of_string Date_of_number toISOString Number_of_string
                String_of_number v false = Ok (Number infinity)
    /\ convertDate Date_of_string Date_of_number toISOString Number_of_string
                   String_of_number v true = Ok (IsoString "2100-01-01T00:00:00.000Z").
Proof.
  intros ? ? ? ? ? v Hv. unfold convertDate. rewrite Hv. split; reflexivity.
Qed.

(** The theorem at the four values the design document lists; the
    built-ins are stubs that would make any use of them visible. *)
Lemma convertDate_falsy_witness :
  let conv := convertDate (fun _ => nan) (fun _ => nan)
                          (fun _ => Throw InvalidTimeValue) (fun _ => nan) (fun _ => "") in
  (conv (Num 0) false = Ok (Number infinity)
   /\ conv (Num 0) true = Ok (IsoString "2100-01-01T00:00:00.000Z"))
  /\ (conv (Str "") false = Ok (Number infinity)
      /\ conv (Str "") true = Ok (IsoString "2100-01-01T00:00:00.000Z"))
  /\ (conv Undefined false = Ok (Number infinity)
      /\ conv Undefined true = Ok (IsoString "2100-01-01T00:00:00.000Z"))
  /\ (conv Null false = Ok (Number infinity)
      /\ conv Null true = Ok (IsoString "2100-01-01T00:00:00.000Z")).
Proof.
  intros conv. unfold conv.
  split; [|split; [|split]]; apply convertDate_falsy; reflexivity.
Defined.

End ConvertDateFacts.

(** ** Date windows *)

Module DateWindowFacts.
Import JS DateWindow.
Local Open Scope Z_scope.

Definition day_ms : Z := 86400000.
Definition hour_ms : Z := 3600000.

(** [compare] on valid moments is the two-sided inclusive test. *)
Lemma compare_valid lo hi t :
  compare {| minDate := Some (Valid lo); maxDate := Some (Valid hi) |} (Valid t)
  = Ok ((lo <=? t) && (t <=? hi)).
Proof.
  unfold compare, diff, le0, ge0; simpl. f_equal. f_equal.
  - destruct (Z.leb_spec (lo - t) 0), (Z.leb_spec lo t); trivial; lia.
  - destruct (Z.leb_spec 0 (hi - t)), (Z.leb_spec t hi); trivial; lia.
Qed.

Lemma compare_no_min hi t :
  compare {| minDate := None; maxDate := Some (Valid hi) |} (Valid t) = Ok (t <=? hi).
Proof.
  unfold compare, diff, ge0; simpl. f_equal.
  destruct (Z.leb_spec 0 (hi - t)), (Z.leb_spec t hi); trivial; lia.
Qed.

Lemma compare_no_max lo t :
  compare {| minDate := Some (Valid lo); maxDate := None |} (Valid t) = Ok (lo <=? t).
Proof.
  unfold compare, diff, le0; simpl. f_equal. rewrite andb_true_r.
  destruct (Z.leb_spec (lo - t) 0), (Z.leb_spec lo t); trivial; lia.
Qed.

(** What a successful construction returns. *)
Lemma build_Ok minDate maxDate w :
  build minDate maxDate = Ok w ->
  w = {| minDate := minDate; maxDate := maxDate |}
  /\ forall lo hi, minDate = Some (Valid lo) -> maxDate = Some (Valid hi) -> lo <= hi.
Proof.
  unfold build. destruct minDate as [lo|], maxDate as [hi|]; simpl;
    try (intros [= <-]; split; [reflexivity | intros; discriminate]).
  destruct (lt0 (diff hi lo)) eqn:E; [discriminate|].
  intros [= <-]. split; [reflexivity|].
  intros lo' hi' [= ->] [= ->]. simpl in E. apply Z.ltb_ge in E. lia.
Qed.

(** The window of the design document's example. *)
Lemma two_days_to_one_day now :
  exists w,
    build (Some (Valid (now - 2 * day_ms))) (Some (Valid (now - day_ms))) = Ok w
    /\ compare w (Valid (now - 36 * hour_ms)) = Ok true
    /\ compare w (Valid (now - 3 * hour_ms)) = Ok false.
Proof.
  eexists. split; [|split].
  - unfold build, diff, lt0.
    replace (now - day_ms - (now - 2 * day_ms) <? 0) with false; [reflexivity|].
    symmetry. apply Z.ltb_ge. unfold day_ms. lia.
  - rewrite compare_valid. f_equal. apply andb_true_intro.
    unfold day_ms, hour_ms. split; apply Z.leb_le; lia.
  - rewrite compare_valid. f_equal. apply andb_false_intro2.
    unfold day_ms, hour_ms. apply Z.leb_gt. lia.
Qed.

(** C4. [compare] is inclusive on both bounds: in a window that was
    built, the minimum and the maximum themselves compare true, and on
    valid moments the test is [lo <= t <= hi]; a bound that is not set
    matches on its side, so a window without bounds matches every
    argument; and in the window from two days ago to one day ago, the
    moment 36 hours ago compares true and the moment 3 hours ago
    compares false, also when the window is built from the inputs
    ['2 days'] and ['1 day'] by a process whose days last 86400000 ms. *)
Theorem compare_inclusive :
  (forall lo hi w,
      build (Some (Valid lo)) (Some (Valid hi)) = Ok w ->
      compare w (Valid lo) = Ok true /\ compare w (Valid hi) = Ok true)
  /\ (forall lo hi t,
         compare {| minDate := Some (Valid lo); maxDate := Some (Valid hi) |} (Valid t)
         = Ok ((lo <=? t) && (t <=? hi)))
  /\ (forall lo,
         compare {| minDate := Some (Valid lo); maxDate := None |} (Valid lo) = Ok true)
  /\ (forall hi,
         compare {| minDate := None; maxDate := Some (Valid hi) |} (Valid hi) = Ok true)
  /\ (forall lo t,
         compare {| minDate := Some (Valid lo); maxDate := None |} (Valid t)
         = Ok (lo <=? t))
  /\ (forall hi t,
         compare {| minDate := None; maxDate := Some (Valid hi) |} (Valid t)
         = Ok (t <=? hi))
  /\ (forall t : moment, compare {| minDate := None; maxDate := None |} t = Ok true)
  /\ (forall now,
         exists w,
           build (Some (Valid (now - 2 * day_ms))) (Some (Valid (now - day_ms))) = Ok w
           /\ compare w (Valid (now - 36 * hour_ms)) = Ok true
           /\ compare w (Valid (now - 3 * hour_ms)) = Ok false)
  /\ (forall (startOfDay : Z -> Z) (subtract : Z -> positive -> timeUnit -> Z) now,
         (forall n, subtract now n day = now - Z.pos n * day_ms) ->
         exists w,
           minMaxDates startOfDay subtract now now {| min := Ago 2 day; max := Ago 1 day |}
           = Ok w
           /\ compare w (Valid (now - 36 * hour_ms)) = Ok true
           /\ compare w (Valid (now - 3 * hour_ms)) = Ok false).
Proof.
  repeat apply conj.
  - intros lo hi w H. apply build_Ok in H. destruct H as [-> H].
    specialize (H lo hi eq_refl eq_refl).
    split; rewrite compare_valid; f_equal; apply andb_true_intro;
      split; apply Z.leb_le; lia.
  - apply compare_valid.
  - intros lo. rewrite compare_no_max. f_equal. apply Z.leb_refl.
  - intros hi. rewrite compare_no_min. f_equal. apply Z.leb_refl.
  - apply compare_no_max.
  - apply compare_no_min.
  - reflexivity.
  - intros now. apply two_days_to_one_day.
  - intros startOfDay subtract now Hday.
    unfold minMaxDates, parseTimeUnit. cbn [min max]. rewrite !Hday.
    replace (now - 1 * day_ms) with (now - day_ms) by lia.
    apply two_days_to_one_day.
Qed.

(** The theorem in the window from 1000 to 2000. *)
Lemma compare_inclusive_witness :
  build (Some (Valid 1000)) (Some (Valid 2000))
  = Ok {| minDate := Some (Valid 1000); maxDate := Some (Valid 2000) |}
  /\ compare {| minDate := Some (Valid 1000); maxDate := Some (Valid 2000) |} (Valid 1000)
     = Ok true
  /\ compare {| minDate := Some (Valid 1000); maxDate := Some (Valid 2000) |} (Valid 2000)
     = Ok true.
Proof.
  split; [reflexivity|].
  apply (proj1 compare_inclusive 1000 2000). reflexivity.
Defined.

Section Calendar.
Variable startOfDay : Z -> Z.
Variable subtract : Z -> positive -> timeUnit -> Z.

(** [minMaxDates] throws exactly on an empty window of valid bounds. *)
Lemma minMaxDates_Throw now_min now_max arg e :
  minMaxDates startOfDay subtract now_min now_max arg = Throw e <->
  exists lo hi,
    parseTimeUnit startOfDay subtract now_min (min arg) = Some (Valid lo)
    /\ parseTimeUnit startOfDay subtract now_max (max arg) = Some (Valid hi)
    /\ hi < lo /\ e = MinimumNeedsToBeLessThanMax (Valid lo) (Valid hi).
Proof.
  unfold minMaxDates, build.
  destruct (parseTimeUnit startOfDay subtract now_min (min arg)) as [[lo|]|];
    destruct (parseTimeUnit startOfDay subtract now_max (max arg)) as [[hi|]|];
    simpl; try (split; [discriminate | intros (? & ? & ? & ? & ? & ?); discriminate]).
  destruct (Z.ltb_spec (hi - lo) 0).
  - split.
    + intros [= <-]. exists lo, hi. repeat split; trivial. lia.
    + intros (lo' & hi' & [= <-] & [= <-] & _ & ->). reflexivity.
  - split; [discriminate|].
    intros (lo' & hi' & [= <-] & [= <-] & Hlt & _). lia.
Qed.
End Calendar.

(** C6. When both bounds resolve and the maximum lies before the
    minimum, [minMaxDates] throws while it builds the window; a window
    it did return has its bounds in order, and [compare] on it returns
    a boolean for every argument, never an error. *)
Theorem minMaxDates_empty_window :
  forall (startOfDay : Z -> Z) (subtract : Z -> positive -> timeUnit -> Z)
         (now_min now_max : Z) (arg : MinMax),
    (forall lo hi,
        parseTimeUnit startOfDay subtract now_min (min arg) = Some (Valid lo) ->
        parseTimeUnit startOfDay subtract now_max (max arg) = Some (Valid hi) ->
        hi < lo ->
        minMaxDates startOfDay subtract now_min now_max arg
        = Throw (MinimumNeedsToBeLessThanMax (Valid lo) (Valid hi)))
    /\ (forall w,
           minMaxDates startOfDay subtract now_min now_max arg = Ok w ->
           (forall lo hi, minDate w = Some (Valid lo) -> maxDate w = Some (Valid hi) ->
                          lo <= hi)
           /\ forall t, exists b, compare w t = Ok b).
Proof.
  intros startOfDay subtract now_min now_max arg. split.
  - intros lo hi Hlo Hhi Hlt. apply minMaxDates_Throw. exists lo, hi. auto.
  - intros w Hw. unfold minMaxDates in Hw. apply build_Ok in Hw.
    destruct Hw as [-> Hord]. split.
    + exact Hord.
    + intros t. eexists. reflexivity.
Qed.

(** The theorem on the window from instant 10 down to instant 5. *)
Lemma minMaxDates_empty_window_witness :
  let arg := {| min := Other (Valid 10); max := Other (Valid 5) |} in
  let startOfDay := fun now : Z => now in
  let subtract := fun (now : Z) (n : positive) (_ : timeUnit) => now - Z.pos n in
  parseTimeUnit startOfDay subtract 0 (min arg) = Some (Valid 10)
  /\ parseTimeUnit startOfDay subtract 0 (max arg) = Some (Valid 5)
  /\ 5 < 10
  /\ minMaxDates startOfDay subtract 0 0 arg
     = Throw (MinimumNeedsToBeLessThanMax (Valid 10) (Valid 5)).
Proof.
  intros arg startOfDay subtract.
  split; [reflexivity|]. split; [reflexivity|]. split; [lia|].
  apply (proj1 (minMaxDates_empty_window startOfDay subtract 0 0 arg));
    [reflexivity | reflexivity | lia].
Defined.

End DateWindowFacts.

(** ** The date-windowed sampler *)

Module CounterFacts.
Import JS Counter.
Local Open Scope Z_scope.

Section Window.
Variable minMax : DateWindow.MinMaxDates.

Lemma run_snoc cs c : run minMax (cs ++ [c]) = step minMax (run minMax cs) c.
Proof. unfold run. rewrite fold_left_app. reflexivity. Qed.

(** What every method keeps true of the captured variables. *)
Definition consistent (s : vars) : Prop :=
  0 <= calls s /\ 0 <= empty s /\ 0 <= inRange s /\ 0 <= outOfRange s
  /\ (calls s = 0 -> total s = 0).

Lemma step_consistent s c : consistent s -> consistent (step minMax s c).
Proof.
  unfold consistent. intros (Hc & He & Hi & Ho & Ht).
  destruct c as [predicate|value|value]; simpl.
  - destruct predicate; simpl; repeat split; lia.
  - repeat split; try lia.
  - unfold call_time.
    destruct (negb (DateWindow.compare_bool minMax value)); simpl;
      repeat split; try lia; exact Ht.
Qed.

Lemma reachable_consistent s : reachable minMax s -> consistent s.
Proof.
  intros [cs ->]. induction cs as [|c cs IH] using rev_ind.
  - unfold consistent; simpl. repeat split; lia.
  - rewrite run_snoc. apply step_consistent, IH.
Qed.

(** [total > 0] can only come from a call of [add]. *)
Lemma reachable_calls s : reachable minMax s -> 0 < total s -> 0 < calls s.
Proof.
  intros H Ht. destruct (reachable_consistent s H) as (Hc & _ & _ & _ & H0). lia.
Qed.

(** The test of [isOver], without the guards that are redundant. *)
Lemma isOver_iff s :
  reachable minMax s ->
  isOver minMax s = true <->
  0 < total s
  /\ ((willCheckRange minMax = true /\ 0 < inRange s
       /\ gt (num (outOfRange s) / num (total s) + num (inRange s) / num (total s))%float
             0.95%float = true)
      \/ gt (num (empty s) / num (total s))%float 0.8%float = true).
Proof.
  intros Hr. unfold isOver.
  destruct (Z.ltb_spec 0 (total s)) as [Ht|Ht].
  - pose proof (reachable_calls s Hr Ht) as Hc.
    apply Z.ltb_lt in Hc. rewrite Hc. simpl.
    assert (He : (if truthy (empty s)
                  then gt (num (empty s) / num (total s))%float 0.8%float
                  else false)
                 = gt (num (empty s) / num (total s))%float 0.8%float).
    { unfold truthy. destruct (Z.eqb_spec (empty s) 0) as [->|_]; simpl; trivial.
      symmetry. apply FloatFacts.zero_ratio. }
    rewrite He. rewrite orb_true_iff.
    destruct (willCheckRange minMax); simpl.
    + destruct (Z.ltb_spec 0 (inRange s)); split.
      * intros [H'|H']; (split; [lia|]); auto.
      * intros [_ [(_ & _ & H')|H']]; auto.
      * intros [H'|H']; [discriminate|]. split; [lia|]. auto.
      * intros [_ [(_ & ? & _)|H']]; [lia|auto].
    + split.
      * intros [H'|H']; [discriminate|]. split; [lia|]. auto.
      * intros [_ [(? & _)|H']]; [discriminate|auto].
  - rewrite andb_false_r. split; [discriminate|]. intros [? _]. lia.
Qed.
End Window.

(** C1 (as amended).  On the variables a counter can hold, [isOver()]
    is true exactly when [total > 0] and either (a) both bounds of the
    window are set, [inRange > 0] and
    [outOfRange / total + inRange / total > 0.95], the quotients and the
    sum being those of double arithmetic, or (b) [empty / total > 0.8].
    With [total = 0] it is false.  With both bounds set, [total = 100],
    [outOfRange = 80] and [inRange = 16] give true; [total = 100],
    [inRange = 50], [outOfRange = 30] and no empty step give false. *)
Theorem isOver_spec :
  forall (minMax : DateWindow.MinMaxDates) (s : vars),
    reachable minMax s ->
    (isOver minMax s = true <->
     0 < total s
     /\ ((willCheckRange minMax = true /\ 0 < inRange s
          /\ gt (num (outOfRange s) / num (total s) + num (inRange s) / num (total s))%float
                0.95%float = true)
         \/ gt (num (empty s) / num (total s))%float 0.8%float = true))
    /\ (total s = 0 -> isOver minMax s = false)
    /\ (willCheckRange minMax = true -> total s = 100 -> outOfRange s = 80 ->
        inRange s = 16 -> isOver minMax s = true)
    /\ (total s = 100 -> inRange s = 50 -> outOfRange s = 30 -> empty s = 0 ->
        isOver minMax s = false).
Proof.
  intros minMax s Hr. split; [|split; [|split]].
  - apply isOver_iff, Hr.
  - intros H0. unfold isOver. rewrite H0. rewrite andb_false_r. reflexivity.
  - intros Hw Ht Ho Hi. apply isOver_iff; trivial.
    rewrite Ht, Ho, Hi. split; [lia|]. left. split; [exact Hw|]. split; [lia|].
    vm_compute. reflexivity.
  - intros Ht Hi Ho He.
    destruct (isOver minMax s) eqn:E; trivial.
    apply isOver_iff in E; trivial. rewrite Ht, Hi, Ho, He in E.
    destruct E as [_ [(_ & _ & E)|E]]; vm_compute in E; discriminate.
Qed.

Definition both_bounds : DateWindow.MinMaxDates :=
  {| DateWindow.minDate := Some (DateWindow.Valid 1000);
     DateWindow.maxDate := Some (DateWindow.Valid 2000) |}.

(** A hundred items, [n] of them dated outside the window and [m] inside. *)
Definition sampled (n m : nat) : list call :=
  Add 100 :: repeat (Time (DateWindow.Valid 5000)) n
          ++ repeat (Time (DateWindow.Valid 1500)) m.

(** The theorem on the two samples the design document gives. *)
Lemma isOver_spec_witness :
  (total (run both_bounds (sampled 80 16)) = 100
   /\ outOfRange (run both_bounds (sampled 80 16)) = 80
   /\ inRange (run both_bounds (sampled 80 16)) = 16
   /\ isOver both_bounds (run both_bounds (sampled 80 16)) = true)
  /\ (total (run both_bounds (sampled 30 50)) = 100
      /\ outOfRange (run both_bounds (sampled 30 50)) = 30
      /\ inRange (run both_bounds (sampled 30 50)) = 50
      /\ isOver both_bounds (run both_bounds (sampled 30 50)) = false).
Proof.
  split; (split; [reflexivity|]; split; [reflexivity|]; split; [reflexivity|]).
  - apply (isOver_spec both_bounds (run both_bounds (sampled 80 16)));
      [exists (sampled 80 16); reflexivity | reflexivity ..].
  - apply (isOver_spec both_bounds (run both_bounds (sampled 30 50)));
      [exists (sampled 30 50); reflexivity | reflexivity ..].
Defined.

(** C1 as stated fails.  With both bounds set, a sample of 100 items with
    96 out of range and none in range has
    [(outOfRange + inRange) / total = 0.96 > 0.95], yet [isOver()] is
    false: the code also asks for [inRange > 0].  And a sample with 80
    out of range and 15 in range has [(outOfRange + inRange) / total =
    0.95] and no empty step, yet [isOver()] is true: the code adds the
    two rounded quotients, and [0.8 + 0.15] is above [0.95] in doubles. *)
Lemma isOver_counterexample :
  (let s := run both_bounds (sampled 96 0) in
   willCheckRange both_bounds = true
   /\ total s = 100 /\ outOfRange s = 96 /\ inRange s = 0 /\ empty s = 0
   /\ 95 * total s < 100 * (outOfRange s + inRange s)
   /\ gt (num (outOfRange s + inRange s) / num (total s))%float 0.95%float = true
   /\ isOver both_bounds s = false)
  /\ (let s := run both_bounds (sampled 80 15) in
      willCheckRange both_bounds = true
      /\ total s = 100 /\ outOfRange s = 80 /\ inRange s = 15 /\ empty s = 0
      /\ 100 * (outOfRange s + inRange s) = 95 * total s
      /\ gt (num (outOfRange s + inRange s) / num (total s))%float 0.95%float = false
      /\ gt (num (empty s) / num (total s))%float 0.8%float = false
      /\ isOver both_bounds s = true).
Proof. split; vm_compute; repeat split; reflexivity || discriminate. Qed.

End CounterFacts.

(** ** The per-task time budget *)

Module MainFacts.
Import JS Main.
Local Open Scope Z_scope.

(** The scaled volume has a clear sign as soon as the volume is not
    negative: the rounding of the two products cannot flip it. *)
Lemma scaled_nonneg n :
  0 <= n -> FloatFacts.nonneg (Prim2SF (60 * (num n * 0.08))%float).
Proof.
  intros H. rewrite !mul_spec.
  apply FloatFacts.SFmul_nonneg_l; [vm_compute; reflexivity | | vm_compute; exact I].
  apply FloatFacts.SFmul_nonneg;
    [apply FloatFacts.num_nonneg, H | vm_compute; reflexivity | vm_compute; exact I].
Qed.

(** Adding 600 as doubles to a rounded value of clear sign. *)
Lemma plus_600 x :
  x = PlusInfinity \/ (exists z, x = Int z /\ 0 <= z) ->
  plus x 600 = PlusInfinity \/ exists z, plus x 600 = Int z /\ 600 <= z.
Proof.
  intros [->|(z & -> & Hz)].
  - left. vm_compute. reflexivity.
  - unfold plus. cbn [to_float].
    apply FloatFacts.Math_round_big. rewrite add_spec.
    apply FloatFacts.SFadd_600, FloatFacts.num_nonneg, Hz.
Qed.

Lemma scaledTimeoutSecs_floor a b :
  0 <= a + b ->
  scaledTimeoutSecs a b = PlusInfinity
  \/ exists z, scaledTimeoutSecs a b = Int z /\ 600 <= z.
Proof.
  intros H. unfold scaledTimeoutSecs.
  set (n := if truthy (a + b) then a + b else 10).
  assert (Hn : 0 <= n) by (unfold n; destruct (truthy (a + b)); lia).
  apply plus_600, FloatFacts.Math_round_nonneg, scaled_nonneg, Hn.
Qed.

Lemma overflows_Int z : overflows (Int z) = (MAX_TIMEOUT <=? z * 60000).
Proof. reflexivity. Qed.



(** The check on doubles at its threshold: 35792 seconds are the first
    to reach [0x7FFFFFFF] when multiplied by 60000, as doubles and as
    integers. *)
Lemma overflows_threshold :
  (num MAX_TIMEOUT <=? num 35792 * num 60000)%float = overflows (Int 35792)
  /\ overflows (Int 35792) = true
  /\ (num MAX_TIMEOUT <=? num 35791 * num 60000)%float = overflows (Int 35791)
  /\ overflows (Int 35791) = false.
Proof. repeat split. Qed.

(** The sum with 600 is a sum of doubles: above [2^53] it is rounded. *)
Lemma scaledTimeoutSecs_rounds :
  scaledTimeoutSecs 0 (10 ^ 17 + 3) = Int 480000000000000576
  /\ handlePageTimeoutSecs 0 (10 ^ 17 + 3)
     = (Int 35791, [ParameterTooHigh 0 (10 ^ 17 + 3) (Int 480000000000000576)]).
Proof. split; vm_compute; reflexivity. Qed.

End MainFacts.

(** ** Change detection of the scroll loop *)

Module ScrollFacts.
Import JS Scroll.
Local Arguments isChanging : simpl never.

(** [every(val => num !== val)] says the value is new. *)
Lemma every_differs_has histogram v :
  forallb (fun val => negb (Z.eqb v val)) histogram = negb (has histogram v).
Proof.
  unfold has. induction histogram as [|a l IH]; simpl; trivial.
  rewrite IH, negb_orb. reflexivity.
Qed.

(** The answer of [isChanging]. *)
Lemma isChanging_true histogram num lastCount :
  fst (isChanging histogram num lastCount) = true <->
  exists v, num = Some v /\ lastCount < size histogram /\ has histogram v = false.
Proof.
  unfold isChanging. destruct num as [v|]; simpl.
  - destruct (Nat.leb_spec (size histogram) lastCount); simpl.
    + split; [discriminate|]. intros (v' & _ & Hlt & _). lia.
    + rewrite every_differs_has, negb_true_iff. split.
      * intros Hh. exists v. auto.
      * intros (v' & [= <-] & _ & Hh). exact Hh.
  - split; [discriminate|]. intros (v & Hv & _). discriminate.
Qed.

(** The mark [isChanging] leaves. *)
Lemma isChanging_mark histogram num lastCount :
  snd (isChanging histogram num lastCount)
  = match num with
    | Some _ => Nat.max lastCount (size histogram)
    | None => lastCount
    end.
Proof.
  unfold isChanging. destruct num as [v|]; simpl; trivial.
  destruct (Nat.leb_spec (size histogram) lastCount); simpl; lia.
Qed.

(** Every sample of a run is a number. *)
Definition defined (x : sample) : Prop :=
  lastScroll x <> None /\ bodyHeight x <> None.

(** Along a run, an answer "changed" comes with a set larger than it was
    when the same signal was checked the pass before; [ps] and [ph] are
    the sizes at that earlier check. *)
Fixpoint grown (ps ph : nat) (rs : list report) : Prop :=
  match rs with
  | [] => True
  | r :: rs' =>
    (scrollChanged r = true -> ps < scrollSize r)
    /\ (bodyChanged r = true -> ph < heightSize r)
    /\ grown (scrollSize r) (heightSize r) rs'
  end.

Lemma pass_report x s :
  fst (pass x s)
  = {| scrollSize := size (scrolls s); heightSize := size (heights s);
       scrollChanged := fst (isChanging (scrolls s) (lastScroll x) (lastCount s));
       bodyChanged :=
         fst (isChanging (heights s) (bodyHeight x)
                         (snd (isChanging (scrolls s) (lastScroll x) (lastCount s)))) |}.
Proof.
  unfold pass.
  destruct (isChanging (scrolls s) (lastScroll x) (lastCount s)) as [c1 m1]. simpl.
  destruct (isChanging (heights s) (bodyHeight x) m1) as [c2 m2]. reflexivity.
Qed.

Lemma pass_mark x s :
  lastCount (snd (pass x s))
  = snd (isChanging (heights s) (bodyHeight x)
                    (snd (isChanging (scrolls s) (lastScroll x) (lastCount s)))).
Proof.
  unfold pass.
  destruct (isChanging (scrolls s) (lastScroll x) (lastCount s)) as [c1 m1]. simpl.
  destruct (isChanging (heights s) (bodyHeight x) m1) as [c2 m2]. reflexivity.
Qed.

Section Loop.
Variable shouldContinue : report -> vars -> bool.

Lemma loop_grown xs : forall s ps ph,
  Forall defined xs ->
  ps <= lastCount s -> ph <= lastCount s ->
  grown ps ph (fst (loop shouldContinue xs s)).
Proof.
  induction xs as [|x xs IH]; intros s ps ph Hd Hps Hph; simpl; trivial.
  inversion Hd as [|? ? [Hx1 Hx2] Hd']; subst.
  pose proof (pass_report x s) as Hr. pose proof (pass_mark x s) as Hm.
  destruct (pass x s) as [r s1]. simpl in Hr, Hm. 
  destruct (lastScroll x) as [v1|] eqn:E1; [|contradiction].
  destruct (bodyHeight x) as [v2|] eqn:E2; [|contradiction].
  rewrite !isChanging_mark in Hm.
  assert (Hc1 : scrollChanged r = true -> ps < scrollSize r).
  { subst r; simpl. intros H. apply isChanging_true in H.
    destruct H as (_ & _ & H & _). lia. }
  assert (Hc2 : bodyChanged r = true -> ph < heightSize r).
  { subst r; simpl. intros H. apply isChanging_true in H.
    destruct H as (_ & _ & H & _). rewrite isChanging_mark in H. lia. }
  assert (Hs1 : scrollSize r <= lastCount s1) by (subst r; simpl; lia).
  assert (Hs2 : heightSize r <= lastCount s1) by (subst r; simpl; lia).
  destruct (shouldContinue r s1).
  - specialize (IH {| scrolls := scrolls s1; heights := heights s1;
                      count := S (count s1); lastCount := lastCount s1 |}
                   (scrollSize r) (heightSize r) Hd' Hs1 Hs2).
    destruct (loop shouldContinue xs _) as [rs s3]. simpl in *. auto.
  - simpl. auto.
Qed.
End Loop.

(** C5 (as amended).  Each signal has its own set of observed values,
    but the two share the one mark [lastCount]: the check of the
    content height runs against the mark the check of the scroll offset
    has just left.  A sample counts as changed exactly when it is
    defined, its signal's set is larger than the shared mark and the
    value is not in that set; the mark is then, and after any check of
    a defined sample, at least the size of the set checked.  Hence, in a
    run whose samples are all defined, a sample counts as changed only
    if its signal's set has grown since that signal's previous check
    and the value is not in the signal's history. *)
Theorem isChanging_shared_mark :
  (forall histogram num lastCount,
      fst (isChanging histogram num lastCount) = true <->
      exists v, num = Some v /\ lastCount < size histogram /\ has histogram v = false)
  /\ (forall histogram v lastCount,
         snd (isChanging histogram (Some v) lastCount) = Nat.max lastCount (size histogram))
  /\ (forall x s,
         scrollChanged (fst (pass x s))
         = fst (isChanging (scrolls s) (lastScroll x) (lastCount s))
         /\ bodyChanged (fst (pass x s))
            = fst (isChanging (heights s) (bodyHeight x)
                              (snd (isChanging (scrolls s) (lastScroll x) (lastCount s)))))
  /\ (forall shouldContinue xs,
         Forall defined xs ->
         grown 0 0 (fst (scrollUntil shouldContinue xs))).
Proof.
  split; [|split; [|split]].
  - apply isChanging_true.
  - intros histogram v lastCount. apply (isChanging_mark histogram (Some v)).
  - intros x s. rewrite pass_report. split; reflexivity.
  - intros shouldContinue xs Hd. unfold scrollUntil.
    apply loop_grown; simpl; trivial.
Qed.

(** Two passes: offsets 100 then 200, heights 500 then 600. *)
Definition two_passes : list sample :=
  [ {| lastScroll := Some 100%Z; bodyHeight := Some 500%Z |};
    {| lastScroll := Some 200%Z; bodyHeight := Some 600%Z |} ].

Lemma isChanging_shared_mark_witness :
  Forall defined two_passes
  /\ grown 0 0 (fst (scrollUntil (fun _ _ => true) two_passes)).
Proof.
  assert (Hd : Forall defined two_passes)
    by (repeat constructor; discriminate).
  split; [exact Hd|].
  apply (proj2 (proj2 (proj2 isChanging_shared_mark)) (fun _ _ => true) two_passes Hd).
Defined.

(** C5 as stated fails.  In the second of the two passes the set of
    heights has grown since its previous check (from no member to one)
    and 600 is not in it; with a mark of its own the height would count
    as changed, and the design document's reading says so.  The code
    answers that it did not change: the scroll check of the same pass
    has raised the shared mark to 1 already. *)
Lemma isChanging_counterexample :
  fst (scrollUntil (fun _ _ => true) two_passes)
  = [ {| scrollSize := 0; heightSize := 0; scrollChanged := false; bodyChanged := false |};
      {| scrollSize := 1; heightSize := 1; scrollChanged := true; bodyChanged := false |} ]
  /\ PerSignal.passes two_passes PerSignal.init
     = [ {| scrollSize := 0; heightSize := 0; scrollChanged := false; bodyChanged := false |};
         {| scrollSize := 1; heightSize := 1; scrollChanged := true; bodyChanged := true |} ].
Proof. split; reflexivity. Qed.

End ScrollFacts.

(** ** Strings: splitting and joining *)

Module StrFacts.
Import Str.
Local Open Scope string_scope.

Lemma append_assoc a b c : (a ++ b) ++ c = a ++ (b ++ c).
Proof. induction a as [|x a IH]; simpl; [reflexivity | now rewrite IH]. Qed.

Lemma append_nil_r a : a ++ "" = a.
Proof. induction a as [|x a IH]; simpl; [reflexivity | now rewrite IH]. Qed.

Lemma all_app p a b : all p (a ++ b) = all p a && all p b.
Proof.
  induction a as [|x a IH]; simpl; [reflexivity|].
  rewrite IH. apply andb_assoc.
Qed.

Lemma all_impl (p q : ascii -> bool) s :
  (forall c, p c = true -> q c = true) -> all p s = true -> all q s = true.
Proof.
  intros Hpq. induction s as [|x s IH]; simpl; trivial.
  intros H. apply andb_true_iff in H. destruct H as [Hx Hs].
  rewrite (Hpq x Hx), (IH Hs). reflexivity.
Qed.

(** No character of the string is selected by [p]. *)
Definition none (p : ascii -> bool) (s : string) : bool :=
  all (fun c => negb (p c)) s.

Lemma none_app p a b : none p (a ++ b) = none p a && none p b.
Proof. apply all_app. Qed.

Lemma all_none (p q : ascii -> bool) s :
  (forall c, p c = true -> q c = false) -> all p s = true -> none q s = true.
Proof.
  intros Hpq. apply all_impl. intros c Hc. now rewrite (Hpq c Hc).
Qed.

(** The string is empty or begins with a character [p] selects. *)
Definition stops (p : ascii -> bool) (s : string) : Prop :=
  match s with
  | "" => True
  | String c _ => p c = true
  end.

Lemma break_app p a b :
  none p a = true -> stops p b -> break p (a ++ b) = (a, b).
Proof.
  induction a as [|x a IH]; simpl; intros Ha Hb.
  - destruct b as [|c b]; simpl in *; [reflexivity | now rewrite Hb].
  - apply andb_true_iff in Ha. destruct Ha as [Hx Ha].
    apply negb_true_iff in Hx. rewrite Hx, (IH Ha Hb). reflexivity.
Qed.

Lemma break_spec p s :
  s = fst (break p s) ++ snd (break p s)
  /\ none p (fst (break p s)) = true
  /\ stops p (snd (break p s)).
Proof.
  induction s as [|x s (IH1 & IH2 & IH3)]; simpl.
  - repeat split.
  - destruct (p x) eqn:Hx; simpl.
    + repeat split. exact Hx.
    + destruct (break p s) as [a b]; unfold none in *; simpl in *.
      rewrite Hx, IH2. repeat split; trivial. now rewrite <- IH1.
Qed.

Lemma split_not_nil c s : split c s <> [].
Proof.
  destruct s as [|x s]; simpl; [discriminate|].
  destruct (Ascii.eqb x c); [discriminate|].
  destruct (split c s); discriminate.
Qed.

Lemma split_app_sep c a b : split c (a ++ String c b) = (split c a ++ split c b)%list.
Proof.
  induction a as [|x a IH]; simpl.
  - now rewrite Ascii.eqb_refl.
  - rewrite IH. destruct (Ascii.eqb x c); [reflexivity|].
    destruct (split c a) as [|piece pieces] eqn:E; [|reflexivity].
    now apply split_not_nil in E.
Qed.

Lemma split_none c s : none (Ascii.eqb c) s = true -> split c s = [s].
Proof.
  induction s as [|x s IH]; simpl; [reflexivity|].
  intros H. apply andb_true_iff in H. destruct H as [Hx Hs].
  apply negb_true_iff in Hx. rewrite Ascii.eqb_sym, Hx, (IH Hs). reflexivity.
Qed.

Lemma split_pieces (p : ascii -> bool) c s :
  all p s = true -> Forall (fun piece => all p piece = true) (split c s).
Proof.
  induction s as [|x s IH]; simpl; intros H.
  - repeat constructor.
  - apply andb_true_iff in H. destruct H as [Hx Hs]. specialize (IH Hs).
    destruct (Ascii.eqb x c).
    + constructor; [reflexivity | exact IH].
    + destruct (split c s) as [|piece pieces].
      * repeat constructor. simpl. now rewrite Hx.
      * inversion IH; subst. constructor; [simpl; now rewrite Hx | assumption].
Qed.

Lemma split_pieces_none c s :
  Forall (fun piece => none (Ascii.eqb c) piece = true) (split c s).
Proof.
  induction s as [|x s IH]; simpl.
  - repeat constructor.
  - destruct (Ascii.eqb x c) eqn:E.
    + constructor; [reflexivity | exact IH].
    + destruct (split c s) as [|piece pieces].
      * repeat constructor. unfold none; simpl. now rewrite Ascii.eqb_sym, E.
      * inversion IH; subst. constructor; [|assumption].
        unfold none in *; simpl. now rewrite Ascii.eqb_sym, E.
Qed.

Lemma join_cons sep a b l : join sep (a :: b :: l) = a ++ sep ++ join sep (b :: l).
Proof. reflexivity. Qed.

Lemma join_split c s : join (String c "") (split c s) = s.
Proof.
  induction s as [|x s IH]; simpl; [reflexivity|].
  destruct (Ascii.eqb_spec x c) as [->|_].
  - destruct (split c s) as [|piece pieces] eqn:E; [now apply split_not_nil in E|].
    rewrite join_cons, IH. reflexivity.
  - destruct (split c s) as [|piece pieces] eqn:E; [now apply split_not_nil in E|].
    destruct pieces as [|piece' pieces].
    + simpl in *. now rewrite IH.
    + rewrite join_cons. rewrite join_cons in IH. cbn [append]. f_equal. exact IH.
Qed.

Lemma split_join c pieces :
  pieces <> [] ->
  Forall (fun piece => none (Ascii.eqb c) piece = true) pieces ->
  split c (join (String c "") pieces) = pieces.
Proof.
  induction pieces as [|a l IH]; [congruence|]. intros _ H.
  inversion H as [|? ? Ha Hl]; subst.
  destruct l as [|b l].
  - simpl. apply split_none, Ha.
  - rewrite join_cons. change (String c "" ++ join (String c "") (b :: l))
      with (String c (join (String c "") (b :: l))).
    rewrite split_app_sep, (split_none c a Ha), IH; [reflexivity | discriminate | exact Hl].
Qed.

(** The methods on the strings of the source's comments. *)
Example split_limit_example :
  firstn 5 (split "/" "https://m.facebook.com/pg/pagename/posts")
  = ["https:"; ""; "m.facebook.com"; "pg"; "pagename"].
Proof. reflexivity. Qed.

Example split_filter_join_example :
  join "/" (List.filter nonempty (split "/" "/pagename//posts/")) = "pagename/posts".
Proof. reflexivity. Qed.

Example replace_first_example :
  replace "/pg/" "" "/pg/pagename" = "pagename"
  /\ replace "/pg/" "" "/pg/pg/x" = "pg/x"
  /\ replace "/pg/" "" "/pagename" = "/pagename".
Proof. repeat split. Qed.

End StrFacts.

(** ** URLs: what the parser accepts it prints back *)

Module UrlFacts.
Import Str StrFacts Url.
Local Open Scope string_scope.
Local Arguments Ascii.eqb : simpl never.

(** Facts about single characters, by enumeration. *)
Ltac by_cases_on c :=
  destruct c as [[] [] [] [] [] [] [] []]; vm_compute; intros; congruence.

Lemma host_char_delimiter c : host_char c = true -> one_of "/?#" c = false.
Proof. by_cases_on c. Qed.

Lemma path_char_delimiter c : path_char c = true -> one_of "?#" c = false.
Proof. by_cases_on c. Qed.

Lemma query_char_delimiter c : query_char c = true -> one_of "#" c = false.
Proof. by_cases_on c. Qed.

Lemma host_char_slash c : host_char c = true -> Ascii.eqb "/" c = false.
Proof. by_cases_on c. Qed.

Lemma query_char_slash c : query_char c = true -> Ascii.eqb "/" c = false.
Proof. by_cases_on c. Qed.

Lemma fragment_char_slash c : fragment_char c = true -> Ascii.eqb "/" c = false.
Proof. by_cases_on c. Qed.

(** The characters of names and values: those of a query but [=] and [&]. *)
Definition param_char (c : ascii) : bool :=
  query_char c && negb (Ascii.eqb "=" c) && negb (Ascii.eqb "&" c).

Lemma param_char_query c : param_char c = true -> query_char c = true.
Proof. by_cases_on c. Qed.

Lemma param_char_eq c : param_char c = true -> Ascii.eqb "=" c = false.
Proof. by_cases_on c. Qed.

Lemma param_char_amp c : param_char c = true -> Ascii.eqb "&" c = false.
Proof. by_cases_on c. Qed.

Lemma param_char_intro c :
  query_char c = true -> Ascii.eqb "=" c = false -> Ascii.eqb "&" c = false ->
  param_char c = true.
Proof. by_cases_on c. Qed.


Lemma delimiter_cases c :
  one_of "/?#" c = true -> c = "/"%char \/ one_of "?#" c = true.
Proof.
  destruct c as [[] [] [] [] [] [] [] []]; vm_compute; intros; (discriminate || auto).
Qed.

(** ['?' ++ query] and ['#' ++ fragment], when there is one. *)
Definition opt_text (mark : ascii) (o : option string) : string :=
  match o with
  | Some s => String mark s
  | None => ""
  end.

Lemma toString_eq u :
  toString u
  = scheme_text (protocol u) ++ "//" ++ hostname u ++ pathname u
    ++ opt_text "?" (query u) ++ opt_text "#" (fragment u).
Proof. unfold toString. destruct (query u), (fragment u); reflexivity. Qed.

Lemma strip_scheme_text sch rest :
  strip_scheme (scheme_text sch ++ "//" ++ rest) = Some (sch, rest).
Proof. destruct sch; reflexivity. Qed.

Lemma valid_host_chars h : valid_host h = true -> all host_char h = true.
Proof.
  unfold valid_host. intros H.
  repeat (apply andb_true_iff in H; destruct H as [H ?]). assumption.
Qed.

Lemma valid_path_chars p : valid_path p = true -> all path_char p = true.
Proof. unfold valid_path. intros H. apply andb_true_iff in H. tauto. Qed.

Lemma valid_query_chars q : valid_query q = true -> all query_char q = true.
Proof. unfold valid_query. intros H. apply andb_true_iff in H. tauto. Qed.

(** The parser on a string put together from valid parts. *)
Lemma parse_compose sch h p q f :
  valid_host h = true ->
  valid_path p = true ->
  stops (Ascii.eqb "/") p ->
  valid_opt valid_query q = true ->
  valid_opt valid_fragment f = true ->
  parse (scheme_text sch ++ "//" ++ h ++ p ++ opt_text "?" q ++ opt_text "#" f)
  = Some {| protocol := sch; hostname := h;
            pathname := if nonempty p then p else "/";
            query := q; fragment := f;
            searchParams := match q with Some q => parse_query q | None => [] end |}.
Proof.
  intros Hh Hp Hs Hq Hf. unfold parse. rewrite strip_scheme_text.
  assert (Htail : stops (one_of "?#") (opt_text "?" q ++ opt_text "#" f)).
  { destruct q, f; simpl; trivial. }
  rewrite (break_app (one_of "/?#") h).
  2: { apply (all_none host_char); [exact host_char_delimiter | apply valid_host_chars, Hh]. }
  2: { destruct p as [|c p]; cbn [append stops].
       - destruct q, f; simpl; trivial.
       - unfold stops in Hs. apply Ascii.eqb_eq in Hs. subst c. reflexivity. }
  rewrite (break_app (one_of "?#") p _
             (all_none path_char _ p path_char_delimiter (valid_path_chars p Hp)) Htail).
  destruct q as [q|]; simpl opt_text.
  - cbn [append].
    rewrite (break_app (one_of "#") q).
    2: { apply (all_none query_char); [exact query_char_delimiter|].
         apply valid_query_chars, Hq. }
    2: { destruct f; simpl; trivial. }
    destruct f as [f|]; cbn [opt_text]; rewrite Hh, Hp, Hq, Hf; reflexivity.
  - destruct f as [f|]; cbn [opt_text append]; rewrite Hh, Hp, Hq, Hf; reflexivity.
Qed.

(** *** Query parameters *)

Definition valid_pair (pair : string * string) : Prop :=
  all param_char (fst pair) = true /\ all param_char (snd pair) = true.

Definition valid_params (list : params) : Prop := Forall valid_pair list.

Lemma param_chars s :
  all query_char s = true -> none (Ascii.eqb "=") s = true ->
  none (Ascii.eqb "&") s = true -> all param_char s = true.
Proof.
  unfold none. induction s as [|c s IH]; simpl; trivial.
  intros H1 H2 H3.
  apply andb_true_iff in H1, H2, H3.
  destruct H1 as [Hc1 H1], H2 as [Hc2 H2], H3 as [Hc3 H3].
  apply negb_true_iff in Hc2, Hc3.
  rewrite (param_char_intro c Hc1 Hc2 Hc3), (IH H1 H2 H3). reflexivity.
Qed.

Lemma none_cons p c s : none p (String c s) = negb (p c) && none p s.
Proof. reflexivity. Qed.

Lemma none_includes c s :
  includes (String c "") s = false <-> none (Ascii.eqb c) s = true.
Proof.
  unfold none. induction s as [|x s IH]; simpl.
  - tauto.
  - destruct (Ascii.eqb c x); simpl; [split; discriminate | exact IH].
Qed.

Lemma all_drop p n s : all p s = true -> all p (drop n s) = true.
Proof.
  revert s. induction n as [|n IH]; intros [|c s]; simpl; trivial.
  intros H. apply andb_true_iff in H. apply IH. tauto.
Qed.

Lemma all_break p q s :
  all p s = true ->
  all p (fst (break q s)) = true /\ all p (snd (break q s)) = true.
Proof.
  intros H. destruct (break_spec q s) as (E & _ & _).
  rewrite E, all_app in H. apply andb_true_iff in H. exact H.
Qed.

Lemma all_join p sep pieces :
  all p sep = true -> Forall (fun piece => all p piece = true) pieces ->
  all p (join sep pieces) = true.
Proof.
  intros Hsep. induction 1 as [|a l Ha Hl IH]; [reflexivity|].
  destruct l as [|b l]; [exact Ha|].
  rewrite join_cons, !all_app, Ha, Hsep, IH. reflexivity.
Qed.

Lemma parse_pair_valid piece :
  all query_char piece = true ->
  none (Ascii.eqb "&") piece = true ->
  includes "=" (snd (parse_pair piece)) = false ->
  valid_pair (parse_pair piece).
Proof.
  unfold parse_pair, valid_pair. intros Hq Ha He.
  destruct (break_spec (Ascii.eqb "=") piece) as (_ & Hn & _).
  destruct (all_break _ (Ascii.eqb "=") piece Hq) as [Hq1 Hq2].
  destruct (all_break _ (Ascii.eqb "=") piece Ha) as [Ha1 Ha2].
  destruct (break (Ascii.eqb "=") piece) as [name rest]. cbn [fst snd] in *. split.
  - apply param_chars; assumption.
  - apply param_chars.
    + apply all_drop, Hq2.
    + apply none_includes, He.
    + apply all_drop, Ha2.
Qed.

Lemma parse_query_valid q : valid_query q = true -> valid_params (parse_query q).
Proof.
  unfold valid_query, parse_query, valid_params. intros H.
  apply andb_true_iff in H. destruct H as [Hc Hv].
  apply Forall_map, Forall_forall. intros piece Hin.
  apply filter_In in Hin. destruct Hin as [Hin _].
  apply parse_pair_valid.
  - pose proof (split_pieces query_char "&" q Hc) as Hall.
    rewrite Forall_forall in Hall. apply Hall, Hin.
  - pose proof (split_pieces_none "&" q) as Hall.
    rewrite Forall_forall in Hall. apply Hall, Hin.
  - rewrite forallb_forall in Hv. apply negb_true_iff, Hv, Hin.
Qed.

Lemma parse_pair_compose name value :
  none (Ascii.eqb "=") name = true ->
  parse_pair (name ++ String "=" value) = (name, value).
Proof.
  intros H. unfold parse_pair.
  rewrite (break_app (Ascii.eqb "=") name (String "=" value) H); reflexivity.
Qed.

Definition pair_text (pair : string * string) : string :=
  let '(name, value) := pair in name ++ "=" ++ value.

Lemma serialize_valid list :
  valid_params list -> list <> [] -> valid_query (serialize list) = true.
Proof.
  intros Hv Hne. unfold valid_query, serialize.
  change (fun '(name, value) => name ++ "=" ++ value) with pair_text.
  assert (Hq : Forall (fun piece => all query_char piece = true) (map pair_text list)).
  { apply Forall_map. eapply Forall_impl; [|exact Hv].
    intros [name value] [Hn Hvl]. cbn [fst snd pair_text] in *.
    change (name ++ "=" ++ value) with (name ++ String "=" value).
    rewrite all_app. cbn [all].
    rewrite (all_impl _ _ name param_char_query Hn),
            (all_impl _ _ value param_char_query Hvl). reflexivity. }
  assert (Ha : Forall (fun piece => none (Ascii.eqb "&") piece = true) (map pair_text list)).
  { apply Forall_map. eapply Forall_impl; [|exact Hv].
    intros [name value] [Hn Hvl]. cbn [fst snd pair_text] in *.
    change (name ++ "=" ++ value) with (name ++ String "=" value).
    rewrite none_app, none_cons.
    rewrite (all_none _ _ name param_char_amp Hn),
            (all_none _ _ value param_char_amp Hvl). reflexivity. }
  apply andb_true_iff. split.
  - apply all_join; [reflexivity | exact Hq].
  - rewrite split_join; [| destruct list; [congruence | discriminate] | exact Ha].
    apply forallb_forall. intros piece Hin. apply in_map_iff in Hin.
    destruct Hin as ([name value] & <- & Hin).
    unfold valid_params in Hv. rewrite Forall_forall in Hv.
    destruct (Hv _ Hin) as [Hn Hvl]. cbn [fst snd pair_text] in *.
    change (name ++ "=" ++ value) with (name ++ String "=" value).
    rewrite parse_pair_compose by (apply (all_none _ _ name param_char_eq Hn)).
    cbn [snd]. apply negb_true_iff, none_includes, (all_none _ _ value param_char_eq Hvl).
Qed.

(** *** Well-formed URL objects *)

Record wf (u : URL) : Prop := {
  wf_host : valid_host (hostname u) = true;
  wf_path : valid_path (pathname u) = true;
  wf_slash : exists rest, pathname u = String "/" rest;
  wf_query : valid_opt valid_query (query u) = true;
  wf_fragment : valid_opt valid_fragment (fragment u) = true;
  wf_params : valid_params (searchParams u)
}.

Lemma parse_wf s u : parse s = Some u -> wf u.
Proof.
  unfold parse. destruct (strip_scheme s) as [[sch rest]|]; [|discriminate].
  destruct (break_spec (one_of "/?#") rest) as (_ & _ & S1).
  destruct (break (one_of "/?#") rest) as [host rest1]. cbn [fst snd] in S1.
  destruct (break_spec (one_of "?#") rest1) as (E2 & N2 & _).
  destruct (break (one_of "?#") rest1) as [path rest2]. cbn [fst snd] in E2, N2.
  match goal with
  | |- context [let '(query, rest) := ?m in _] => destruct m as [q rest3]
  end.
  destruct (valid_host host && valid_path path && valid_opt valid_query q
            && valid_opt valid_fragment
                 match rest3 with String "#" f => Some f | _ => None end) eqn:V;
    [|discriminate].
  intros [= <-].
  apply andb_true_iff in V. destruct V as [V Vf].
  apply andb_true_iff in V. destruct V as [V Vq].
  apply andb_true_iff in V. destruct V as [Vh Vp].
  constructor; cbn [hostname pathname query fragment searchParams]; trivial.
  - destruct path; [reflexivity | exact Vp].
  - destruct path as [|c path]; cbn [nonempty]; [eexists; reflexivity|].
    subst rest1. cbn [append stops] in S1.
    rewrite none_cons in N2. apply andb_true_iff in N2. destruct N2 as [N2 _].
    apply negb_true_iff in N2.
    destruct (delimiter_cases c S1) as [->|Hc]; [eexists; reflexivity | congruence].
  - destruct q as [q|]; [apply parse_query_valid, Vq | constructor].
Qed.

(** Parsing what [toString] prints gives the URL back. *)
Lemma parse_toString u :
  wf u ->
  parse (toString u)
  = Some {| protocol := protocol u; hostname := hostname u; pathname := pathname u;
            query := query u; fragment := fragment u;
            searchParams := match query u with
                            | Some q => parse_query q
                            | None => []
                            end |}.
Proof.
  intros [Hh Hp [rest Hs] Hq Hf _]. rewrite toString_eq.
  rewrite parse_compose; trivial.
  - rewrite Hs. reflexivity.
  - rewrite Hs. reflexivity.
Qed.

(** *** The setters and the walk over the parameters *)

(** Everything but the query and the parameters is the same. *)
Definition same_location (u v : URL) : Prop :=
  protocol v = protocol u /\ hostname v = hostname u
  /\ pathname v = pathname u /\ fragment v = fragment u.

Lemma delete_wf name u : wf u -> wf (delete name u) /\ same_location u (delete name u).
Proof.
  intros [Hh Hp Hs Hq Hf Hv]. split; [|repeat split].
  assert (Hv' : valid_params
                  (List.filter (fun '(n, _) => negb (String.eqb n name)) (searchParams u))).
  { unfold valid_params in *. rewrite Forall_forall in *.
    intros pair Hin. apply filter_In in Hin. apply Hv. tauto. }
  constructor; cbn [delete hostname pathname query fragment searchParams]; trivial.
  destruct (List.filter _ (searchParams u)) as [|pair list] eqn:E; [reflexivity|].
  cbn [valid_opt]. apply serialize_valid; [exact Hv' | discriminate].
Qed.

Lemma forEach_from_wf callback :
  (forall value key u, wf u -> wf (callback value key u)
                               /\ same_location u (callback value key u)) ->
  forall fuel i u,
    wf u ->
    wf (forEach_from fuel callback i u)
    /\ same_location u (forEach_from fuel callback i u).
Proof.
  intros Hcb. induction fuel as [|fuel IH]; intros i u Hu; cbn [forEach_from].
  - split; [exact Hu | repeat split].
  - destruct (nth_error (searchParams u) i) as [[key value]|].
    + destruct (Hcb value key u Hu) as [Hu' (L1 & L2 & L3 & L4)].
      destruct (IH (S i) _ Hu') as [Hu'' (M1 & M2 & M3 & M4)].
      split; [exact Hu''|]. unfold same_location. repeat split; congruence.
    + split; [exact Hu | repeat split].
Qed.

Lemma set_hostname_wf h u :
  valid_host h = true -> wf u ->
  wf (set_hostname h u)
  /\ hostname (set_hostname h u) = h
  /\ protocol (set_hostname h u) = protocol u
  /\ pathname (set_hostname h u) = pathname u
  /\ query (set_hostname h u) = query u
  /\ fragment (set_hostname h u) = fragment u
  /\ searchParams (set_hostname h u) = searchParams u.
Proof.
  intros Hh [_ Hp Hs Hq Hf Hv]. unfold set_hostname. rewrite Hh.
  split; [constructor; trivial | repeat split].
Qed.

Lemma set_pathname_wf rest u :
  valid_path (String "/" rest) = true -> wf u ->
  exists v,
    set_pathname (String "/" rest) u = Some v
    /\ wf v
    /\ pathname v = String "/" rest
    /\ protocol v = protocol u /\ hostname v = hostname u
    /\ query v = query u /\ fragment v = fragment u
    /\ searchParams v = searchParams u.
Proof.
  intros Hp [Hh _ _ Hq Hf Hv]. unfold set_pathname. rewrite Hp.
  change (startsWith "/" (String "/" rest)) with true. cbv iota.
  eexists. split; [reflexivity|].
  split; [constructor; trivial; cbn [pathname]; eauto | repeat split].
Qed.

(** *** The walk ends: more steps than the list is long change nothing *)

Lemma forEach_from_enough callback :
  (forall value key u,
      List.length (searchParams (callback value key u)) <= List.length (searchParams u)) ->
  forall fuel fuel' i u,
    List.length (searchParams u) - i <= fuel ->
    List.length (searchParams u) - i <= fuel' ->
    forEach_from fuel callback i u = forEach_from fuel' callback i u.
Proof.
  intros Hcb. induction fuel as [|fuel IH]; intros [|fuel'] i u H H'; cbn [forEach_from];
    trivial.
  - assert (E : nth_error (searchParams u) i = None) by (apply nth_error_None; lia).
    now rewrite E.
  - assert (E : nth_error (searchParams u) i = None) by (apply nth_error_None; lia).
    now rewrite E.
  - destruct (nth_error (searchParams u) i) as [[key value]|] eqn:E; [|reflexivity].
    assert (Hi : i < List.length (searchParams u))
      by (apply nth_error_Some; congruence).
    specialize (Hcb value key u). apply IH; lia.
Qed.

Lemma delete_length name u :
  List.length (searchParams (delete name u)) <= List.length (searchParams u).
Proof. cbn [delete searchParams]. apply filter_length_le. Qed.

(** [forEach] with the deleting callback is the walk run to its end. *)
Lemma forEach_delete_enough fuel u :
  List.length (searchParams u) <= fuel ->
  forEach_from fuel (fun _ key w => delete key w) 0 u
  = forEach (fun _ key w => delete key w) u.
Proof.
  intros H. unfold forEach. apply forEach_from_enough; [|lia..].
  intros value key w. apply delete_length.
Qed.

(** Deleting inside the walk skips the pair that moves into the place of
    the deleted one: of three parameters the middle one stays. *)
Example forEach_delete_skips :
  option_map (fun u => searchParams (forEach (fun _ key w => delete key w) u))
             (parse "https://m.facebook.com/page?a=1&b=2&c=3")
  = Some [("b", "2")].
Proof. reflexivity. Qed.

Example parse_example :
  parse "https://m.facebook.com/pg/page?ref=a&refsrc=b#top"
  = Some {| protocol := https; hostname := "m.facebook.com"; pathname := "/pg/page";
            query := Some "ref=a&refsrc=b"; fragment := Some "top";
            searchParams := [("ref", "a"); ("refsrc", "b")] |}.
Proof. reflexivity. Qed.

End UrlFacts.

(** ** Fan-out planning *)

Module FanoutFacts.
Import Str StrFacts Url UrlFacts Functions.
Local Open Scope string_scope.
Local Arguments Ascii.eqb : simpl never.

Definition no_dots (pieces : list string) : bool :=
  forallb (fun s => negb (dot_segment s)) pieces.

Lemma valid_path_segments p : valid_path p = true -> no_dots (split "/" p) = true.
Proof. unfold valid_path. intros H. apply andb_true_iff in H. tauto. Qed.

Lemma valid_path_intro p :
  all path_char p = true -> no_dots (split "/" p) = true -> valid_path p = true.
Proof. intros H1 H2. unfold valid_path. fold (no_dots (split "/" p)). now rewrite H1, H2. Qed.

(** The path [normalizeToMobilePageUrl] writes is one the setter takes. *)
Lemma mobile_path_valid p :
  valid_path p = true ->
  valid_path (String "/" ("pg/" ++ join "/" (List.filter nonempty (split "/" p)))) = true.
Proof.
  intros Hp.
  pose proof (valid_path_chars p Hp) as Hc. pose proof (valid_path_segments p Hp) as Hd.
  set (pieces := List.filter nonempty (split "/" p)).
  assert (Hpc : Forall (fun piece => all path_char piece = true) pieces).
  { pose proof (split_pieces path_char "/" p Hc) as H. rewrite Forall_forall in *.
    intros piece Hin. apply filter_In in Hin. apply H. tauto. }
  assert (Hpn : Forall (fun piece => none (Ascii.eqb "/") piece = true) pieces).
  { pose proof (split_pieces_none "/" p) as H. rewrite Forall_forall in *.
    intros piece Hin. apply filter_In in Hin. apply H. tauto. }
  assert (Hpd : no_dots pieces = true).
  { unfold no_dots in *. rewrite forallb_forall in *.
    intros piece Hin. apply filter_In in Hin. apply Hd. tauto. }
  apply valid_path_intro.
  - change (String "/" ("pg/" ++ join "/" pieces)) with ("/pg/" ++ join "/" pieces).
    rewrite all_app, (all_join path_char "/" pieces eq_refl Hpc). reflexivity.
  - change (String "/" ("pg/" ++ join "/" pieces))
      with ("" ++ String "/" ("pg" ++ String "/" (join "/" pieces))).
    rewrite !split_app_sep. unfold no_dots. rewrite !forallb_app.
    change (forallb (fun s => negb (dot_segment s)) (split "/" "")) with true.
    change (forallb (fun s => negb (dot_segment s)) (split "/" "pg")) with true.
    cbn [andb].
    destruct pieces as [|piece pieces'] eqn:E; [reflexivity|].
    rewrite split_join; [exact Hpd | discriminate | exact Hpn].
Qed.

Lemma mobile_host_valid : valid_host MOBILE_HOST = true.
Proof. vm_compute. reflexivity. Qed.

(** [normalizeToMobilePageUrl] on a URL the parser accepts. *)
Lemma normalizeToMobilePageUrl_wf url u filterParams :
  parse url = Some u ->
  exists v,
    normalizeToMobilePageUrl url filterParams = Some (toString v)
    /\ wf v /\ hostname v = MOBILE_HOST /\ protocol v = protocol u.
Proof.
  intros Hparse. pose proof (parse_wf url u Hparse) as Hu.
  unfold normalizeToMobilePageUrl. rewrite Hparse. cbn [bindo].
  assert (H1 : exists u1,
             (if negb (startsWith "/pg" (pathname u))
              then set_pathname
                     ("/pg/" ++ join "/" (List.filter nonempty (split "/" (pathname u)))) u
              else Some u) = Some u1
             /\ wf u1 /\ protocol u1 = protocol u).
  { destruct (negb (startsWith "/pg" (pathname u))).
    - change ("/pg/" ++ join "/" (List.filter nonempty (split "/" (pathname u))))
        with (String "/" ("pg/" ++ join "/" (List.filter nonempty (split "/" (pathname u))))).
      destruct (set_pathname_wf _ u (mobile_path_valid _ (wf_path u Hu)) Hu)
        as (v & -> & Hv & _ & Hpr & _).
      exists v. auto.
    - exists u. auto. }
  destruct H1 as (u1 & -> & Hu1 & Hp1). cbn [bindo].
  set (u2 := if negb (String.eqb (hostname u1) MOBILE_HOST)
             then set_hostname MOBILE_HOST u1 else u1).
  assert (H2 : wf u2 /\ hostname u2 = MOBILE_HOST /\ protocol u2 = protocol u1).
  { unfold u2. destruct (String.eqb_spec (hostname u1) MOBILE_HOST) as [E|_]; cbn [negb].
    - auto.
    - destruct (set_hostname_wf MOBILE_HOST u1 mobile_host_valid Hu1)
        as (? & ? & ? & _). auto. }
  destruct H2 as (Hu2 & Hh2 & Hp2).
  eexists. split; [reflexivity|].
  unfold forEach.
  match goal with
  | |- context [forEach_from ?n ?cb 0 u2] =>
    assert (Hcb : forall value key w,
               wf w -> wf (cb value key w) /\ same_location w (cb value key w));
      [| destruct (forEach_from_wf cb Hcb n 0 u2 Hu2) as [Hw (L1 & L2 & _)] ]
  end.
  - intros value key w Hw. cbv beta.
    destruct (listed filterParams key); [split; [exact Hw | repeat split]|].
    destruct (falsy_filter filterParams); [split; [exact Hw | repeat split]|].
    apply delete_wf, Hw.
  - split; [exact Hw|]. split; congruence.
Qed.

(** *** The base: the first five pieces of the normalized URL *)

Lemma firstn2_join_not_nil R : firstn 2 (split "/" R) <> [].
Proof.
  destruct (split "/" R) as [|a [|b l]] eqn:E; try discriminate.
  now apply split_not_nil in E.
Qed.

Lemma base_of_text sch h R :
  none (Ascii.eqb "/") h = true ->
  join "/" (firstn 5 (split "/" (scheme_text sch ++ "//" ++ h ++ String "/" R)))
  = scheme_text sch ++ "//" ++ h ++ String "/" (join "/" (firstn 2 (split "/" R))).
Proof.
  intros Hh.
  assert (E : forall colon,
             none (Ascii.eqb "/") colon = true ->
             join "/" (firstn 5 (split "/" (colon ++ String "/" ("" ++ String "/"
                                              (h ++ String "/" R)))))
             = colon ++ String "/" ("" ++ String "/"
                 (h ++ String "/" (join "/" (firstn 2 (split "/" R)))))).
  { intros colon Hc.
    rewrite !split_app_sep, (split_none "/" colon Hc), (split_none "/" h Hh).
    change (split "/" "") with [""]. cbn [app]. rewrite !firstn_cons.
    pose proof (firstn2_join_not_nil R) as Hne.
    destruct (firstn 2 (split "/" R)) as [|a l]; [congruence|].
    rewrite !join_cons. reflexivity. }
  destruct sch; [apply (E "http:") | apply (E "https:")]; reflexivity.
Qed.

(** The first two pieces of the path and what follows it: everything,
    or the first two segments of a longer path. *)
Lemma first_two_pieces rest tail :
  none (Ascii.eqb "/") tail = true ->
  join "/" (firstn 2 (split "/" (rest ++ tail))) = rest ++ tail
  \/ exists a a2 t2,
      rest = a ++ String "/" (a2 ++ String "/" t2)
      /\ join "/" (firstn 2 (split "/" (rest ++ tail))) = a ++ String "/" a2.
Proof.
  intros Ht.
  destruct (break_spec (Ascii.eqb "/") rest) as (E & N & S).
  destruct (break (Ascii.eqb "/") rest) as [a r]. cbn [fst snd] in *.
  destruct r as [|c r].
  - left. rewrite append_nil_r in E. subst a.
    rewrite split_none; [reflexivity|]. now rewrite none_app, N, Ht.
  - cbn [stops] in S. apply Ascii.eqb_eq in S. subst c.
    destruct (break_spec (Ascii.eqb "/") r) as (E2 & N2 & S2).
    destruct (break (Ascii.eqb "/") r) as [a2 r2]. cbn [fst snd] in *.
    destruct r2 as [|c t2].
    + left. rewrite append_nil_r in E2. subst a2. subst rest.
      rewrite append_assoc. cbn [append].
      rewrite split_app_sep, (split_none "/" a N), split_none
        by (now rewrite none_app, N2, Ht).
      reflexivity.
    + right. cbn [stops] in S2. apply Ascii.eqb_eq in S2. subst c.
      exists a, a2, t2. subst r. split; [exact E|]. rewrite E.
      rewrite !append_assoc. cbn [append]. rewrite append_assoc. cbn [append].
      rewrite !split_app_sep, (split_none "/" a N), (split_none "/" a2 N2).
      cbn [app]. rewrite !firstn_cons. reflexivity.
Qed.

Lemma tail_no_slash q f :
  valid_opt valid_query q = true -> valid_opt valid_fragment f = true ->
  none (Ascii.eqb "/") (opt_text "?" q ++ opt_text "#" f) = true.
Proof.
  intros Hq Hf. rewrite none_app. apply andb_true_iff. split.
  - destruct q as [q|]; [|reflexivity]. cbn [opt_text]. rewrite none_cons.
    cbn [valid_opt] in Hq.
    rewrite (all_none _ _ q query_char_slash (valid_query_chars q Hq)). reflexivity.
  - destruct f as [f|]; [|reflexivity]. cbn [opt_text]. rewrite none_cons.
    cbn [valid_opt] in Hf. unfold valid_fragment in Hf.
    rewrite (all_none _ _ f fragment_char_slash Hf). reflexivity.
Qed.

(** The first two segments of a valid path form a valid path. *)
Lemma two_segments_valid a a2 t2 :
  valid_path (String "/" (a ++ String "/" (a2 ++ String "/" t2))) = true ->
  valid_path (String "/" (a ++ String "/" a2)) = true.
Proof.
  intros H. pose proof (valid_path_chars _ H) as Hc.
  pose proof (valid_path_segments _ H) as Hd. apply valid_path_intro.
  - change (String "/" (a ++ String "/" (a2 ++ String "/" t2)))
      with ("/" ++ (a ++ "/" ++ (a2 ++ String "/" t2))) in Hc.
    change (String "/" (a ++ String "/" a2)) with ("/" ++ (a ++ "/" ++ a2)).
    rewrite !all_app in *.
    repeat (apply andb_true_iff in Hc; destruct Hc as [? Hc]).
    repeat (apply andb_true_iff; split); trivial.
  - change (String "/" (a ++ String "/" (a2 ++ String "/" t2)))
      with ("" ++ String "/" (a ++ String "/" (a2 ++ String "/" t2))) in Hd.
    change (String "/" (a ++ String "/" a2)) with ("" ++ String "/" (a ++ String "/" a2)).
    rewrite !split_app_sep in *. unfold no_dots in *. rewrite !forallb_app in *.
    repeat (apply andb_true_iff in Hd; destruct Hd as [? Hd]).
    repeat (apply andb_true_iff; split); trivial.
Qed.

Definition base_of (normalized : string) : string :=
  join "/" (firstn 5 (split "/" normalized)).

(** The base is the text of a URL on the same host. *)
Lemma base_parse v :
  wf v ->
  exists b,
    parse (base_of (toString v)) = Some b
    /\ toString b = base_of (toString v)
    /\ hostname b = hostname v /\ protocol b = protocol v.
Proof.
  intros Hv. destruct Hv as [Hh Hp [rest Hs] Hq Hf Hpar].
  pose proof (tail_no_slash _ _ Hq Hf) as Ht.
  assert (Hhs : none (Ascii.eqb "/") (hostname v) = true)
    by (apply (all_none host_char); [exact host_char_slash | apply valid_host_chars, Hh]).
  assert (Hbase : base_of (toString v)
                  = scheme_text (protocol v) ++ "//" ++ hostname v
                    ++ String "/" (join "/" (firstn 2 (split "/"
                         (rest ++ opt_text "?" (query v) ++ opt_text "#" (fragment v)))))).
  { unfold base_of. rewrite toString_eq, Hs. cbn [append].
    apply base_of_text, Hhs. }
  rewrite Hbase. clear Hbase.
  destruct (first_two_pieces rest _ Ht) as [->|(a & a2 & t2 & Er & ->)].
  - pose proof (parse_toString v (Build_wf v Hh Hp (ex_intro _ rest Hs) Hq Hf Hpar)) as P.
    rewrite toString_eq, Hs in P. cbn [append] in P.
    eexists. split; [exact P|]. rewrite toString_eq.
    cbn [protocol hostname pathname query fragment append]. auto.
  - assert (Hp2 : valid_path (String "/" (a ++ String "/" a2)) = true)
      by (apply (two_segments_valid a a2 t2); rewrite <- Er, <- Hs; exact Hp).
    pose proof (parse_compose (protocol v) (hostname v) (String "/" (a ++ String "/" a2))
                              None None Hh Hp2 eq_refl eq_refl eq_refl) as P.
    cbn [opt_text nonempty] in P. rewrite !append_nil_r in P. cbn [append] in P.
    eexists. split; [exact P|]. rewrite toString_eq.
    cbn [protocol hostname pathname query fragment opt_text].
    rewrite !append_nil_r. cbn [append]. auto.
Qed.

(** *** The sub-tasks *)

(** The base URL with a section appended to its path, on the mobile host. *)
Definition with_section (b : URL) (sub : FbSection) : URL :=
  {| protocol := protocol b; hostname := MOBILE_HOST;
     pathname := pathname b ++ "/" ++ section_text sub;
     query := query b; fragment := fragment b; searchParams := searchParams b |}.

(** The array the design document describes: the home task on the base,
    then one task per section, all for the mobile device mode. *)
Definition plan (b : URL) (pages : list FbSection) : list subpage :=
  {| useMobile := true; url := toString b; section := home |}
  :: map (fun sub => {| useMobile := true; url := toString (with_section b sub);
                        section := sub |}) pages.

Lemma section_text_valid sub :
  all path_char (section_text sub) = true
  /\ no_dots (split "/" (section_text sub)) = true.
Proof. destruct sub; split; vm_compute; reflexivity. Qed.

Lemma section_path_valid rest sub :
  valid_path (String "/" rest) = true ->
  valid_path (String "/" (rest ++ String "/" (section_text sub))) = true.
Proof.
  intros H. pose proof (valid_path_chars _ H) as Hc.
  pose proof (valid_path_segments _ H) as Hd.
  destruct (section_text_valid sub) as [Sc Sd]. apply valid_path_intro.
  - change (String "/" (rest ++ String "/" (section_text sub)))
      with (String "/" rest ++ "/" ++ section_text sub).
    rewrite !all_app, Hc, Sc. reflexivity.
  - change (String "/" (rest ++ String "/" (section_text sub)))
      with (String "/" rest ++ String "/" (section_text sub)).
    rewrite split_app_sep. unfold no_dots in *. rewrite forallb_app, Hd, Sd. reflexivity.
Qed.

Lemma section_url b sub :
  wf b ->
  bindo (set_pathname (pathname b ++ "/" ++ section_text sub) b)
        (fun subUrl =>
           let subUrl := set_hostname MOBILE_HOST subUrl in
           Some {| url := toString subUrl; section := sub; useMobile := true |})
  = Some {| useMobile := true; url := toString (with_section b sub); section := sub |}.
Proof.
  intros [Hh Hp [rest Hs] Hq Hf Hpar]. unfold with_section. rewrite Hs.
  change (String "/" rest ++ "/" ++ section_text sub)
    with (String "/" (rest ++ String "/" (section_text sub))).
  unfold set_pathname. rewrite section_path_valid by (rewrite <- Hs; exact Hp).
  change (startsWith "/" (String "/" (rest ++ String "/" (section_text sub)))) with true.
  cbv iota. cbn [bindo]. unfold set_hostname. rewrite mobile_host_valid.
  reflexivity.
Qed.

Lemma traverse_map {A B} (f : A -> option B) (g : A -> B) l :
  (forall a, f a = Some (g a)) -> traverse f l = Some (map g l).
Proof.
  intros H. induction l as [|a l IH]; simpl; [reflexivity|].
  rewrite H, IH. reflexivity.
Qed.

(** C7.  On a page URL with two query parameters the plan is not the
    one the design describes.  The walk that should remove every
    parameter leaves the second one, so the home sub-task is not on the
    base page URL [https://m.facebook.com/pg/somepage] but on that URL
    with [?refsrc=b], and the URL of each section is not the text
    [<base>/<section>]: the section is appended to the path, in front of
    the parameter that was left.  The sub-tasks are otherwise as
    described: home first, then one per section in the order given, all
    on the mobile host with [useMobile = true].  With a single parameter
    the walk removes it and the plan is the one described.  The URL is
    one that [getUrlLabel] labels as a page, for which the start-up code
    plans the sub-tasks. *)
Theorem generateSubpagesFromUrl_keeps_parameter :
  getUrlLabel parse "https://www.facebook.com/somepage?ref=a&refsrc=b" = JS.Ok PAGE
  /\ generateSubpagesFromUrl "https://www.facebook.com/somepage?ref=a&refsrc=b" default_pages
  = Some [ {| useMobile := true; section := home;
              url := "https://m.facebook.com/pg/somepage?refsrc=b" |};
           {| useMobile := true; section := posts;
              url := "https://m.facebook.com/pg/somepage/posts?refsrc=b" |};
           {| useMobile := true; section := about;
              url := "https://m.facebook.com/pg/somepage/about?refsrc=b" |};
           {| useMobile := true; section := reviews;
              url := "https://m.facebook.com/pg/somepage/reviews?refsrc=b" |};
           {| useMobile := true; section := services;
              url := "https://m.facebook.com/pg/somepage/services?refsrc=b" |} ]
  /\ "https://m.facebook.com/pg/somepage/posts?refsrc=b"
     <> "https://m.facebook.com/pg/somepage?refsrc=b" ++ "/" ++ section_text posts
  /\ generateSubpagesFromUrl "https://www.facebook.com/somepage?ref=a" default_pages
     = Some [ {| useMobile := true; section := home;
                 url := "https://m.facebook.com/pg/somepage" |};
              {| useMobile := true; section := posts;
                 url := "https://m.facebook.com/pg/somepage" ++ "/" ++ section_text posts |};
              {| useMobile := true; section := about;
                 url := "https://m.facebook.com/pg/somepage" ++ "/" ++ section_text about |};
              {| useMobile := true; section := reviews;
                 url := "https://m.facebook.com/pg/somepage" ++ "/" ++ section_text reviews |};
              {| useMobile := true; section := services;
                 url := "https://m.facebook.com/pg/somepage" ++ "/" ++ section_text services |} ].
Proof.
  split; [vm_compute; reflexivity|].
  split; [vm_compute; reflexivity|]. split; [|vm_compute; reflexivity].
  vm_compute. discriminate.
Qed.

(** A fragment is never removed either: it stays on the base, and the
    section goes in front of it. *)
Lemma generateSubpagesFromUrl_keeps_fragment :
  generateSubpagesFromUrl "https://www.facebook.com/somepage#top" [posts]
  = Some [ {| useMobile := true; section := home;
              url := "https://m.facebook.com/pg/somepage#top" |};
           {| useMobile := true; section := posts;
              url := "https://m.facebook.com/pg/somepage/posts#top" |} ].
Proof. vm_compute. reflexivity. Qed.

End FanoutFacts.

(** ** URL classification *)

Module ClassifierFacts.
Import JS Url Functions.
Local Open Scope string_scope.

(** Whatever the URL constructor does, [getUrlLabel] throws an
    [InfoError], or lets the [TypeError] of the constructor through (on a
    non-empty string the constructor rejects), or returns one of
    [LISTING], [PHOTO], [POST] and [PAGE]; it never returns [SEARCH]. *)
Theorem getUrlLabel_outcomes :
  forall (new_URL : string -> option URL) (url : string),
    (exists message namespace,
        getUrlLabel new_URL url = Throw (InfoError message url namespace))
    \/ (getUrlLabel new_URL url = Throw TypeError /\ url <> "" /\ new_URL url = None)
    \/ (exists label,
           getUrlLabel new_URL url = Ok label
           /\ (label = LISTING \/ label = PHOTO \/ label = POST \/ label = PAGE)
           /\ label <> SEARCH).
Proof.
  intros new_URL url. unfold getUrlLabel.
  destruct url as [|c url']; cbn [truthy_string negb].
  - left. eauto.
  - destruct (new_URL (String c url')) as [parsedUrl|].
    + destruct (Str.includes "facebook.com" (hostname parsedUrl)); [|left; eauto].
      destruct (Str.startsWith "/biz/" (pathname parsedUrl)).
      { right; right. exists LISTING. split; [reflexivity|]. split; [auto|discriminate]. }
      destruct (RegExp.test photo_pattern (pathname parsedUrl)).
      { right; right. exists PHOTO. split; [reflexivity|]. split; [auto|discriminate]. }
      destruct (RegExp.test post_pattern (pathname parsedUrl)).
      { right; right. exists POST. split; [reflexivity|]. split; [auto|discriminate]. }
      destruct (RegExp.test page_pattern (pathname parsedUrl)).
      { right; right. exists PAGE. split; [reflexivity|]. split; [auto|discriminate]. }
      left. eauto.
    + right; left. repeat split. discriminate.
Qed.

(** The four labels are all produced, each on a URL of its shape. *)
Lemma getUrlLabel_examples :
  getUrlLabel parse "https://www.facebook.com/biz/restaurants" = Ok LISTING
  /\ getUrlLabel parse "https://www.facebook.com/page/photos/a.123/456" = Ok PHOTO
  /\ getUrlLabel parse "https://m.facebook.com/page/posts/123" = Ok POST
  /\ getUrlLabel parse "https://pt-br.facebook.com/pg/page" = Ok PAGE.
Proof. repeat split; vm_compute; reflexivity. Qed.

(** C9.  ['abc'] is not empty and is not a URL: the constructor's
    [TypeError] leaves [getUrlLabel], which therefore neither returns a
    label nor throws the [InfoError] that its first guard and its
    documentation ([@throws {InfoError}]) announce for an invalid url.
    The empty string, which the guard sees, does give the [InfoError]. *)
Theorem getUrlLabel_not_a_url :
  parse "abc" = None
  /\ getUrlLabel parse "abc" = Throw TypeError
  /\ (forall message namespace,
         getUrlLabel parse "abc" <> Throw (InfoError message "abc" namespace))
  /\ (forall label, getUrlLabel parse "abc" <> Ok label)
  /\ getUrlLabel parse "" = Throw (InfoError "Invalid url provided" "" "getUrlLabel").
Proof.
  split; [reflexivity|]. split; [reflexivity|].
  split; [intros message namespace; discriminate|].
  split; [intros label; discriminate | reflexivity].
Qed.

End ClassifierFacts.

(** ** Output normalization *)

Module NormalizeFacts.
Import JS Url Functions.
Local Open Scope string_scope.

(** C2 (the code breaks it).  With two query parameters the walk of
    [forEach] over the list it is deleting from skips the second one;
    normalizing the result once more then removes it. *)
Theorem normalizeOutputPageUrl_twice :
  normalizeOutputPageUrl "https://m.facebook.com/pg/page?ref=a&refsrc=b"
  = Some "https://www.facebook.com/page?refsrc=b"
  /\ normalizeOutputPageUrl "https://www.facebook.com/page?refsrc=b"
     = Some "https://www.facebook.com/page"
  /\ "https://www.facebook.com/page?refsrc=b" <> "https://www.facebook.com/page".
Proof. repeat split; try (vm_compute; reflexivity). discriminate. Qed.

(** C3 (the code breaks it).  The URL returned for two query parameters
    still carries the second one. *)
Theorem normalizeOutputPageUrl_keeps_parameter :
  exists out parsed,
    normalizeOutputPageUrl "https://m.facebook.com/pg/page?ref=a&refsrc=b" = Some out
    /\ parse out = Some parsed
    /\ protocol parsed = https
    /\ hostname parsed = DESKTOP_HOST
    /\ pathname parsed = "/page"
    /\ searchParams parsed = [("refsrc", "b")].
Proof.
  eexists. eexists. split; [vm_compute; reflexivity|].
  split; [vm_compute; reflexivity|]. repeat split.
Qed.

End NormalizeFacts.

(** ** The sampler: what each counter counts *)

Module CounterCounts.
Import JS Counter.
Local Open Scope Z_scope.

(** The number of calls in a use that satisfy [p]. *)
Definition number (p : call -> bool) (cs : list call) : Z :=
  Z.of_nat (List.length (List.filter p cs)).

Definition is_empty (c : call) : bool :=
  match c with Empty _ => true | _ => false end.
Definition is_empty_true (c : call) : bool :=
  match c with Empty predicate => predicate | _ => false end.
Definition is_add (c : call) : bool :=
  match c with Add _ => true | _ => false end.
Definition is_time (c : call) : bool :=
  match c with Time _ => true | _ => false end.

Definition accepted (minMax : DateWindow.MinMaxDates) (c : call) : bool :=
  match c with Time value => DateWindow.compare_bool minMax value | _ => false end.
Definition rejected (minMax : DateWindow.MinMaxDates) (c : call) : bool :=
  match c with Time value => negb (DateWindow.compare_bool minMax value) | _ => false end.

(** The sum of the values passed to [add]. *)
Definition added (cs : list call) : Z :=
  fold_right (fun c acc => match c with Add value => value + acc | _ => acc end) 0 cs.

Lemma number_snoc p cs c :
  number p (cs ++ [c]) = number p cs + (if p c then 1 else 0).
Proof.
  unfold number. rewrite filter_app, length_app. simpl.
  destruct (p c); simpl; lia.
Qed.

Lemma added_snoc cs c :
  added (cs ++ [c]) = added cs + match c with Add value => value | _ => 0 end.
Proof.
  unfold added. induction cs as [|a cs IH]; simpl.
  - destruct c; lia.
  - rewrite IH. destruct a; lia.
Qed.

(** X1.  After any sequence of calls on a fresh counter, [total] is
    the sum of the values given to [add], [calls] the number of calls of
    [add] and [empty] together ([time] is not counted), [empty] the
    number of calls [empty(true)], [inRange] the number of calls of [time]
    whose date the window accepts and [outOfRange] the number of those it
    rejects: every date passed to [time] is counted exactly once. *)
Theorem counters_count :
  forall (minMax : DateWindow.MinMaxDates) (cs : list call),
    total (run minMax cs) = added cs
    /\ calls (run minMax cs) = number is_add cs + number is_empty cs
    /\ empty (run minMax cs) = number is_empty_true cs
    /\ inRange (run minMax cs) = number (accepted minMax) cs
    /\ outOfRange (run minMax cs) = number (rejected minMax) cs
    /\ inRange (run minMax cs) + outOfRange (run minMax cs) = number is_time cs.
Proof.
  intros minMax cs. induction cs as [|c cs IH] using rev_ind.
  - repeat split.
  - destruct IH as (Ht & Hc & He & Hi & Ho & Hs).
    unfold run in *. rewrite fold_left_app. cbn [fold_left].
    rewrite !number_snoc, added_snoc.
    destruct c as [predicate|value|value]; cbn [step is_add is_empty is_empty_true is_time
                                                  accepted rejected].
    + unfold call_empty. destruct predicate; cbn; repeat split; lia.
    + unfold call_add. cbn. repeat split; lia.
    + unfold call_time.
      destruct (DateWindow.compare_bool minMax value); cbn; repeat split; lia.
Qed.

(** In a window of two valid bounds in order, seen from a valid date. *)
Definition ordered (minMax : DateWindow.MinMaxDates) : Prop :=
  exists lo hi,
    DateWindow.minDate minMax = Some (DateWindow.Valid lo)
    /\ DateWindow.maxDate minMax = Some (DateWindow.Valid hi)
    /\ lo <= hi.

Definition valid_dates (cs : list call) : Prop :=
  Forall (fun c => match c with Time DateWindow.Invalid => False | _ => True end) cs.

(** X2.  In a window whose two bounds are valid dates in order, and with
    valid dates only passed to [time], every rejected date is counted
    once as older than the minimum or once as newer than the maximum,
    [min.older + max.newer = outOfRange]; and the remaining two buckets
    repeat these, [max.older = min.older] and [min.newer = max.newer]. *)
Theorem buckets_partition :
  forall (minMax : DateWindow.MinMaxDates) (cs : list call),
    ordered minMax -> valid_dates cs ->
    older (min (run minMax cs)) + newer (max (run minMax cs)) = outOfRange (run minMax cs)
    /\ older (max (run minMax cs)) = older (min (run minMax cs))
    /\ newer (min (run minMax cs)) = newer (max (run minMax cs)).
Proof.
  intros minMax cs (lo & hi & Hlo & Hhi & Hle) Hv.
  induction cs as [|c cs IH] using rev_ind.
  - repeat split.
  - apply Forall_app in Hv. destruct Hv as [Hv Hc].
    destruct (IH Hv) as (I1 & I2 & I3). clear IH.
    unfold run in *. rewrite fold_left_app. cbn [fold_left].
    inversion Hc as [|? ? Hc' _]; subst.
    destruct c as [predicate|value|[t|]]; cbn [step]; try contradiction.
    + unfold call_empty. cbn. auto.
    + unfold call_add. cbn. auto.
    + unfold call_time, bump_max, bump_min, DateWindow.compare_bool, DateWindow.compare.
      rewrite Hlo, Hhi. cbn [DateWindow.diff DateWindow.le0 DateWindow.ge0
                              DateWindow.lt0 DateWindow.gt0].
      destruct (Z.leb_spec (lo - t) 0), (Z.leb_spec 0 (hi - t)),
               (Z.ltb_spec 0 (hi - t)), (Z.ltb_spec (hi - t) 0),
               (Z.ltb_spec (lo - t) 0), (Z.ltb_spec 0 (lo - t));
        cbn; try lia; repeat split; lia.
Qed.

Definition window_1000_2000 : DateWindow.MinMaxDates :=
  {| DateWindow.minDate := Some (DateWindow.Valid 1000);
     DateWindow.maxDate := Some (DateWindow.Valid 2000) |}.

Definition mixed_dates : list call :=
  [Add 4; Time (DateWindow.Valid 500); Time (DateWindow.Valid 1500);
   Time (DateWindow.Valid 2500); Time (DateWindow.Valid 3000)].

Lemma buckets_partition_witness :
  ordered window_1000_2000 /\ valid_dates mixed_dates
  /\ outOfRange (run window_1000_2000 mixed_dates) = 3
  /\ older (min (run window_1000_2000 mixed_dates))
     + newer (max (run window_1000_2000 mixed_dates))
     = outOfRange (run window_1000_2000 mixed_dates).
Proof.
  assert (Ho : ordered window_1000_2000) by (exists 1000, 2000; repeat split; lia).
  assert (Hv : valid_dates mixed_dates) by (repeat constructor).
  split; [exact Ho|]. split; [exact Hv|]. split; [reflexivity|].
  apply (buckets_partition window_1000_2000 mixed_dates Ho Hv).
Defined.

End CounterCounts.

(** ** Date windows: edges *)

Module DateWindowEdges.
Import JS DateWindow.
Local Open Scope Z_scope.

Lemma Ok_eq (E A : Type) (a b : A) : @Ok E A a = Ok b -> a = b.
Proof. congruence. Qed.

(** X3.  The dates a window accepts form an interval: a date between two
    accepted dates is accepted. *)
Theorem compare_convex :
  forall (w : MinMaxDates) (t1 t t2 : Z),
    compare w (Valid t1) = Ok true ->
    compare w (Valid t2) = Ok true ->
    t1 <= t <= t2 ->
    compare w (Valid t) = Ok true.
Proof.
  intros [[[lo|]|] [[hi|]|]] t1 t t2 H1 H2 Ht;
    apply Ok_eq in H1, H2; unfold compare; f_equal;
    cbn in H1, H2 |- *; try discriminate;
    rewrite ?andb_true_r, ?andb_true_iff, ?Z.leb_le in *; lia.
Qed.

Lemma compare_convex_witness :
  let w := {| minDate := Some (Valid 1000); maxDate := Some (Valid 2000) |} in
  compare w (Valid 1000) = Ok true /\ compare w (Valid 2000) = Ok true
  /\ 1000 <= 1500 <= 2000 /\ compare w (Valid 1500) = Ok true.
Proof.
  intros w. split; [reflexivity|]. split; [reflexivity|]. split; [lia|].
  apply (compare_convex w 1000 1500 2000); [reflexivity | reflexivity | lia].
Defined.

(** X4.  An input that does not parse to a date gives an invalid moment,
    not an error: a window with an invalid bound is built like any other
    and then accepts no date at all, and an invalid date is accepted by
    the window without bounds only. *)
Theorem invalid_moments :
  (forall (startOfDay : Z -> Z) (subtract : Z -> positive -> timeUnit -> Z)
          (now_min now_max : Z) (other : timeInput),
      (exists w, minMaxDates startOfDay subtract now_min now_max
                             {| min := Other Invalid; max := other |} = Ok w
                 /\ forall t, compare w t = Ok false)
      /\ (exists w, minMaxDates startOfDay subtract now_min now_max
                                {| min := other; max := Other Invalid |} = Ok w
                    /\ forall t, compare w t = Ok false))
  /\ (forall w : MinMaxDates,
         compare w Invalid
         = Ok (match minDate w, maxDate w with None, None => true | _, _ => false end)).
Proof.
  split.
  - intros startOfDay subtract now_min now_max other. split.
    + unfold minMaxDates. cbn [min max parseTimeUnit].
      destruct (parseTimeUnit startOfDay subtract now_max other) as [[hi|]|];
        (eexists; split; [reflexivity | intros t; reflexivity]).
    + unfold minMaxDates. cbn [min max parseTimeUnit].
      destruct (parseTimeUnit startOfDay subtract now_min other) as [[lo|]|];
        (eexists; split; [reflexivity|]); intros t; unfold compare;
        cbn [minDate maxDate diff ge0]; rewrite andb_false_r; reflexivity.
  - intros [[[lo|]|] [[hi|]|]]; reflexivity.
Qed.

(** X5.  [minMaxDates] throws only for two valid bounds with the maximum
    before the minimum: a window with one bound, with none, with equal
    bounds or with an invalid bound is always built. *)
Theorem minMaxDates_throws_iff :
  forall (startOfDay : Z -> Z) (subtract : Z -> positive -> timeUnit -> Z)
         (now_min now_max : Z) (arg : MinMax),
    (exists e, minMaxDates startOfDay subtract now_min now_max arg = Throw e)
    <-> (exists lo hi,
            parseTimeUnit startOfDay subtract now_min (min arg) = Some (Valid lo)
            /\ parseTimeUnit startOfDay subtract now_max (max arg) = Some (Valid hi)
            /\ hi < lo).
Proof.
  intros startOfDay subtract now_min now_max arg. split.
  - intros [e He]. apply DateWindowFacts.minMaxDates_Throw in He.
    destruct He as (lo & hi & H1 & H2 & H3 & _). eauto.
  - intros (lo & hi & H1 & H2 & H3). eexists.
    apply DateWindowFacts.minMaxDates_Throw. eauto 6.
Qed.

End DateWindowEdges.

(** ** The per-task time budget: its upper bound *)

Module MainBounds.
Import JS Main.
Local Open Scope Z_scope.

(** X6.  Whatever the two maxima are, the budget is never [Infinity],
    logs at most one warning, and when it is an integer it is at most
    35791 seconds, so that the budget times 60000, the milliseconds of the
    source's check, stays below [0x7FFFFFFF]; for a volume that is not
    negative it is an integer between 600 and 35791. *)
Theorem handlePageTimeoutSecs_bounds :
  forall maxPostComments maxPosts : Z,
    match fst (handlePageTimeoutSecs maxPostComments maxPosts) with
    | Int secs =>
      secs <= 35791 /\ secs * 60000 < 0x7FFFFFFF
      /\ (0 <= maxPostComments + maxPosts -> 600 <= secs)
    | PlusInfinity => False
    | MinusInfinity | NotANumber => maxPostComments + maxPosts < 0
    end
    /\ (List.length (snd (handlePageTimeoutSecs maxPostComments maxPosts)) <= 1)%nat.
Proof.
  intros a b. unfold handlePageTimeoutSecs.
  change (MAX_TIMEOUT / 60000) with 35791.
  destruct (Z.le_gt_cases 0 (a + b)) as [Hv|Hv].
  - destruct (MainFacts.scaledTimeoutSecs_floor a b Hv) as [->|(z & -> & Hz)].
    + cbn. repeat split; lia.
    + rewrite MainFacts.overflows_Int.
      destruct (Z.leb_spec MAX_TIMEOUT (z * 60000)) as [H|H]; cbn [fst snd List.length].
      * repeat split; lia.
      * unfold MAX_TIMEOUT in H. repeat split; lia.
  - destruct (scaledTimeoutSecs a b) as [z| | |] eqn:E.
    + rewrite MainFacts.overflows_Int.
      destruct (Z.leb_spec MAX_TIMEOUT (z * 60000)) as [H|H]; cbn [fst snd List.length].
      * repeat split; lia.
      * unfold MAX_TIMEOUT in H. repeat split; lia.
    + cbn. repeat split; lia.
    + cbn. split; [exact Hv | lia].
    + cbn. split; [exact Hv | lia].
Qed.

End MainBounds.

(** ** Runs of [scrollUntil] *)

Module ScrollRuns.
Import JS Scroll.
Local Arguments isChanging : simpl never.

Lemma has_app h1 h2 v : has (h1 ++ h2) v = has h1 v || has h2 v.
Proof. unfold has. apply existsb_app. Qed.

Lemma has_add_same v h : has (add v h) v = true.
Proof.
  unfold add. destruct (has h v) eqn:E; [exact E|].
  rewrite has_app. unfold has at 2. simpl. rewrite Z.eqb_refl.
  apply orb_true_iff. right. reflexivity.
Qed.

Lemma has_add_mono w h v : has h v = true -> has (add w h) v = true.
Proof.
  intros H. unfold add. destruct (has h w); [exact H|].
  rewrite has_app, H. reflexivity.
Qed.

Lemma has_add w h v : has (add w h) v = has h v || Z.eqb v w.
Proof.
  unfold add. destruct (has h w) eqn:E.
  - destruct (Z.eqb_spec v w) as [->|_].
    + rewrite E. reflexivity.
    + rewrite orb_false_r. reflexivity.
  - rewrite has_app. unfold has at 2. simpl. rewrite orb_false_r. reflexivity.
Qed.

Lemma has_addTruthy_mono x h v : has h v = true -> has (addTruthy x h) v = true.
Proof.
  intros H. unfold addTruthy. destruct x as [w|]; [|exact H].
  destruct (truthy w); [|exact H]. apply has_add_mono, H.
Qed.

Lemma has_addTruthy_same v h : v <> 0%Z -> has (addTruthy (Some v) h) v = true.
Proof.
  intros Hv. unfold addTruthy, truthy.
  destruct (Z.eqb_spec v 0) as [E|_]; [contradiction|]. simpl. apply has_add_same.
Qed.

Lemma has_addTruthy_zero x h : has h 0%Z = false -> has (addTruthy x h) 0%Z = false.
Proof.
  intros H. unfold addTruthy. destruct x as [w|]; [|exact H].
  unfold truthy. destruct (Z.eqb_spec w 0) as [E|E]; simpl; [exact H|].
  rewrite has_add, H. destruct w; [congruence | reflexivity | reflexivity].
Qed.

Lemma size_add w h : size h <= size (add w h) <= S (size h).
Proof.
  unfold add, size. destruct (has h w); [lia|].
  rewrite List.length_app. simpl. lia.
Qed.

Lemma size_addTruthy x h : size h <= size (addTruthy x h) <= S (size h).
Proof.
  unfold addTruthy. destruct x as [w|]; [|lia].
  destruct (truthy w); [apply size_add | lia].
Qed.

Lemma NoDup_add w h : NoDup h -> NoDup (add w h).
Proof.
  intros H. unfold add. destruct (has h w) eqn:E; [exact H|].
  apply NoDup_app; [exact H | repeat constructor; intros [] | ].
  intros a Ha [<-|[]]. unfold has in E.
  assert (Ht : existsb (Z.eqb w) h = true).
  { apply existsb_exists. exists w. split; [exact Ha | apply Z.eqb_refl]. }
  congruence.
Qed.

Lemma NoDup_addTruthy x h : NoDup h -> NoDup (addTruthy x h).
Proof.
  intros H. unfold addTruthy. destruct x as [w|]; [|exact H].
  destruct (truthy w); [apply NoDup_add, H | exact H].
Qed.

(** A value already in the set is never reported as a change. *)
Lemma isChanging_seen h v lc : has h v = true -> fst (isChanging h (Some v) lc) = false.
Proof.
  intros H. destruct (fst (isChanging h (Some v) lc)) eqn:E; [|reflexivity].
  apply ScrollFacts.isChanging_true in E. destruct E as (v' & [= <-] & _ & E).
  congruence.
Qed.

Lemma pass_sets x s :
  scrolls (snd (pass x s)) = addTruthy (lastScroll x) (scrolls s)
  /\ heights (snd (pass x s)) = addTruthy (bodyHeight x) (heights s)
  /\ count (snd (pass x s)) = count s.
Proof.
  unfold pass.
  destruct (isChanging (scrolls s) (lastScroll x) (lastCount s)) as [c1 m1].
  destruct (isChanging (heights s) (bodyHeight x) m1) as [c2 m2]. auto.
Qed.

Section Loop.
Variable shouldContinue : report -> vars -> bool.

(** The sample of pass [j] repeats a value that is in the set at the start
    or that an earlier pass has read, and that is not [0]. *)
Definition seen (signal : sample -> option Z) (h : NumberSet)
           (xs : list sample) (j : nat) (v : Z) : Prop :=
  has h v = true
  \/ (v <> 0%Z /\ exists i xi, i < j /\ nth_error xs i = Some xi /\ signal xi = Some v).

Lemma seen_tail signal h x xs j v :
  seen signal h (x :: xs) (S j) v ->
  seen signal (addTruthy (signal x) h) xs j v.
Proof.
  intros [H|(Hv & i & xi & Hi & Hn & Hs)].
  - left. apply has_addTruthy_mono, H.
  - destruct i as [|i]; simpl in Hn.
    + injection Hn as <-. left. rewrite Hs. apply has_addTruthy_same, Hv.
    + right. split; [exact Hv|]. exists i, xi. repeat split; trivial. lia.
Qed.

Lemma loop_seen xs : forall s j xj rj,
  nth_error xs j = Some xj ->
  nth_error (fst (loop shouldContinue xs s)) j = Some rj ->
  (forall v, lastScroll xj = Some v -> seen lastScroll (scrolls s) xs j v ->
             scrollChanged rj = false)
  /\ (forall v, bodyHeight xj = Some v -> seen bodyHeight (heights s) xs j v ->
                bodyChanged rj = false).
Proof.
  induction xs as [|x xs IH]; intros s j xj rj Hx Hr; [destruct j; discriminate|].
  simpl in Hr.
  pose proof (ScrollFacts.pass_report x s) as Hp.
  destruct (pass_sets x s) as (Hs1 & Hs2 & _).
  destruct (pass x s) as [r s1]. simpl in Hp, Hs1, Hs2.
  destruct j as [|j].
  - simpl in Hx. injection Hx as ->.
    assert (Hrj : rj = r).
    { destruct (shouldContinue r s1); [|simpl in Hr; congruence].
      destruct (loop shouldContinue xs _) as [rs s3]. simpl in Hr. congruence. }
    subst rj. rewrite Hp. simpl. split; intros v Hv [H|(_ & i & _ & Hi & _)]; try lia.
    + rewrite Hv. apply isChanging_seen, H.
    + rewrite Hv. apply isChanging_seen, H.
  - simpl in Hx. destruct (shouldContinue r s1).
    + specialize (IH {| scrolls := scrolls s1; heights := heights s1;
                        count := S (count s1); lastCount := lastCount s1 |} j xj rj Hx).
      destruct (loop shouldContinue xs _) as [rs s3]. simpl in Hr, IH.
      destruct (IH Hr) as [IH1 IH2]. split; intros v Hv Hseen.
      * apply (IH1 v Hv). rewrite Hs1. apply seen_tail, Hseen.
      * apply (IH2 v Hv). rewrite Hs2. apply seen_tail, Hseen.
    + simpl in Hr. destruct j; discriminate.
Qed.

(** What every run keeps true of the variables of the closure. *)
Record kept (passes : nat) (s : vars) : Prop := {
  kept_scroll_zero : has (scrolls s) 0%Z = false;
  kept_height_zero : has (heights s) 0%Z = false;
  kept_scroll_nodup : NoDup (scrolls s);
  kept_height_nodup : NoDup (heights s);
  kept_scroll_size : size (scrolls s) <= passes;
  kept_height_size : size (heights s) <= passes;
  kept_mark : lastCount s <= Nat.max (size (scrolls s)) (size (heights s))
}.

Lemma pass_kept x s n : kept n s -> kept (S n) (snd (pass x s)).
Proof.
  intros [H1 H2 H3 H4 H5 H6 H7].
  pose proof (ScrollFacts.pass_mark x s) as Hm.
  destruct (pass_sets x s) as (Hs1 & Hs2 & _).
  pose proof (size_addTruthy (lastScroll x) (scrolls s)) as Hz1.
  pose proof (size_addTruthy (bodyHeight x) (heights s)) as Hz2.
  constructor; rewrite ?Hs1, ?Hs2.
  - apply has_addTruthy_zero, H1.
  - apply has_addTruthy_zero, H2.
  - apply NoDup_addTruthy, H3.
  - apply NoDup_addTruthy, H4.
  - lia.
  - lia.
  - rewrite Hm, !ScrollFacts.isChanging_mark.
    destruct (lastScroll x), (bodyHeight x); lia.
Qed.

Lemma loop_kept xs : forall s n,
  kept n s ->
  let rs := fst (loop shouldContinue xs s) in
  let s' := snd (loop shouldContinue xs s) in
  kept (n + List.length rs) s'
  /\ List.length rs <= List.length xs
  /\ (count s + List.length rs = S (count s')
      \/ (count s + List.length rs = count s' /\ List.length rs = List.length xs)).
Proof.
  induction xs as [|x xs IH]; intros s n Hk; simpl.
  - rewrite Nat.add_0_r. split; [exact Hk|]. split; [lia|]. right. lia.
  - pose proof (pass_kept x s n Hk) as Hk1.
    destruct (pass_sets x s) as (_ & _ & Hc).
    destruct (pass x s) as [r s1]. simpl in Hk1, Hc.
    destruct (shouldContinue r s1).
    + set (s2 := {| scrolls := scrolls s1; heights := heights s1;
                    count := S (count s1); lastCount := lastCount s1 |}).
      assert (Hk2 : kept (S n) s2) by (destruct Hk1; constructor; assumption).
      specialize (IH s2 (S n) Hk2).
      destruct (loop shouldContinue xs s2) as [rs s3]. simpl in IH |- *.
      destruct IH as (IH1 & IH2 & IH3).
      replace (n + S (List.length rs)) with (S n + List.length rs) by lia.
      split; [exact IH1|]. split; [lia|]. lia.
    + simpl. replace (n + 1) with (S n) by lia.
      split; [exact Hk1|]. split; [lia|]. left. lia.
Qed.
End Loop.

Lemma kept_init : kept 0 init.
Proof. constructor; simpl; trivial; constructor. Qed.

(** X7.  A value that is not [0] and that an earlier pass has read for
    the same signal is never reported as a change of that signal. *)
Theorem seen_value_unchanged :
  forall (shouldContinue : report -> vars -> bool) (xs : list sample)
         (i j : nat) (xi xj : sample) (rj : report) (v : Z),
    i < j -> v <> 0%Z ->
    nth_error xs i = Some xi ->
    nth_error xs j = Some xj ->
    nth_error (fst (scrollUntil shouldContinue xs)) j = Some rj ->
    (lastScroll xi = Some v -> lastScroll xj = Some v -> scrollChanged rj = false)
    /\ (bodyHeight xi = Some v -> bodyHeight xj = Some v -> bodyChanged rj = false).
Proof.
  intros sc xs i j xi xj rj v Hij Hv Hi Hj Hr. unfold scrollUntil in Hr.
  destruct (loop_seen sc xs init j xj rj Hj Hr) as [H1 H2].
  split; intros Hxi Hxj.
  - apply (H1 v Hxj). right. split; [exact Hv|]. exists i, xi. auto.
  - apply (H2 v Hxj). right. split; [exact Hv|]. exists i, xi. auto.
Qed.

(** Three passes: the page stops moving after the second. *)
Definition stalled : list sample :=
  [ {| lastScroll := Some 100%Z; bodyHeight := Some 500%Z |};
    {| lastScroll := Some 200%Z; bodyHeight := Some 600%Z |};
    {| lastScroll := Some 200%Z; bodyHeight := Some 600%Z |} ].

Lemma seen_value_unchanged_witness :
  exists rj,
    nth_error (fst (scrollUntil (fun _ _ => true) stalled)) 2 = Some rj
    /\ scrollChanged rj = false /\ bodyChanged rj = false.
Proof.
  eexists. split; [reflexivity|].
  assert (H12 : 1 < 2) by lia.
  assert (Hv : 200%Z <> 0%Z) by lia.
  assert (Hw : 600%Z <> 0%Z) by lia.
  split.
  - apply (proj1 (seen_value_unchanged (fun _ _ => true) stalled 1 2 _ _ _ 200%Z
                                       H12 Hv eq_refl eq_refl eq_refl)); reflexivity.
  - apply (proj2 (seen_value_unchanged (fun _ _ => true) stalled 1 2 _ _ _ 600%Z
                                       H12 Hw eq_refl eq_refl eq_refl)); reflexivity.
Defined.

(** X8.  The first pass of a run never reports a change, whatever it
    reads: both sets are still empty when it checks them. *)
Theorem first_pass_unchanged :
  forall (shouldContinue : report -> vars -> bool) (x : sample) (xs : list sample),
    match fst (scrollUntil shouldContinue (x :: xs)) with
    | r :: _ => scrollChanged r = false /\ bodyChanged r = false
                /\ scrollSize r = 0 /\ heightSize r = 0
    | [] => False
    end.
Proof.
  intros sc x xs. unfold scrollUntil. simpl.
  pose proof (ScrollFacts.pass_report x init) as Hp.
  destruct (pass x init) as [r s1]. simpl in Hp.
  assert (Hr : scrollChanged r = false /\ bodyChanged r = false
               /\ scrollSize r = 0 /\ heightSize r = 0).
  { subst r. simpl. unfold isChanging.
    destruct (lastScroll x), (bodyHeight x); simpl; auto. }
  destruct (sc r s1); [|exact Hr].
  destruct (loop sc xs _) as [rs s3]. exact Hr.
Qed.

(** X9.  After any run: neither set holds [0] or a value twice; each set
    has at most one member per pass that sampled; the shared mark is at
    most the size of the larger set; and [count] is the number of passes
    after which the loop went on, that is, the number of passes that
    sampled or one less. *)
Theorem scrollUntil_invariants :
  forall (shouldContinue : report -> vars -> bool) (xs : list sample),
    let rs := fst (scrollUntil shouldContinue xs) in
    let s := snd (scrollUntil shouldContinue xs) in
    has (scrolls s) 0%Z = false /\ has (heights s) 0%Z = false
    /\ NoDup (scrolls s) /\ NoDup (heights s)
    /\ size (scrolls s) <= List.length rs /\ size (heights s) <= List.length rs
    /\ lastCount s <= Nat.max (size (scrolls s)) (size (heights s))
    /\ List.length rs <= List.length xs
    /\ (List.length rs = S (count s) \/ (List.length rs = count s /\ List.length rs = List.length xs)).
Proof.
  intros sc xs. unfold scrollUntil.
  destruct (loop_kept sc xs init 0 kept_init) as ([H1 H2 H3 H4 H5 H6 H7] & H8 & H9).
  simpl in *. repeat split; trivial.
Qed.

(** X10.  The two checks of a pass share one mark: when the pass has read
    a scroll offset, the content height is reported as changed only if
    the set of heights is larger than the set of offsets. *)
Theorem bodyChanged_needs_larger_set :
  forall (x : sample) (s : vars),
    bodyChanged (fst (pass x s)) = true ->
    lastScroll x = None \/ size (scrolls s) < size (heights s).
Proof.
  intros x s. rewrite ScrollFacts.pass_report. simpl. intros H.
  apply ScrollFacts.isChanging_true in H. destruct H as (v & _ & H & _).
  rewrite ScrollFacts.isChanging_mark in H.
  destruct (lastScroll x); [right; lia | left; reflexivity].
Qed.

Lemma bodyChanged_needs_larger_set_witness :
  let s := snd (scrollUntil (fun _ _ => true)
                 [ {| lastScroll := Some 100%Z; bodyHeight := Some 500%Z |};
                   {| lastScroll := Some 100%Z; bodyHeight := Some 600%Z |} ]) in
  let x := {| lastScroll := Some 100%Z; bodyHeight := Some 700%Z |} in
  bodyChanged (fst (pass x s)) = true
  /\ (lastScroll x = None \/ size (scrolls s) < size (heights s)).
Proof.
  intros s x. split; [reflexivity|].
  apply (bodyChanged_needs_larger_set x s). reflexivity.
Defined.

End ScrollRuns.

(** ** The two normalizations, step by step *)

Module NormalizeSteps.
Import Str StrFacts Url UrlFacts Functions FanoutFacts.
Local Open Scope string_scope.
Local Arguments Ascii.eqb : simpl never.

(** *** The parameters of a URL object are those of its query *)

Definition consistent (u : URL) : Prop :=
  searchParams u = match query u with Some q => parse_query q | None => [] end.

Lemma pair_text_nonempty pair : nonempty (pair_text pair) = true.
Proof. destruct pair as [[|c name] value]; reflexivity. Qed.

Lemma pair_text_no_amp pair :
  valid_pair pair -> none (Ascii.eqb "&") (pair_text pair) = true.
Proof.
  destruct pair as [name value]. intros [Hn Hvl]. cbn [fst snd pair_text] in *.
  change (name ++ "=" ++ value) with (name ++ String "=" value).
  rewrite none_app, none_cons.
  rewrite (all_none _ _ name param_char_amp Hn), (all_none _ _ value param_char_amp Hvl).
  reflexivity.
Qed.

Lemma parse_pair_text pair : valid_pair pair -> parse_pair (pair_text pair) = pair.
Proof.
  destruct pair as [name value]. intros [Hn _]. cbn [fst snd pair_text] in *.
  change (name ++ "=" ++ value) with (name ++ String "=" value).
  apply parse_pair_compose, (all_none _ _ name param_char_eq Hn).
Qed.

Lemma parse_query_serialize list :
  valid_params list -> list <> [] -> parse_query (serialize list) = list.
Proof.
  intros Hv Hne. unfold parse_query, serialize.
  change (fun '(name, value) => name ++ "=" ++ value) with pair_text.
  rewrite split_join.
  - clear Hne. induction Hv as [|pair l Hp Hl IH]; [reflexivity|].
    cbn [map List.filter]. rewrite pair_text_nonempty. cbn [map].
    rewrite (parse_pair_text pair Hp), IH. reflexivity.
  - destruct list; [congruence | discriminate].
  - apply Forall_map. eapply Forall_impl; [|exact Hv]. apply pair_text_no_amp.
Qed.

Lemma parse_consistent s u : parse s = Some u -> consistent u.
Proof.
  unfold parse. destruct (strip_scheme s) as [[sch rest]|]; [|discriminate].
  destruct (break (one_of "/?#") rest) as [host rest1].
  destruct (break (one_of "?#") rest1) as [path rest2].
  match goal with
  | |- context [let '(query, rest) := ?m in _] => destruct m as [q rest3]
  end.
  match goal with
  | |- context [if ?c then _ else _] => destruct c; [|discriminate]
  end.
  intros [= <-]. reflexivity.
Qed.

Lemma delete_consistent name u : wf u -> consistent (delete name u).
Proof.
  intros Hu. destruct (delete_wf name u Hu) as [Hd _].
  pose proof (wf_params _ Hd) as Hv. unfold consistent.
  cbn [delete searchParams query] in *.
  destruct (List.filter _ (searchParams u)) as [|pair list] eqn:E; [reflexivity|].
  symmetry. apply parse_query_serialize; [exact Hv | discriminate].
Qed.

(** A well-formed, consistent URL object is what its text parses to. *)
Lemma parse_text v : wf v -> consistent v -> parse (toString v) = Some v.
Proof.
  intros Hv Hc. rewrite (parse_toString v Hv). unfold consistent in Hc.
  rewrite <- Hc. destruct v; reflexivity.
Qed.

(** *** The walk over the parameters *)

(** The pairs whose name is none of [names]. *)
Definition without (names : list string) (list : params) : params :=
  List.filter (fun '(n, _) => negb (existsb (String.eqb n) names)) list.

Lemma without_nil list : without [] list = list.
Proof.
  unfold without. induction list as [|[n v] l IH]; [reflexivity|].
  cbn [List.filter existsb negb]. f_equal. exact IH.
Qed.

Lemma delete_without name names list :
  List.filter (fun '(n, _) => negb (String.eqb n name)) (without names list)
  = without (name :: names) list.
Proof.
  unfold without. induction list as [|[n v] l IH]; [reflexivity|].
  cbn [List.filter existsb].
  destruct (existsb (String.eqb n) names) eqn:E1, (String.eqb n name) eqn:E2;
    cbn [negb orb List.filter]; rewrite ?E2; cbn [negb]; rewrite IH; reflexivity.
Qed.

Lemma without_length names list : List.length (without names list) <= List.length list.
Proof. apply filter_length_le. Qed.

Lemma without_In names list pair :
  In pair (without names list)
  <-> In pair list /\ existsb (String.eqb (fst pair)) names = false.
Proof.
  unfold without. rewrite filter_In. destruct pair as [n v]. cbn [fst].
  rewrite negb_true_iff. reflexivity.
Qed.

(** What the walk keeps true, for a callback that at each pair either
    leaves the URL alone or deletes the pairs of that name, the latter
    only for names that [deletes] selects. *)
Section Walk.
Variable callback : string -> string -> URL -> URL.
Variable deletes : string -> Prop.
Hypothesis callback_cases :
  forall value key w,
    callback value key w = w \/ (callback value key w = delete key w /\ deletes key).

Lemma walk_from (start : params) : forall fuel i w names0,
  wf w -> consistent w -> searchParams w = without names0 start ->
  exists names,
    let w' := forEach_from fuel callback i w in
    wf w' /\ consistent w' /\ same_location w w'
    /\ searchParams w' = without (names ++ names0) start
    /\ Forall deletes names
    /\ (names = [] -> w' = w).
Proof.
  induction fuel as [|fuel IH]; intros i w names0 Hw Hc Hs; cbn [forEach_from].
  - exists []. cbn zeta. split; [exact Hw|]. split; [exact Hc|]. split; [repeat split|].
    split; [exact Hs|]. split; [constructor | reflexivity].
  - destruct (nth_error (searchParams w) i) as [[key value]|].
    + destruct (callback_cases value key w) as [->|[-> Hd]].
      * apply IH; assumption.
      * destruct (delete_wf key w Hw) as [Hw1 (L1 & L2 & L3 & L4)].
        assert (Hs1 : searchParams (delete key w) = without (key :: names0) start).
        { cbn [delete searchParams]. rewrite Hs. apply delete_without. }
        destruct (IH (S i) (delete key w) (key :: names0) Hw1
                     (delete_consistent key w Hw) Hs1)
          as (names & Hw2 & Hc2 & (M1 & M2 & M3 & M4) & Hs2 & Hn & _).
        exists (names ++ [key])%list. cbn zeta.
        split; [exact Hw2|]. split; [exact Hc2|].
        split; [unfold same_location; repeat split; congruence|].
        split; [rewrite <- app_assoc; exact Hs2|].
        split; [apply Forall_app; auto|].
        intros E. destruct names; discriminate.
    + exists []. cbn zeta. split; [exact Hw|]. split; [exact Hc|]. split; [repeat split|].
      split; [exact Hs|]. split; [constructor | reflexivity].
Qed.

(** After a deletion an empty list of parameters means no query at all,
    and the walk keeps that. *)
Definition tidy (w : URL) : Prop := searchParams w = [] -> query w = None.

Lemma delete_tidy name w : tidy (delete name w).
Proof.
  unfold tidy. cbn [delete searchParams query]. intros ->. reflexivity.
Qed.

Lemma walk_tidy : forall fuel i w, tidy w -> tidy (forEach_from fuel callback i w).
Proof.
  induction fuel as [|fuel IH]; intros i w Hw; cbn [forEach_from]; trivial.
  destruct (nth_error (searchParams w) i) as [[key value]|]; trivial.
  destruct (callback_cases value key w) as [->|[-> _]]; apply IH; trivial.
  apply delete_tidy.
Qed.
End Walk.

(** A callback that always deletes leaves at most half of the pairs. *)
Lemma walk_delete_half : forall fuel i w,
  List.length (searchParams w) - i <= fuel ->
  2 * List.length (searchParams (forEach_from fuel (fun _ key u => delete key u) i w))
  <= List.length (searchParams w) + i.
Proof.
  induction fuel as [|fuel IH]; intros i w Hf; cbn [forEach_from].
  - lia.
  - destruct (nth_error (searchParams w) i) as [[key value]|] eqn:E.
    + assert (Hi : i < List.length (searchParams w))
        by (apply nth_error_Some; congruence).
      assert (Hl : List.length (searchParams (delete key w)) < List.length (searchParams w)).
      { cbn [delete searchParams].
        apply nth_error_In in E. 
        assert (Hin : In (key, value) (searchParams w)) by exact E.
        clear -Hin. induction (searchParams w) as [|[n v] l IHl]; [destruct Hin|].
        cbn [List.filter]. destruct Hin as [[= -> ->]|Hin].
        - rewrite String.eqb_refl. cbn [negb].
          pose proof (filter_length_le (fun '(n, _) => negb (String.eqb n key)) l).
          cbn [List.length]. lia.
        - specialize (IHl Hin). destruct (negb (String.eqb n key)); cbn [List.length]; lia. }
      specialize (IH (S i) (delete key w)). lia.
    + apply nth_error_None in E. lia.
Qed.

(** *** [normalizeToMobilePageUrl] *)

(** The path [normalizeToMobilePageUrl] leaves. *)
Definition mobile_path (p : string) : string :=
  if startsWith "/pg" p then p
  else "/pg/" ++ join "/" (List.filter nonempty (split "/" p)).

Lemma mobile_walk_cases filterParams :
  forall (value key : string) (w : URL),
    (if listed filterParams key then w
     else if falsy_filter filterParams then w else delete key w) = w
    \/ ((if listed filterParams key then w
         else if falsy_filter filterParams then w else delete key w) = delete key w
        /\ (listed filterParams key = false /\ falsy_filter filterParams = false)).
Proof.
  intros value key w.
  destruct (listed filterParams key); [left; reflexivity|].
  destruct (falsy_filter filterParams); [left; reflexivity|].
  right. auto.
Qed.

Lemma mobile_steps url u filterParams :
  parse url = Some u ->
  exists v names,
    normalizeToMobilePageUrl url filterParams = Some (toString v)
    /\ wf v /\ consistent v
    /\ protocol v = protocol u /\ hostname v = MOBILE_HOST
    /\ fragment v = fragment u
    /\ pathname v = mobile_path (pathname u)
    /\ searchParams v = without names (searchParams u)
    /\ Forall (fun key => listed filterParams key = false
                          /\ falsy_filter filterParams = false) names
    /\ (names = [] -> query v = query u)
    /\ (searchParams u = [] -> query v = query u).
Proof.
  intros Hparse. pose proof (parse_wf url u Hparse) as Hu.
  pose proof (parse_consistent url u Hparse) as Hc.
  unfold normalizeToMobilePageUrl. rewrite Hparse. cbn [bindo].
  assert (H1 : exists u1,
             (if negb (startsWith "/pg" (pathname u))
              then set_pathname
                     ("/pg/" ++ join "/" (List.filter nonempty (split "/" (pathname u)))) u
              else Some u) = Some u1
             /\ wf u1 /\ protocol u1 = protocol u /\ query u1 = query u
             /\ fragment u1 = fragment u /\ searchParams u1 = searchParams u
             /\ pathname u1 = mobile_path (pathname u)).
  { unfold mobile_path. destruct (startsWith "/pg" (pathname u)); cbn [negb].
    - exists u. split; [reflexivity|]. split; [exact Hu|]. repeat split.
    - change ("/pg/" ++ join "/" (List.filter nonempty (split "/" (pathname u))))
        with (String "/" ("pg/" ++ join "/" (List.filter nonempty (split "/" (pathname u))))).
      destruct (set_pathname_wf _ u (mobile_path_valid _ (wf_path u Hu)) Hu)
        as (v & -> & Hv & Hpa & Hpr & _ & Hq & Hf & Hs).
      exists v. split; [reflexivity|]. split; [exact Hv|]. repeat split; trivial. }
  destruct H1 as (u1 & -> & Hu1 & Hp1 & Hq1 & Hf1 & Hs1 & Hpa1). cbn [bindo].
  set (u2 := if negb (String.eqb (hostname u1) MOBILE_HOST)
             then set_hostname MOBILE_HOST u1 else u1).
  assert (H2 : wf u2 /\ hostname u2 = MOBILE_HOST /\ protocol u2 = protocol u1
               /\ pathname u2 = pathname u1 /\ query u2 = query u1
               /\ fragment u2 = fragment u1 /\ searchParams u2 = searchParams u1).
  { unfold u2. destruct (String.eqb_spec (hostname u1) MOBILE_HOST) as [E|_]; cbn [negb].
    - split; [exact Hu1|]. repeat split. exact E.
    - destruct (set_hostname_wf MOBILE_HOST u1 mobile_host_valid Hu1)
        as (Hw & ? & ? & ? & ? & ? & ?). split; [exact Hw|]. repeat split; trivial. }
  destruct H2 as (Hu2 & Hh2 & Hp2 & Hpa2 & Hq2 & Hf2 & Hs2).
  assert (Hc2 : consistent u2)
    by (unfold consistent; rewrite Hs2, Hq2, Hs1, Hq1; exact Hc).
  assert (Hw2 : searchParams u2 = without [] (searchParams u))
    by (rewrite without_nil; congruence).
  unfold forEach.
  destruct (walk_from _ _ (mobile_walk_cases filterParams) (searchParams u)
                      (List.length (searchParams u2)) 0 u2 [] Hu2 Hc2 Hw2)
    as (names & Hw & Hcw & (L1 & L2 & L3 & L4) & Hsw & Hn & Hid).
  cbn zeta in Hw, Hcw, L1, L2, L3, L4, Hsw, Hid.
  eexists. exists names. split; [reflexivity|].
  split; [exact Hw|]. split; [exact Hcw|].
  split; [congruence|]. split; [congruence|]. split; [congruence|].
  split; [congruence|]. split; [rewrite app_nil_r in Hsw; exact Hsw|].
  split; [exact Hn|]. split.
  - intros E. rewrite (Hid E). congruence.
  - intros E. assert (E2 : searchParams u2 = []) by congruence.
    rewrite E2. cbn [List.length forEach_from]. congruence.
Qed.

(** X11.  For every URL the parser accepts and every filter,
    [normalizeToMobilePageUrl] returns the text of a URL on the mobile
    host with the protocol and the fragment of the input, whose path is
    the input's path when that begins with [/pg] and otherwise [/pg/]
    followed by its non-empty segments, so that it always begins with
    [/pg].  Parameters go by name: those left are the input's without the
    names deleted, no name on the allow list is ever deleted, and with a
    falsy filter, the default, the query is left as it is. *)
Theorem normalizeToMobilePageUrl_result :
  forall (url : string) (u : URL) (filterParams : filter),
    parse url = Some u ->
    exists v names,
      normalizeToMobilePageUrl url filterParams = Some (toString v)
      /\ parse (toString v) = Some v
      /\ protocol v = protocol u /\ hostname v = MOBILE_HOST
      /\ fragment v = fragment u
      /\ pathname v = mobile_path (pathname u)
      /\ startsWith "/pg" (pathname v) = true
      /\ searchParams v = without names (searchParams u)
      /\ (forall pair, In pair (searchParams u) ->
                       listed filterParams (fst pair) = true ->
                       In pair (searchParams v))
      /\ (falsy_filter filterParams = true ->
          query v = query u /\ searchParams v = searchParams u).
Proof.
  intros url u filterParams Hparse.
  destruct (mobile_steps url u filterParams Hparse)
    as (v & names & Hn & Hv & Hc & Hpr & Hh & Hf & Hpa & Hs & Hnames & Hid & _).
  exists v, names. split; [exact Hn|]. split; [apply parse_text; assumption|].
  split; [exact Hpr|]. split; [exact Hh|]. split; [exact Hf|]. split; [exact Hpa|].
  split.
  { rewrite Hpa. unfold mobile_path.
    destruct (startsWith "/pg" (pathname u)) eqn:E; [exact E | reflexivity]. }
  split; [exact Hs|]. split.
  - intros pair Hin Hl. rewrite Hs. apply without_In. split; [exact Hin|].
    destruct (existsb (String.eqb (fst pair)) names) eqn:E; [|reflexivity].
    apply existsb_exists in E. destruct E as (key & Hk & E).
    apply String.eqb_eq in E. subst key.
    rewrite Forall_forall in Hnames. destruct (Hnames _ Hk) as [Hl' _]. congruence.
  - intros Hfalsy.
    assert (E : names = []).
    { destruct names as [|key names']; [reflexivity|].
      inversion Hnames as [|? ? [_ Hk] _]; subst. congruence. }
    split; [apply Hid, E|]. rewrite Hs, E. apply without_nil.
Qed.

Lemma normalizeToMobilePageUrl_result_witness :
  exists v,
    normalizeToMobilePageUrl "http://www.facebook.com/somepage/posts/?ref=a&id=7#top"
                             (AllowList ["id"])
    = Some (toString v)
    /\ toString v = "http://m.facebook.com/pg/somepage/posts?id=7#top".
Proof.
  destruct (normalizeToMobilePageUrl_result
              "http://www.facebook.com/somepage/posts/?ref=a&id=7#top" _
              (AllowList ["id"]) eq_refl)
    as (v & names & Hn & _).
  exists v. split; [exact Hn|].
  vm_compute in Hn. injection Hn as Hn. symmetry. exact Hn.
Defined.

Lemma forEach_from_id callback :
  (forall value key w, callback value key w = w) ->
  forall fuel i u, forEach_from fuel callback i u = u.
Proof.
  intros Hcb. induction fuel as [|fuel IH]; intros i u; cbn [forEach_from]; trivial.
  destruct (nth_error (searchParams u) i) as [[key value]|]; [|reflexivity].
  rewrite Hcb. apply IH.
Qed.

(** X12.  With the default filter, the one that deletes nothing,
    [normalizeToMobilePageUrl] is idempotent: what it returns is
    returned unchanged when normalized again. *)
Theorem normalizeToMobilePageUrl_default_twice :
  forall (url out : string),
    normalizeToMobilePageUrl url (Flag false) = Some out ->
    normalizeToMobilePageUrl out (Flag false) = Some out.
Proof.
  intros url out H.
  destruct (parse url) as [u|] eqn:Hparse;
    [|unfold normalizeToMobilePageUrl in H; rewrite Hparse in H; discriminate].
  destruct (mobile_steps url u (Flag false) Hparse)
    as (v & names & Hn & Hv & Hc & _ & Hh & _ & Hpa & _).
  rewrite Hn in H. injection H as <-.
  assert (Hpg : startsWith "/pg" (pathname v) = true).
  { rewrite Hpa. unfold mobile_path.
    destruct (startsWith "/pg" (pathname u)) eqn:E; [exact E | reflexivity]. }
  unfold normalizeToMobilePageUrl. rewrite (parse_text v Hv Hc). cbn [bindo].
  rewrite Hpg. cbn [negb bindo]. rewrite Hh, String.eqb_refl. cbn [negb].
  unfold forEach. rewrite forEach_from_id; reflexivity.
Qed.

Lemma normalizeToMobilePageUrl_default_twice_witness :
  normalizeToMobilePageUrl "https://www.facebook.com/somepage/?ref=a&id=7" (Flag false)
  = Some "https://m.facebook.com/pg/somepage?ref=a&id=7"
  /\ normalizeToMobilePageUrl "https://m.facebook.com/pg/somepage?ref=a&id=7" (Flag false)
     = Some "https://m.facebook.com/pg/somepage?ref=a&id=7".
Proof.
  split; [reflexivity|].
  apply (normalizeToMobilePageUrl_default_twice
           "https://www.facebook.com/somepage/?ref=a&id=7"). reflexivity.
Defined.

(** *** [normalizeOutputPageUrl] *)

Lemma startsWith_drop p s :
  startsWith p s = true -> s = p ++ drop (String.length p) s.
Proof.
  revert s. induction p as [|a p IH]; intros s H; [reflexivity|].
  destruct s as [|b s]; [discriminate|]. cbn [startsWith] in H.
  apply andb_true_iff in H. destruct H as [Hab H].
  apply Ascii.eqb_eq in Hab. subst b.
  cbn [String.length drop append]. f_equal. apply IH, H.
Qed.

Lemma replace_eq pattern replacement s :
  replace pattern replacement s
  = if startsWith pattern s then replacement ++ drop (String.length pattern) s
    else match s with
         | "" => ""
         | String c s' => String c (replace pattern replacement s')
         end.
Proof. destruct s; reflexivity. Qed.

(** [replace] rewrites one occurrence, or there is none to rewrite. *)
Lemma replace_cases pattern replacement s :
  (exists a b, s = a ++ pattern ++ b
               /\ replace pattern replacement s = a ++ replacement ++ b)
  \/ (includes pattern s = false /\ replace pattern replacement s = s).
Proof.
  induction s as [|c s IH]; rewrite replace_eq; cbn [includes].
  - destruct (startsWith pattern "") eqn:E.
    + left. exists "", (drop (String.length pattern) ""). split; [|reflexivity].
      apply (startsWith_drop pattern "" E).
    + right. auto.
  - destruct (startsWith pattern (String c s)) eqn:E.
    + left. exists "", (drop (String.length pattern) (String c s)). split; [|reflexivity].
      apply (startsWith_drop pattern _ E).
    + destruct IH as [(a & b & Hs & Hr)|[Hn Hr]].
      * left. exists (String c a), b. rewrite Hr, Hs. auto.
      * right. rewrite Hr, Hn. auto.
Qed.

Lemma split_app c a b :
  exists ta la fb tb,
    split c a = (ta ++ [la])%list /\ split c b = fb :: tb
    /\ split c (a ++ b) = (ta ++ [(la ++ fb)%string] ++ tb)%list.
Proof.
  induction a as [|x a (ta & la & fb & tb & Ha & Hb & Hab)].
  - destruct (split c b) as [|fb tb] eqn:E; [now apply split_not_nil in E|].
    exists [], "", fb, tb. cbn [append]. rewrite E. auto.
  - cbn [append split]. rewrite Ha, Hab. destruct (Ascii.eqb x c).
    + exists ("" :: ta), la, fb, tb. auto.
    + destruct ta as [|t ta'].
      * exists [], (String x la), fb, tb. auto.
      * exists (String x t :: ta'), la, fb, tb. auto.
Qed.

Lemma dot_segment_app x y :
  dot_segment (x ++ y) = true -> dot_segment x = true \/ dot_segment y = true.
Proof.
  unfold dot_segment. intros H. apply orb_true_iff in H.
  destruct H as [H|H]; apply String.eqb_eq in H.
  - destruct x as [|c [|d x]]; cbn [append] in H.
    + right. rewrite H. reflexivity.
    + injection H as -> ->. left. reflexivity.
    + discriminate.
  - destruct x as [|c [|d [|e x]]]; cbn [append] in H.
    + right. rewrite H. reflexivity.
    + injection H as -> ->. left. reflexivity.
    + injection H as -> -> ->. left. reflexivity.
    + discriminate.
Qed.

(** Taking [/pg/] out of a path the parser accepts leaves such a path. *)
Lemma valid_path_cut a b :
  valid_path (a ++ "/pg/" ++ b) = true -> valid_path (a ++ b) = true.
Proof.
  intros H. pose proof (valid_path_chars _ H) as Hc.
  pose proof (valid_path_segments _ H) as Hd.
  rewrite !all_app in Hc.
  apply andb_true_iff in Hc. destruct Hc as [Hca Hc].
  apply andb_true_iff in Hc. destruct Hc as [_ Hcb].
  change (a ++ "/pg/" ++ b) with (a ++ String "/" ("pg" ++ String "/" b)) in Hd.
  rewrite !split_app_sep in Hd. unfold no_dots in Hd. rewrite !forallb_app in Hd.
  apply andb_true_iff in Hd. destruct Hd as [Hda Hd].
  apply andb_true_iff in Hd. destruct Hd as [_ Hdb].
  apply valid_path_intro; [rewrite all_app, Hca, Hcb; reflexivity|].
  destruct (split_app "/" a b) as (ta & la & fb & tb & Ha & Hb & ->).
  rewrite Ha in Hda. rewrite Hb in Hdb. unfold no_dots.
  rewrite forallb_app in Hda. cbn [forallb] in Hda, Hdb.
  rewrite andb_true_r in Hda.
  apply andb_true_iff in Hda, Hdb. destruct Hda as [Hta Hla], Hdb as [Hfb Htb].
  rewrite !forallb_app. cbn [forallb]. rewrite Hta, Htb, andb_true_r. cbn [andb].
  destruct (dot_segment (la ++ fb)) eqn:E; [|reflexivity].
  apply negb_true_iff in Hla, Hfb.
  destruct (dot_segment_app la fb E); congruence.
Qed.

Lemma replace_valid p :
  valid_path p = true -> valid_path (replace "/pg/" "" p) = true.
Proof.
  intros H. destruct (replace_cases "/pg/" "" p) as [(a & b & -> & ->)|[_ ->]].
  - apply valid_path_cut, H.
  - exact H.
Qed.

(** The path the setter stores: with its leading slash. *)
Definition rooted (v : string) : string :=
  if startsWith "/" v then v else "/" ++ v.

Lemma rooted_slash v : exists rest, rooted v = String "/" rest.
Proof.
  unfold rooted. destruct (startsWith "/" v) eqn:E.
  - apply startsWith_drop in E. eexists. exact E.
  - eexists. reflexivity.
Qed.

Lemma rooted_valid v : valid_path v = true -> valid_path (rooted v) = true.
Proof.
  intros H. unfold rooted. destruct (startsWith "/" v); [exact H|].
  apply valid_path_intro.
  - change ("/" ++ v) with (String "/" v). cbn [all].
    rewrite (valid_path_chars v H). reflexivity.
  - change ("/" ++ v) with ("" ++ String "/" v). rewrite split_app_sep.
    unfold no_dots. rewrite forallb_app. fold (no_dots (split "/" v)).
    rewrite (valid_path_segments v H). reflexivity.
Qed.

Lemma set_pathname_any r u :
  valid_path r = true -> wf u ->
  exists v,
    set_pathname r u = Some v
    /\ wf v
    /\ pathname v = rooted r
    /\ protocol v = protocol u /\ hostname v = hostname u
    /\ query v = query u /\ fragment v = fragment u
    /\ searchParams v = searchParams u.
Proof.
  intros Hr [Hh _ _ Hq Hf Hv]. unfold set_pathname. rewrite Hr.
  eexists. split; [reflexivity|]. fold (rooted r).
  split; [|repeat split].
  constructor; cbn [hostname pathname query fragment searchParams]; trivial.
  - apply rooted_valid, Hr.
  - apply rooted_slash.
Qed.

Lemma desktop_host_valid : valid_host DESKTOP_HOST = true.
Proof. vm_compute. reflexivity. Qed.

Lemma delete_cases :
  forall (value key : string) (w : URL),
    delete key w = w \/ (delete key w = delete key w /\ True).
Proof. intros value key w. right. auto. Qed.

(** The path [normalizeOutputPageUrl] leaves. *)
Definition output_path (p : string) : string := rooted (replace "/pg/" "" p).

Lemma output_steps url u :
  parse url = Some u ->
  exists v names,
    normalizeOutputPageUrl url = Some (toString v)
    /\ wf v /\ consistent v
    /\ protocol v = https /\ hostname v = DESKTOP_HOST
    /\ fragment v = fragment u
    /\ pathname v = output_path (pathname u)
    /\ searchParams v = without names (searchParams u)
    /\ 2 * List.length (searchParams v) <= List.length (searchParams u)
    /\ (forall name value rest, searchParams u = (name, value) :: rest -> In name names)
    /\ (searchParams u = [] -> query v = query u)
    /\ (searchParams u <> [] -> searchParams v = [] -> query v = None).
Proof.
  intros Hparse. pose proof (parse_wf url u Hparse) as Hu.
  pose proof (parse_consistent url u Hparse) as Hc.
  unfold normalizeOutputPageUrl. rewrite Hparse. cbn [bindo].
  set (u1 := set_protocol https u).
  assert (Hu1 : wf u1) by (destruct Hu; constructor; assumption).
  destruct (set_hostname_wf DESKTOP_HOST u1 desktop_host_valid Hu1)
    as (Hu2 & Hh2 & Hp2 & Hpa2 & Hq2 & Hf2 & Hs2).
  set (u2 := set_hostname DESKTOP_HOST u1) in *.
  assert (Hc2 : consistent u2) by (unfold consistent; rewrite Hs2, Hq2; exact Hc).
  assert (Hlen : List.length (searchParams u2) = List.length (searchParams u))
    by (rewrite Hs2; reflexivity).
  assert (H3 : exists u3 names,
             forEach (fun _ key w => delete key w) u2 = u3
             /\ wf u3 /\ consistent u3 /\ same_location u2 u3
             /\ searchParams u3 = without names (searchParams u)
             /\ (forall name value rest,
                    searchParams u = (name, value) :: rest -> In name names)
             /\ (searchParams u = [] -> u3 = u2)
             /\ (searchParams u <> [] -> tidy u3)).
  { unfold forEach. destruct (searchParams u) as [|[name value] rest] eqn:E.
    - exists u2, []. rewrite Hs2. cbn [searchParams set_protocol u1 List.length forEach_from].
      rewrite E. cbn [List.length forEach_from].
      split; [reflexivity|]. split; [exact Hu2|]. split; [exact Hc2|].
      split; [repeat split|]. split; [reflexivity|]. split; [discriminate|].
      split; [reflexivity | congruence].
    - assert (E2 : searchParams u2 = (name, value) :: rest) by (rewrite Hs2; exact E).
      rewrite E2. cbn [List.length forEach_from]. rewrite E2. cbn [nth_error].
      destruct (delete_wf name u2 Hu2) as [Hd (L1 & L2 & L3 & L4)].
      assert (Hsd : searchParams (delete name u2) = without [name] ((name, value) :: rest)).
      { cbn [delete searchParams]. rewrite E2.
        rewrite <- (without_nil ((name, value) :: rest)) at 1. apply delete_without. }
      destruct (walk_from _ _ delete_cases ((name, value) :: rest) (List.length rest) 1
                          (delete name u2) [name] Hd (delete_consistent name u2 Hu2) Hsd)
        as (names & Hw & Hcw & (M1 & M2 & M3 & M4) & Hsw & _ & _).
      cbn zeta in Hw, Hcw, M1, M2, M3, M4, Hsw.
      eexists. exists (names ++ [name])%list. split; [reflexivity|].
      split; [exact Hw|]. split; [exact Hcw|].
      split; [unfold same_location; repeat split; congruence|].
      split; [exact Hsw|]. split; [|split; [discriminate|]].
      + intros name' value' rest' [= -> _ _]. apply in_or_app. right. left. reflexivity.
      + intros _. apply (walk_tidy _ _ delete_cases), delete_tidy. }
  destruct H3 as (u3 & names & Hwalk & Hu3 & Hc3 & (L1 & L2 & L3 & L4) & Hs3 & Hfirst & Hnil
                  & Htidy).
  pose proof (walk_delete_half (List.length (searchParams u2)) 0 u2) as Hhalf.
  fold (forEach (fun _ key w => delete key w) u2) in Hhalf. rewrite Hwalk in *.
  assert (Hpath : pathname u3 = pathname u) by (rewrite L3, Hpa2; reflexivity).
  destruct (set_pathname_any (replace "/pg/" "" (pathname u3)) u3)
    as (v & -> & Hv & Vpa & Vpr & Vh & Vq & Vf & Vs); [|exact Hu3|].
  { apply replace_valid, (wf_path _ Hu3). }
  cbn [bindo]. exists v, names. split; [reflexivity|]. split; [exact Hv|].
  split; [unfold consistent in *; rewrite Vs, Vq; exact Hc3|].
  split; [rewrite Vpr, L1, Hp2; reflexivity|].
  split; [rewrite Vh, L2, Hh2; reflexivity|].
  split; [rewrite Vf, L4, Hf2; reflexivity|].
  split; [rewrite Vpa, Hpath; reflexivity|].
  split; [rewrite Vs; exact Hs3|].
  split; [rewrite Vs; lia|].
  split; [exact Hfirst|]. split.
  - intros E. rewrite Vq, (Hnil E). exact Hq2.
  - intros Hne E. rewrite Vq. apply (Htidy Hne). rewrite <- Vs. exact E.
Qed.

(** X13.  For every URL the parser accepts, [normalizeOutputPageUrl]
    returns the text of an [https] URL on the desktop host with the
    fragment of the input, whose path is the input's with its first
    [/pg/] taken out: the input's path itself when it has no [/pg/], and
    the rest after a leading [/pg/].  Of the parameters at most half are
    left, never one with the name of the first; so a URL with one
    parameter comes out with no query at all, as
    [https://www.facebook.com<path>[#fragment]]; and a query without
    parameters is left as it is. *)
Theorem normalizeOutputPageUrl_result :
  forall (url : string) (u : URL),
    parse url = Some u ->
    exists v names,
      normalizeOutputPageUrl url = Some (toString v)
      /\ parse (toString v) = Some v
      /\ protocol v = https /\ hostname v = DESKTOP_HOST
      /\ fragment v = fragment u
      /\ pathname v = output_path (pathname u)
      /\ (includes "/pg/" (pathname u) = false -> pathname v = pathname u)
      /\ (forall rest, pathname u = "/pg/" ++ rest -> pathname v = rooted rest)
      /\ searchParams v = without names (searchParams u)
      /\ 2 * List.length (searchParams v) <= List.length (searchParams u)
      /\ (forall name value rest,
             searchParams u = (name, value) :: rest ->
             forall value', ~ In (name, value') (searchParams v))
      /\ (forall pair,
             searchParams u = [pair] ->
             toString v
             = "https://www.facebook.com" ++ pathname v ++ opt_text "#" (fragment u))
      /\ (searchParams u = [] -> query v = query u).
Proof.
  intros url u Hparse.
  destruct (output_steps url u Hparse)
    as (v & names & Hn & Hv & Hc & Hpr & Hh & Hf & Hpa & Hs & Hhalf & Hfirst & Hnil & Htidy).
  pose proof (parse_wf url u Hparse) as Hu.
  exists v, names. split; [exact Hn|]. split; [apply parse_text; assumption|].
  split; [exact Hpr|]. split; [exact Hh|]. split; [exact Hf|]. split; [exact Hpa|].
  split.
  { intros Hno. rewrite Hpa. unfold output_path, rooted.
    destruct (replace_cases "/pg/" "" (pathname u)) as [(a & b & E & _)|[_ ->]].
    - exfalso. clear -E Hno. revert Hno. rewrite E. clear E.
      induction a as [|c a IH]; cbn [append includes].
      + change (startsWith "/pg/" ("/pg/" ++ b)) with true. discriminate.
      + intros H. apply orb_false_iff in H. apply IH. tauto.
    - destruct (wf_slash _ Hu) as [rest ->]. reflexivity. }
  split.
  { intros rest E. rewrite Hpa, E. reflexivity. }
  split; [exact Hs|]. split; [exact Hhalf|]. split.
  { intros name value rest E value' Hin. rewrite Hs in Hin.
    apply without_In in Hin. destruct Hin as [_ Hin]. cbn [fst] in Hin.
    assert (Ht : existsb (String.eqb name) names = true).
    { apply existsb_exists. exists name. split; [exact (Hfirst _ _ _ E)|].
      apply String.eqb_refl. }
    congruence. }
  split; [|exact Hnil].
  intros pair E.
  assert (Hl : searchParams v = []).
  { rewrite E in Hhalf. cbn [List.length] in Hhalf.
    destruct (searchParams v); [reflexivity | cbn [List.length] in Hhalf; lia]. }
  assert (Hq : query v = None) by (apply Htidy; [rewrite E; discriminate | exact Hl]).
  rewrite toString_eq, Hpr, Hh, Hq, Hf. reflexivity.
Qed.

Lemma normalizeOutputPageUrl_result_witness :
  exists v,
    normalizeOutputPageUrl "http://m.facebook.com/pg/somepage/posts?ref=a#top"
    = Some (toString v)
    /\ toString v = "https://www.facebook.com/somepage/posts#top".
Proof.
  destruct (normalizeOutputPageUrl_result
              "http://m.facebook.com/pg/somepage/posts?ref=a#top" _ eq_refl)
    as (v & names & Hn & _).
  exists v. split; [exact Hn|].
  vm_compute in Hn. injection Hn as Hn. symmetry. exact Hn.
Defined.

End NormalizeSteps.

(** ** Page names *)

Module UsernameFacts.
Import JS Str StrFacts Url UrlFacts Functions FanoutFacts NormalizeSteps Username.
Local Open Scope string_scope.
Local Arguments Ascii.eqb : simpl never.

Lemma name_at_inv s name :
  name_at s = Some name ->
  nonempty name = true /\ none (Ascii.eqb "/") name = true
  /\ exists after, s = String "/" (name ++ after) /\ stops (Ascii.eqb "/") after.
Proof.
  unfold name_at. destruct s as [|c rest]; [discriminate|].
  destruct (Ascii.eqb_spec c "/") as [->|Hc].
  - destruct (break_spec (Ascii.eqb "/") rest) as (E & N & S).
    destruct (break (Ascii.eqb "/") rest) as [a b]. cbn [fst snd] in *.
    destruct (nonempty a) eqn:Ha; [|discriminate]. intros [= <-].
    split; [exact Ha|]. split; [exact N|]. exists b. split; [congruence | exact S].
  - destruct c as [[] [] [] [] [] [] [] []]; try discriminate. congruence.
Qed.

Lemma name_at_intro name after :
  nonempty name = true -> none (Ascii.eqb "/") name = true ->
  stops (Ascii.eqb "/") after ->
  name_at (String "/" (name ++ after)) = Some name.
Proof.
  intros Hn Hs Ha. unfold name_at.
  rewrite (break_app (Ascii.eqb "/") name after Hs Ha). cbn [fst]. now rewrite Hn.
Qed.

Lemma match_here_inv s name :
  match_here s = Some name ->
  nonempty name = true /\ none (Ascii.eqb "/") name = true
  /\ exists before after,
      s = before ++ String "/" (name ++ after) /\ stops (Ascii.eqb "/") after.
Proof.
  unfold match_here.
  destruct (startsWith "facebook" s) eqn:E1; [|discriminate].
  apply startsWith_drop in E1. cbn [String.length] in E1.
  destruct (drop 8 s) as [|c rest]; [discriminate|].
  destruct (dot c && startsWith "com" rest) eqn:E2; [|discriminate].
  apply andb_true_iff in E2. destruct E2 as [_ E2].
  apply startsWith_drop in E2. cbn [String.length] in E2.
  remember (drop 3 rest) as r eqn:Er. clear Er.
  assert (Hr : forall pre, name_at (drop (String.length pre) r) = Some name ->
                           r = pre ++ drop (String.length pre) r ->
                           nonempty name = true /\ none (Ascii.eqb "/") name = true
                           /\ exists before after,
                               s = before ++ String "/" (name ++ after)
                               /\ stops (Ascii.eqb "/") after).
  { intros pre H Hpre. apply name_at_inv in H. destruct H as (H1 & H2 & after & H3 & H4).
    split; [exact H1|]. split; [exact H2|].
    exists ("facebook" ++ String c ("com" ++ pre)), after. split; [|exact H4].
    rewrite E1, E2, Hpre, H3. cbn [append]. reflexivity. }
  destruct (startsWith "/pg" r) eqn:E3.
  - apply startsWith_drop in E3.
    destruct (name_at (drop 3 r)) as [name'|] eqn:E4.
    + intros [= <-]. apply (Hr "/pg"); assumption.
    + intros H. apply (Hr ""); [exact H | reflexivity].
  - intros H. apply (Hr ""); [exact H | reflexivity].
Qed.

Lemma search_inv s name :
  search s = Some name ->
  nonempty name = true /\ none (Ascii.eqb "/") name = true
  /\ exists before after,
      s = before ++ String "/" (name ++ after) /\ stops (Ascii.eqb "/") after.
Proof.
  induction s as [|c s IH].
  - cbn [search]. destruct (match_here "") eqn:E; [|discriminate].
    intros [= <-]. apply match_here_inv, E.
  - cbn [search]. destruct (match_here (String c s)) eqn:E.
    + intros [= <-]. apply match_here_inv, E.
    + intros H. destruct (IH H) as (H1 & H2 & before & after & H3 & H4).
      split; [exact H1|]. split; [exact H2|].
      exists (String c before), after. rewrite H3. auto.
Qed.

(** X14.  [extractUsernameFromUrl] either returns a name, which is then
    not empty, has no slash and stands in the URL after a slash and up
    to the next slash or the end, or it throws an [InfoError] carrying
    the URL: on the empty string, and when the pattern matches nowhere.
    It throws nothing else. *)
Theorem extractUsernameFromUrl_outcomes :
  forall url : string,
    match extractUsernameFromUrl url with
    | Ok name =>
      name <> "" /\ none (Ascii.eqb "/") name = true
      /\ exists before after,
          url = before ++ String "/" (name ++ after) /\ stops (Ascii.eqb "/") after
    | Throw (InfoError message url' namespace) =>
      url' = url /\ namespace = "extractUsernameFromUrl"
      /\ (url = "" \/ search url = None)
    | Throw TypeError => False
    end.
Proof.
  intros url. unfold extractUsernameFromUrl.
  destruct url as [|c url']; cbn [truthy_string negb]; [auto|].
  destruct (search (String c url')) as [name|] eqn:E; [|auto].
  destruct (search_inv _ _ E) as (H1 & H2 & H3).
  destruct name as [|d name]; [discriminate|]. cbn [truthy_string negb].
  split; [discriminate|]. split; [exact H2 | exact H3].
Qed.

(** The search passes over a prefix without [f]. *)
Lemma match_here_other c s : Ascii.eqb "f" c = false -> match_here (String c s) = None.
Proof.
  intros H. unfold match_here. cbn [startsWith]. rewrite H. reflexivity.
Qed.

Lemma search_skip prefix s :
  none (Ascii.eqb "f") prefix = true -> search (prefix ++ s) = search s.
Proof.
  induction prefix as [|c prefix IH]; [reflexivity|].
  rewrite none_cons. intros H. apply andb_true_iff in H. destruct H as [Hc H].
  apply negb_true_iff in Hc. cbn [append search].
  rewrite (match_here_other c _ Hc). apply IH, H.
Qed.

(** The name of a page URL on the mobile host. *)
Lemma search_mobile sch name after :
  nonempty name = true -> none (Ascii.eqb "/") name = true ->
  stops (Ascii.eqb "/") after ->
  search (scheme_text sch ++ "//" ++ MOBILE_HOST ++ "/pg/" ++ name ++ after) = Some name.
Proof.
  intros Hn Hs Ha.
  assert (E : forall prefix,
             none (Ascii.eqb "f") prefix = true ->
             search (prefix ++ "facebook.com/pg/" ++ name ++ after) = Some name).
  { intros prefix Hp. rewrite (search_skip prefix _ Hp).
    cbn [append]. cbn [search].
    assert (M : match_here ("facebook.com/pg/" ++ name ++ after) = Some name).
    { unfold match_here. cbn [append].
      change (startsWith "facebook" (String "f" ?x)) with true.
      cbn [startsWith drop]. rewrite !Ascii.eqb_refl. cbn [andb].
      change (dot ".") with true. cbn [andb].
      rewrite (name_at_intro name after Hn Hs Ha). reflexivity. }
    cbn [append] in M. rewrite M. reflexivity. }
  destruct sch; [apply (E "http://m.") | apply (E "https://m.")]; reflexivity.
Qed.

Lemma search_empty : search "" = None.
Proof. reflexivity. Qed.

Lemma extract_of_search url name :
  search url = Some name -> nonempty name = true ->
  extractUsernameFromUrl url = Ok name.
Proof.
  intros Hs Hn. unfold extractUsernameFromUrl.
  destruct url as [|c url']; [discriminate|]. cbn [truthy_string negb].
  rewrite Hs. destruct name; [discriminate | reflexivity].
Qed.

Lemma nonempty_app a b : nonempty a = true -> nonempty (a ++ b) = true.
Proof. destruct a; [discriminate | reflexivity]. Qed.

(** The base of a normalized URL whose path begins with [/pg/<name>]:
    on the path [/pg/<name>], with the query and the fragment only when
    the path ends there. *)
Lemma page_base v name t :
  wf v -> consistent v ->
  pathname v = "/pg/" ++ name ++ t ->
  none (Ascii.eqb "/") name = true -> stops (Ascii.eqb "/") t ->
  exists b,
    parse (base_of (toString v)) = Some b
    /\ toString b = base_of (toString v)
    /\ wf b
    /\ protocol b = protocol v /\ hostname b = hostname v
    /\ pathname b = "/pg/" ++ name
    /\ (query v = None -> query b = None)
    /\ (fragment v = None -> fragment b = None).
Proof.
  intros Hv Hc Hp Hn Ht. destruct Hv as [Hh Hpv Hsl Hq Hf Hpar].
  pose proof (tail_no_slash _ _ Hq Hf) as Htail.
  assert (Hhs : none (Ascii.eqb "/") (hostname v) = true)
    by (apply (all_none host_char); [exact host_char_slash | apply valid_host_chars, Hh]).
  set (tail := opt_text "?" (query v) ++ opt_text "#" (fragment v)) in *.
  assert (Htext : toString v
                  = scheme_text (protocol v) ++ "//" ++ hostname v
                    ++ String "/" ("pg" ++ String "/" (name ++ t ++ tail))).
  { rewrite toString_eq, Hp. fold tail. cbn [append].
    rewrite !append_assoc. reflexivity. }
  unfold base_of. rewrite Htext, (base_of_text _ _ _ Hhs).
  rewrite split_app_sep. change (split "/" "pg") with ["pg"]. cbn [app].
  destruct t as [|c t'].
  - change (name ++ "" ++ tail) with (name ++ tail).
    rewrite split_none by (now rewrite none_app, Hn, Htail).
    cbn [firstn]. rewrite join_cons. change (join "/" [name ++ tail]) with (name ++ tail).
    match type of Htext with
    | _ = ?rhs => match goal with
                  | |- context [parse ?x] => change x with rhs
                  end
    end.
    rewrite <- Htext. exists v.
    assert (Hwf : wf v) by (constructor; assumption).
    split; [apply parse_text; assumption|]. split; [reflexivity|].
    split; [exact Hwf|]. rewrite Hp, append_nil_r. repeat split; trivial.
  - cbn [stops] in Ht. apply Ascii.eqb_eq in Ht. subst c.
    change (name ++ String "/" t' ++ tail) with (name ++ String "/" (t' ++ tail)).
    rewrite split_app_sep, (split_none "/" name Hn). cbn [app].
    rewrite !firstn_cons. change (firstn 0 _) with (@nil string).
    rewrite join_cons. change (join "/" [name]) with name.
    assert (Hp2 : valid_path (String "/" ("pg" ++ String "/" name)) = true).
    { apply (two_segments_valid "pg" name t'). rewrite Hp in Hpv. exact Hpv. }
    pose proof (parse_compose (protocol v) (hostname v)
                              (String "/" ("pg" ++ String "/" name))
                              None None Hh Hp2 eq_refl eq_refl eq_refl) as P.
    cbn [opt_text nonempty] in P. rewrite !append_nil_r in P.
    eexists. split; [exact P|]. split.
    { rewrite toString_eq. cbn [protocol hostname pathname query fragment opt_text].
      rewrite !append_nil_r. reflexivity. }
    split.
    { constructor; cbn [hostname pathname query fragment searchParams]; trivial.
      - eexists. reflexivity.
      - constructor. }
    repeat split.
Qed.

(** X15.  For a URL the parser accepts whose mobile path is [/pg/<name>],
    alone or followed by further segments, the sub-tasks planned by
    [generateSubpagesFromUrl] all lie on the path [/pg/<name>]:
    [extractUsernameFromUrl] returns [<name>] for the URL of every
    section, and for the home URL it returns [<name>] followed by
    whatever query and fragment the base still carries.  For a start URL
    without query and fragment the home URL therefore gives [<name>] as
    well, and [normalizeOutputPageUrl] turns it into
    [https://www.facebook.com/<name>]. *)
Theorem subpages_username :
  forall (url : string) (u : URL) (pages : list FbSection) (name t : string),
    parse url = Some u ->
    mobile_path (pathname u) = "/pg/" ++ name ++ t ->
    nonempty name = true -> none (Ascii.eqb "/") name = true ->
    stops (Ascii.eqb "/") t ->
    exists b,
      generateSubpagesFromUrl url pages = Some (plan b pages)
      /\ hostname b = MOBILE_HOST /\ pathname b = "/pg/" ++ name
      /\ (forall sub,
             extractUsernameFromUrl (toString (with_section b sub)) = Ok name)
      /\ extractUsernameFromUrl (toString b)
         = Ok (name ++ opt_text "?" (query b) ++ opt_text "#" (fragment b))
      /\ (query u = None -> fragment u = None ->
          extractUsernameFromUrl (toString b) = Ok name
          /\ normalizeOutputPageUrl (toString b)
             = Some ("https://www.facebook.com/" ++ name)).
Proof.
  intros url u pages name t Hparse Hpath Hne Hns Ht.
  destruct (mobile_steps url u (Flag true) Hparse)
    as (v & names & Hn & Hv & Hc & Hpr & Hh & Hf & Hpa & Hs & _ & _ & Hnil).
  rewrite Hpath in Hpa.
  destruct (page_base v name t Hv Hc Hpa Hns Ht)
    as (b & Pb & Tb & Hb & Bpr & Bh & Bpa & Bq & Bf).
  rewrite Hh in Bh.
  pose proof (tail_no_slash _ _ (wf_query _ Hb) (wf_fragment _ Hb)) as Htail.
  assert (Hhome : extractUsernameFromUrl (toString b)
                  = Ok (name ++ opt_text "?" (query b) ++ opt_text "#" (fragment b))).
  { apply extract_of_search; [|apply nonempty_app, Hne].
    rewrite toString_eq, Bh, Bpa.
    replace (("/pg/" ++ name) ++ opt_text "?" (query b) ++ opt_text "#" (fragment b))
      with ("/pg/" ++ (name ++ opt_text "?" (query b) ++ opt_text "#" (fragment b)) ++ "")
      by (rewrite append_nil_r, !append_assoc; reflexivity).
    apply search_mobile; [apply nonempty_app, Hne | | exact I].
    rewrite none_app, Hns, Htail. reflexivity. }
  exists b. split.
  { unfold generateSubpagesFromUrl. rewrite Hn. cbn [bindo].
    fold (base_of (toString v)). rewrite Pb.
    rewrite (traverse_map _ (fun sub => {| useMobile := true;
                                           url := toString (with_section b sub);
                                           section := sub |})).
    - cbn [bindo]. rewrite <- Tb. reflexivity.
    - intros sub. cbn [bindo]. apply section_url, Hb. }
  split; [exact Bh|]. split; [exact Bpa|]. split.
  { intros sub. apply extract_of_search; [|exact Hne].
    rewrite toString_eq. cbn [with_section protocol hostname pathname query fragment].
    rewrite Bpa.
    replace (("/pg/" ++ name) ++ "/" ++ section_text sub)
      with ("/pg/" ++ name ++ String "/" (section_text sub))
      by (rewrite !append_assoc; reflexivity).
    rewrite !append_assoc. cbn [append].
    replace (scheme_text (protocol b)
             ++ String "/" (String "/" (MOBILE_HOST
                  ++ String "/" (String "p" (String "g" (String "/"
                       (name ++ String "/" (section_text sub
                          ++ opt_text "?" (query b) ++ opt_text "#" (fragment b)))))))))
      with (scheme_text (protocol b) ++ "//" ++ MOBILE_HOST ++ "/pg/" ++ name
            ++ String "/" (section_text sub
                           ++ opt_text "?" (query b) ++ opt_text "#" (fragment b)))
      by reflexivity.
    apply search_mobile; trivial. apply Ascii.eqb_refl. }
  split; [exact Hhome|].
  intros Hq Hfr.
  assert (Hpu : searchParams u = []).
  { pose proof (parse_consistent url u Hparse) as Hcu. unfold consistent in Hcu.
    rewrite Hq in Hcu. exact Hcu. }
  assert (Hqb : query b = None) by (apply Bq; rewrite (Hnil Hpu); exact Hq).
  assert (Hfb : fragment b = None) by (apply Bf; rewrite Hf; exact Hfr).
  split.
  { rewrite Hhome, Hqb, Hfb. cbn [opt_text]. rewrite !append_nil_r. reflexivity. }
  assert (Pb' : parse (toString b) = Some b) by (rewrite Tb; exact Pb).
  destruct (output_steps (toString b) b Pb')
    as (o & names' & Ho & Howf & Hoc & Opr & Oh & Of & Opa & Os & _ & _ & Onil & _).
  rewrite Ho. f_equal.
  assert (Hpb : searchParams b = []).
  { pose proof (parse_consistent _ _ Pb') as Hcb. unfold consistent in Hcb.
    rewrite Hqb in Hcb. exact Hcb. }
  rewrite toString_eq, Opr, Oh, Of, Hfb, (Onil Hpb), Hqb, Opa, Bpa.
  cbn [opt_text]. rewrite !append_nil_r.
  unfold output_path.
  change (replace "/pg/" "" ("/pg/" ++ name)) with name.
  unfold rooted.
  assert (Hsl : startsWith "/" name = false).
  { destruct name as [|c name']; [discriminate|].
    rewrite none_cons in Hns. apply andb_true_iff in Hns. destruct Hns as [Hc' _].
    apply negb_true_iff in Hc'. cbn [startsWith]. rewrite Hc'. reflexivity. }
  rewrite Hsl. reflexivity.
Qed.

Lemma subpages_username_witness :
  exists b,
    generateSubpagesFromUrl "https://www.facebook.com/somepage/posts/" [posts; reviews]
    = Some (plan b [posts; reviews])
    /\ extractUsernameFromUrl (toString (with_section b reviews)) = Ok "somepage"
    /\ extractUsernameFromUrl (toString b) = Ok "somepage"
    /\ normalizeOutputPageUrl (toString b) = Some "https://www.facebook.com/somepage".
Proof.
  destruct (subpages_username "https://www.facebook.com/somepage/posts/" _
                              [posts; reviews] "somepage" "/posts"
                              eq_refl eq_refl eq_refl eq_refl eq_refl)
    as (b & Hplan & _ & _ & Hsub & _ & Hhome).
  exists b. split; [exact Hplan|]. split; [apply Hsub|].
  apply Hhome; reflexivity.
Defined.

End UsernameFacts.

(** ** The sections of a page *)

Module SectionsFacts.
Import Str StrFacts Url UrlFacts Functions FanoutFacts Sections.
Local Open Scope string_scope.

Lemma plan_exists url u pages :
  parse url = Some u ->
  exists b, generateSubpagesFromUrl url pages = Some (plan b pages).
Proof.
  intros Hparse.
  destruct (normalizeToMobilePageUrl_wf url u (Flag true) Hparse)
    as (v & Hn & Hv & _).
  destruct (base_parse v Hv) as (b & Pb & Tb & _).
  pose proof (parse_wf _ _ Pb) as Hb.
  exists b. unfold generateSubpagesFromUrl. rewrite Hn. cbn [bindo].
  fold (base_of (toString v)). rewrite Pb.
  rewrite (traverse_map _ (fun sub => {| useMobile := true;
                                         url := toString (with_section b sub);
                                         section := sub |})).
  - cbn [bindo]. rewrite <- Tb. reflexivity.
  - intros sub. cbn [bindo]. apply section_url, Hb.
Qed.

(** X16.  Whatever the three switches are, the sub-tasks planned for a
    page URL the parser accepts are the home task followed by the tasks of
    the switched-on sections in the order posts, reviews, services, each
    once and each for the mobile device mode: one task more than there
    are switches on.  The section [about] is never among them.  With the
    empty list of sections, as for a post URL, the plan is the home task
    alone. *)
Theorem pageInfo_plan :
  forall (url : string) (u : URL) (scrapePosts scrapeReviews scrapeServices : bool),
    parse url = Some u ->
    (exists subs,
        generateSubpagesFromUrl url (pageInfo scrapePosts scrapeReviews scrapeServices)
        = Some subs
        /\ map section subs = home :: pageInfo scrapePosts scrapeReviews scrapeServices
        /\ NoDup (map section subs)
        /\ ~ In about (map section subs)
        /\ Forall (fun sub => useMobile sub = true) subs
        /\ List.length subs
           = (1 + Nat.b2n scrapePosts + Nat.b2n scrapeReviews + Nat.b2n scrapeServices)%nat)
    /\ (exists task,
           generateSubpagesFromUrl url [] = Some [task] /\ section task = home).
Proof.
  intros url u sp sr ss Hparse. split.
  - destruct (plan_exists url u (pageInfo sp sr ss) Hparse) as (b & ->).
    eexists. split; [reflexivity|].
    assert (Hsec : forall pages, map section (plan b pages) = home :: pages).
    { intros pages. unfold plan. cbn [map section]. f_equal.
      rewrite map_map. cbn [section]. apply map_id. }
    assert (Hmob : forall pages, Forall (fun sub => useMobile sub = true) (plan b pages)).
    { intros pages. unfold plan. constructor; [reflexivity|].
      apply Forall_map, Forall_forall. reflexivity. }
    rewrite Hsec. split; [reflexivity|].
    split; [|split; [|split; [apply Hmob|]]].
    + destruct sp, sr, ss; cbn [pageInfo app];
        repeat (constructor; [cbn [In]; intuition discriminate|]); constructor.
    + destruct sp, sr, ss; cbn [pageInfo app In]; intuition discriminate.
    + unfold plan. cbn [List.length]. rewrite length_map.
      destruct sp, sr, ss; reflexivity.
  - destruct (plan_exists url u [] Hparse) as (b & ->).
    eexists. split; reflexivity.
Qed.

Lemma pageInfo_plan_witness :
  exists subs,
    generateSubpagesFromUrl "https://www.facebook.com/somepage" (pageInfo true false true)
    = Some subs
    /\ map section subs = [home; posts; services].
Proof.
  destruct (proj1 (pageInfo_plan "https://www.facebook.com/somepage" _ true false true
                                 eq_refl))
    as (subs & Hs & Hm & _).
  exists subs. split; [exact Hs | exact Hm].
Defined.

End SectionsFacts.

(** ** Arrays without repeats *)

Module ArraysFacts.
Import Arrays.

Section Unique.
Variable T : Type.
Variable same : T -> T -> bool.
Variable truthy : T -> bool.
Hypothesis same_eq : forall a b, same a b = true <-> a = b.

Local Abbreviation Set_add := (Set_add T same).
Local Abbreviation new_Set := (new_Set T same).
Local Abbreviation unique := (uniqueNonEmptyArray T same truthy).

Lemma existsb_same v set : existsb (same v) set = true <-> In v set.
Proof.
  rewrite existsb_exists. split.
  - intros (x & Hx & E). apply same_eq in E. congruence.
  - intros H. exists v. split; [exact H | apply same_eq; reflexivity].
Qed.

(** Adding to a set a list of values: the values not yet in it are
    appended in the order of their first occurrence. *)
Fixpoint firsts (seen : list T) (value : list T) : list T :=
  match value with
  | [] => []
  | v :: value' =>
    if existsb (same v) seen then firsts seen value'
    else v :: firsts (seen ++ [v]) value'
  end.

Lemma fold_Set_add value : forall set,
  fold_left Set_add value set = set ++ firsts set value.
Proof.
  induction value as [|v value IH]; intros set; cbn [fold_left firsts].
  - now rewrite app_nil_r.
  - rewrite IH. unfold Arrays.Set_add. destruct (existsb (same v) set); [reflexivity|].
    rewrite <- app_assoc. reflexivity.
Qed.

Lemma firsts_In seen value x :
  In x (firsts seen value) <-> In x value /\ ~ In x seen.
Proof.
  revert seen. induction value as [|v value IH]; intros seen; cbn [firsts In].
  - tauto.
  - destruct (existsb (same v) seen) eqn:E.
    + apply existsb_same in E. rewrite IH. split.
      * tauto.
      * intros [[<-|H] Hn]; [contradiction | tauto].
    + assert (Hv : ~ In v seen).
      { intros H. apply existsb_same in H. congruence. }
      cbn [In]. rewrite IH, in_app_iff. cbn [In]. split.
      * intros [<-|[H Hn]]; [tauto|]. split; [tauto|]. intros Hs. apply Hn. tauto.
      * intros [[<-|H] Hn]; [tauto|].
        destruct (same v x) eqn:Ex.
        -- apply same_eq in Ex. tauto.
        -- right. split; [exact H|]. intros [Hs|[Hs|[]]]; [tauto|].
           subst x. assert (Et : same v v = true) by (apply same_eq; reflexivity).
           congruence.
Qed.

Lemma firsts_NoDup value : forall seen, NoDup (firsts seen value).
Proof.
  induction value as [|v value IH]; intros seen; cbn [firsts]; [constructor|].
  destruct (existsb (same v) seen); [apply IH|].
  constructor; [|apply IH].
  rewrite firsts_In, in_app_iff. cbn [In]. tauto.
Qed.

(** On a list without repeats and away from [seen], nothing is dropped. *)
Lemma firsts_id value : forall seen,
  NoDup value -> (forall x, In x value -> ~ In x seen) -> firsts seen value = value.
Proof.
  induction value as [|v value IH]; intros seen Hnd Hs; cbn [firsts]; [reflexivity|].
  inversion Hnd as [|? ? Hv Hnd']; subst.
  destruct (existsb (same v) seen) eqn:E.
  - apply existsb_same in E. exfalso. apply (Hs v); [left; reflexivity | exact E].
  - f_equal. apply IH; [exact Hnd'|].
    intros x Hx. rewrite in_app_iff. cbn [In]. intros [H|[<-|[]]].
    + apply (Hs x); [right; exact Hx | exact H].
    + contradiction.
Qed.

Lemma new_Set_firsts value : new_Set value = firsts [] value.
Proof. unfold Arrays.new_Set. now rewrite fold_Set_add. Qed.

(** X17.  For values compared as [Set] compares them,
    [uniqueNonEmptyArray] returns a list without repeats whose members
    are exactly the truthy members of the input; a list that has no
    repeats and no falsy member is returned as it is, so that the result
    keeps the order of the input and the function is idempotent; and
    the result is never longer than the input. *)
Theorem uniqueNonEmptyArray_spec :
  forall value : list T,
    NoDup (unique value)
    /\ (forall x, In x (unique value) <-> In x value /\ truthy x = true)
    /\ (NoDup value -> forallb truthy value = true -> unique value = value)
    /\ unique (unique value) = unique value
    /\ List.length (unique value) <= List.length value.
Proof.
  intros value.
  assert (Hnd : forall l, NoDup (unique l)).
  { intros l. unfold Arrays.uniqueNonEmptyArray. apply NoDup_filter.
    rewrite new_Set_firsts. apply firsts_NoDup. }
  assert (Hin : forall l x, In x (unique l) <-> In x l /\ truthy x = true).
  { intros l x. unfold Arrays.uniqueNonEmptyArray.
    rewrite filter_In, new_Set_firsts, firsts_In. cbn [In]. tauto. }
  assert (Hid : forall l, NoDup l -> forallb truthy l = true -> unique l = l).
  { intros l Hl Ht. unfold Arrays.uniqueNonEmptyArray.
    rewrite new_Set_firsts, firsts_id; [|exact Hl | intros x _ []].
    rewrite forallb_forall in Ht. clear Hl.
    induction l as [|a l IH]; [reflexivity|]. cbn [List.filter].
    rewrite (Ht a (or_introl eq_refl)). f_equal. apply IH.
    intros x Hx. apply Ht. right. exact Hx. }
  split; [apply Hnd|]. split; [apply Hin|]. split; [apply Hid|]. split.
  - apply Hid; [apply Hnd|]. apply forallb_forall. intros x Hx.
    apply Hin in Hx. tauto.
  - unfold Arrays.uniqueNonEmptyArray.
    etransitivity; [apply filter_length_le|].
    rewrite new_Set_firsts. generalize (@nil T).
    induction value as [|v value IH]; intros seen; cbn [firsts List.length]; [lia|].
    destruct (existsb (same v) seen).
    + specialize (IH seen). lia.
    + cbn [List.length]. specialize (IH (seen ++ [v])). lia.
Qed.
End Unique.

Lemma uniqueNonEmptyArray_spec_witness :
  uniqueNonEmptyArray string String.eqb Str.nonempty
                      ["b"; ""; "a"; "b"; ""; "c"; "a"]%string
  = ["b"; "a"; "c"]%string
  /\ NoDup (uniqueNonEmptyArray string String.eqb Str.nonempty
                                ["b"; ""; "a"; "b"; ""; "c"; "a"]%string).
Proof.
  split; [reflexivity|].
  apply (uniqueNonEmptyArray_spec string String.eqb Str.nonempty String.eqb_eq).
Defined.

End ArraysFacts.

(** ** The cache of page resources *)

Module CacheFacts.
Import Str Cache.
Local Open Scope string_scope.

Lemma set_same url e c : set url e c url = Some e.
Proof. unfold set. now rewrite String.eqb_refl. Qed.

Lemma set_other url e c key : key <> url -> set url e c key = c key.
Proof. unfold set. intros H. apply String.eqb_neq in H. now rewrite H. Qed.

Lemma rest_dropped hs name : In name dropped -> get name (rest hs) = None.
Proof.
  intros Hin. unfold rest. induction hs as [|[n v] hs IH]; [reflexivity|].
  cbn [List.filter]. destruct (existsb (String.eqb n) dropped) eqn:E; cbn [negb].
  - exact IH.
  - cbn [get]. destruct (String.eqb_spec n name) as [->|_]; [|exact IH].
    assert (Ht : existsb (String.eqb name) dropped = true).
    { apply existsb_exists. exists name. split; [exact Hin | apply String.eqb_refl]. }
    congruence.
Qed.

Section Paths.
Variable cached_path : string -> bool.

(** What holds of every entry of a cache. *)
Definition sound (c : cache) : Prop :=
  forall url e,
    c url = Some e ->
    cached_path url = true /\ is_blocked url = false
    /\ (loaded e = true ->
        exists buffer hs,
          content e = Some buffer /\ buffer <> []
          /\ headers e = Some hs
          /\ forall name, In name dropped -> get name hs = None).

Lemma empty_sound : sound empty.
Proof. intros url e H. discriminate. Qed.

(** The responses that wait for a body are responses to requests the
    cache has taken in. *)
Definition known (s : state) : Prop :=
  forall url hs, In (url, hs) (awaiting s) -> cached_path url = true /\ is_blocked url = false.

Lemma request_sound closed u type c : sound c -> sound (snd (request cached_path closed u type c)).
Proof.
  intros Hc. unfold request. destruct closed; [exact Hc|].
  destruct (is_blocked u) eqn:Eb; [exact Hc|].
  assert (Hset : cacheable type && cached_path u = true ->
                 sound (set u {| loaded := false; contentType := None;
                                 content := None; headers := None |} c)).
  { intros Hp. apply andb_true_iff in Hp. destruct Hp as [_ Hp].
    intros url e. destruct (String.eqb_spec url u) as [->|Hne].
    - rewrite set_same. intros [= <-]. split; [exact Hp|]. split; [exact Eb|].
      discriminate.
    - rewrite set_other by exact Hne. apply Hc. }
  destruct type; cbn [snd].
  + destruct (includes ".jpg" u || includes ".jpeg" u); [exact Hc|].
    destruct (includes ".png" u); [exact Hc|].
    destruct (includes ".gif" u); exact Hc.
  + destruct (cacheable script && cached_path u) eqn:Ep; [|exact Hc].
    destruct (c u) as [[[] ? ? ?]|]; cbn [snd]; auto.
  + destruct (cacheable stylesheet && cached_path u) eqn:Ep; [|exact Hc].
    destruct (c u) as [[[] ? ? ?]|]; cbn [snd]; auto.
  + exact Hc.
Qed.

Lemma response_body_sound u hs body c :
  cached_path u = true -> is_blocked u = false ->
  sound c -> sound (response_body u hs body c).
Proof.
  intros Hp Hb Hc. destruct body as [buffer|]; [|exact Hc]. cbn [response_body].
  intros url e. destruct (String.eqb_spec url u) as [->|Hne].
  - rewrite set_same. intros [= <-]. split; [exact Hp|]. split; [exact Hb|].
    cbn [loaded content headers]. intros Hl.
    exists buffer, (rest hs). split; [reflexivity|]. split.
    + destruct buffer; [discriminate Hl | discriminate].
    + split; [reflexivity|]. intros name. apply rest_dropped.
  - rewrite set_other by exact Hne. apply Hc.
Qed.

(** Taking the [i]-th element out of a list leaves elements of the list. *)
Lemma In_without {A} (l : list A) i a :
  In a (firstn i l ++ skipn (S i) l) -> In a l.
Proof.
  intros H. apply in_app_or in H. rewrite <- (firstn_skipn i l).
  apply in_or_app. destruct H as [H|H]; [left; exact H|right].
  rewrite <- (firstn_skipn 1 (skipn i l)), skipn_skipn.
  apply in_or_app. right. exact H.
Qed.

Lemma step_sound s ev :
  sound (entries s) /\ known s ->
  sound (entries (step cached_path s ev)) /\ known (step cached_path s ev).
Proof.
  intros [Hc Hk]. destruct ev as [closed u type|closed u type hs|i body]; cbn [step].
  - split; [apply request_sound, Hc | exact Hk].
  - unfold response. destruct closed; [auto|].
    destruct (cacheable type); [|auto].
    destruct (entries s u) as [e0|] eqn:E0; [|auto].
    destruct (loaded e0); cbn [negb]; [auto|].
    split; [exact Hc|]. intros url hs' Hin. cbn [awaiting] in Hin.
    apply in_app_or in Hin. destruct Hin as [Hin|[[= <- <-]|[]]].
    + exact (Hk url hs' Hin).
    + destruct (Hc u e0 E0) as (Hp & Hb & _). auto.
  - destruct (nth_error (awaiting s) i) as [[u hs]|] eqn:En; [|auto].
    destruct (Hk u hs (nth_error_In _ _ En)) as [Hp Hb].
    split; [apply response_body_sound; assumption|].
    intros url hs' Hin. cbn [awaiting] in Hin. exact (Hk url hs' (In_without _ _ _ Hin)).
Qed.

Lemma steps_sound events : forall s,
  sound (entries s) /\ known s ->
  sound (entries (steps cached_path events s)) /\ known (steps cached_path events s).
Proof.
  induction events as [|ev events IH]; intros s Hs; [exact Hs|].
  apply IH, step_sound, Hs.
Qed.

Lemma init_sound : sound (entries (init empty)) /\ known (init empty).
Proof. split; [exact empty_sound | intros url hs []]. Qed.

(** A request leaves a loaded entry as it is. *)
Lemma request_loaded closed u type c url e :
  c url = Some e -> loaded e = true ->
  snd (request cached_path closed u type c) url = Some e.
Proof.
  intros Hc Hl. unfold request. destruct closed; [exact Hc|].
  destruct (is_blocked u); [exact Hc|].
  assert (Hcase : snd (if cacheable type && cached_path u
                       then match c u with
                            | Some {| loaded := true; contentType := contentType;
                                      content := content; headers := headers |} =>
                              (Fulfill content 200 contentType headers, c)
                            | _ =>
                              (Continue,
                               set u {| loaded := false; contentType := None;
                                        content := None; headers := None |} c)
                            end
                       else (Continue, c)) url = Some e).
  { destruct (cacheable type && cached_path u); [|exact Hc].
    destruct (String.eqb_spec url u) as [->|Hne].
    - rewrite Hc. destruct e as [[] ? ? ?]; [exact Hc | discriminate].
    - destruct (c u) as [[[] ? ? ?]|]; cbn [snd]; trivial;
        rewrite set_other by exact Hne; exact Hc. }
  destruct type; trivial.
  destruct (includes ".jpg" u || includes ".jpeg" u); [exact Hc|].
  destruct (includes ".png" u); [exact Hc|].
  destruct (includes ".gif" u); exact Hc.
Qed.

(** No response for [url] waits for its body. *)
Definition settled (url : string) (s : state) : Prop :=
  forall hs, ~ In (url, hs) (awaiting s).

(** A loaded entry that no response waits to write is not written, and
    no response for it starts to wait. *)
Lemma step_loaded s ev url e :
  entries s url = Some e -> loaded e = true -> settled url s ->
  entries (step cached_path s ev) url = Some e /\ settled url (step cached_path s ev).
Proof.
  intros Hc Hl Hq. destruct ev as [closed u type|closed u type hs|i body]; cbn [step].
  - split; [apply request_loaded; assumption | exact Hq].
  - unfold response. destruct closed; [auto|].
    destruct (cacheable type); [|auto].
    destruct (String.eqb_spec url u) as [->|Hne].
    + rewrite Hc, Hl. auto.
    + destruct (entries s u) as [e0|]; [|auto].
      destruct (negb (loaded e0)); [|auto].
      split; [exact Hc|]. intros hs' Hin. cbn [awaiting] in Hin.
      apply in_app_or in Hin. destruct Hin as [Hin|[[= <- _]|[]]].
      * exact (Hq hs' Hin).
      * apply Hne. reflexivity.
  - destruct (nth_error (awaiting s) i) as [[u hs]|] eqn:En; [|auto].
    assert (Hne : url <> u).
    { intros ->. exact (Hq hs (nth_error_In _ _ En)). }
    cbn [entries awaiting]. split.
    + destruct body as [buffer|]; cbn [response_body]; [|exact Hc].
      rewrite set_other by exact Hne. exact Hc.
    + intros hs' Hin. exact (Hq hs' (In_without _ _ _ Hin)).
Qed.

Lemma steps_loaded events : forall s url e,
  entries s url = Some e -> loaded e = true -> settled url s ->
  entries (steps cached_path events s) url = Some e
  /\ settled url (steps cached_path events s).
Proof.
  induction events as [|ev events IH]; intros s url e Hc Hl Hq; [auto|].
  cbn [steps fold_left].
  destruct (step_loaded s ev url e Hc Hl Hq) as [Hc' Hq'].
  apply IH; assumption.
Qed.

(** X18.  After any sequence of requests and responses on a cache that
    started empty, every entry belongs to a URL that matches one of the
    cached paths and holds none of the blocked fragments; and an entry
    marked as loaded has a body, which is not empty, and headers without
    [date], [expires], [last-modified] and [content-length]. *)
Theorem cache_entries_sound :
  forall (events : list event) (url : string) (e : entry),
    run cached_path events empty url = Some e ->
    cached_path url = true /\ is_blocked url = false
    /\ (loaded e = true ->
        exists buffer hs,
          content e = Some buffer /\ buffer <> []
          /\ headers e = Some hs
          /\ forall name, In name dropped -> get name hs = None).
Proof.
  intros events url e H.
  exact (proj1 (steps_sound events (init empty) init_sound) url e H).
Qed.

(** X19.  A loaded entry that no response is waiting to write stays as
    it is, whatever requests, responses and bodies follow: no later
    response for its URL gets to write, and every later request for the
    URL as a script or a style sheet, on an open page, is answered from
    the cache with status 200 and the stored body, content type and
    headers, the cache being left untouched. *)
Theorem loaded_entry_served :
  forall (before after : list event) (url : string) (e : entry) (type : resourceType),
    let s := steps cached_path before (init empty) in
    entries s url = Some e ->
    loaded e = true ->
    (forall hs, ~ In (url, hs) (awaiting s)) ->
    cacheable type = true ->
    let s' := steps cached_path (before ++ after) (init empty) in
    entries s' url = Some e
    /\ (forall hs, ~ In (url, hs) (awaiting s'))
    /\ request cached_path false url type (entries s')
       = (Fulfill (content e) 200 (contentType e) (headers e), entries s').
Proof.
  intros before after url e type s He Hl Hq Ht s'.
  assert (Es : s' = steps cached_path after s)
    by (unfold s', s, steps; apply fold_left_app).
  destruct (steps_loaded after s url e He Hl Hq) as [Hc Hq'].
  rewrite <- Es in Hc, Hq'.
  split; [exact Hc|]. split; [exact Hq'|].
  destruct (steps_sound before (init empty) init_sound) as [Hs _].
  destruct (Hs url e He) as (Hp & Hb & _).
  unfold request. rewrite Hb, Ht, Hp, Hc. cbn [andb].
  destruct e as [l ct co hs]. cbn [loaded] in Hl. subst l.
  destruct type; try discriminate; reflexivity.
Qed.
End Paths.

(** A script under [rsrc.php]: requested, answered, requested again. *)
Definition rsrc_path (url : string) : bool := RegExp.test (RegExp.lit "rsrc.php") url.

Definition rsrc_url : string := "https://static.xx.fbcdn.net/rsrc.php/v3/y1/r/abc.js".

Definition rsrc_headers : Headers :=
  [("content-type", "application/javascript"); ("date", "today"); ("etag", "1")].

Definition rsrc_events : list event :=
  [ Request false rsrc_url script;
    Response false rsrc_url script rsrc_headers;
    Body 0 (Some [Byte.x61; Byte.x3b]) ].

Definition rsrc_entry : entry :=
  {| loaded := true; contentType := Some "application/javascript";
     content := Some [Byte.x61; Byte.x3b]; headers :=
       Some [("content-type", "application/javascript"); ("etag", "1")] |}.

Lemma cache_entries_sound_witness :
  run rsrc_path rsrc_events empty "https://static.xx.fbcdn.net/rsrc.php/v3/y1/r/abc.js"
  = Some rsrc_entry
  /\ rsrc_path "https://static.xx.fbcdn.net/rsrc.php/v3/y1/r/abc.js" = true.
Proof.
  assert (H : run rsrc_path rsrc_events empty
                  "https://static.xx.fbcdn.net/rsrc.php/v3/y1/r/abc.js"
              = Some rsrc_entry) by (vm_compute; reflexivity).
  split; [exact H|].
  apply (cache_entries_sound rsrc_path rsrc_events _ rsrc_entry H).
Defined.

Lemma loaded_entry_served_witness :
  let c := run rsrc_path (rsrc_events ++ [Request false rsrc_url stylesheet]) empty in
  request rsrc_path false rsrc_url script c
  = (Fulfill (Some [Byte.x61; Byte.x3b]) 200 (Some "application/javascript")
             (Some [("content-type", "application/javascript"); ("etag", "1")]), c).
Proof.
  intros c.
  assert (H : entries (steps rsrc_path rsrc_events (init empty)) rsrc_url = Some rsrc_entry)
    by (vm_compute; reflexivity).
  assert (Hq : forall hs, ~ In (rsrc_url, hs) (awaiting (steps rsrc_path rsrc_events (init empty))))
    by (intros hs; vm_compute; intros []).
  apply (loaded_entry_served rsrc_path rsrc_events [Request false rsrc_url stylesheet]
                             rsrc_url rsrc_entry script H eq_refl Hq eq_refl).
Defined.

(** The condition on the waiting responses is needed.  Two pages ask for
    the script before either response has its body: both responses find
    the entry not loaded, the body of the first loads the entry, and the
    body of the second, here an empty one, writes it again. *)
Lemma late_body_overwrites :
  let events := [ Request false rsrc_url script;
                  Response false rsrc_url script rsrc_headers;
                  Request false rsrc_url script;
                  Response false rsrc_url script rsrc_headers;
                  Body 0 (Some [Byte.x61; Byte.x3b]) ] in
  run rsrc_path events empty rsrc_url = Some rsrc_entry
  /\ awaiting (steps rsrc_path events (init empty)) = [(rsrc_url, rsrc_headers)]
  /\ run rsrc_path (events ++ [Body 0 (Some [])]) empty rsrc_url
     = Some {| loaded := false; contentType := Some "application/javascript";
               content := Some []; headers :=
                 Some [("content-type", "application/javascript"); ("etag", "1")] |}.
Proof. repeat split. Qed.

End CacheFacts.

(** ** Promises settled from outside *)

Module DeferredFacts.
Import Deferred.

Section Deferred.
Variables T E : Type.

Local Abbreviation call := (call T E).
Local Abbreviation vars := (vars T E).

(** The first call of [resolve] or [reject] among the calls. *)
Fixpoint first_call (calls : list call) : option call :=
  match calls with
  | [] => None
  | Tick :: calls' => first_call calls'
  | c :: _ => Some c
  end.

(** The calls that follow it. *)
Fixpoint later_calls (calls : list call) : list call :=
  match calls with
  | [] => []
  | Tick :: calls' => later_calls calls'
  | _ :: calls' => calls'
  end.

(** Whether the event loop has run a timer among the calls. *)
Definition ticked (calls : list call) : bool :=
  existsb (fun c => match c with Tick => true | _ => false end) calls.

(** What the first call leaves to be, given whether a timer has run
    since: for [reject], the rejection waits for its timer. *)
Definition outcome (first : option call) (timer_ran : bool) (s : vars) : Prop :=
  match first with
  | None => resolved s = false /\ state s = Pending /\ timers s = []
  | Some (Resolve arg) =>
    resolved s = true /\ state s = Fulfilled arg /\ timers s = []
  | Some (Reject arg) =>
    resolved s = true
    /\ if timer_ran
       then state s = Rejected arg /\ timers s = []
       else state s = Pending /\ timers s = [arg]
  | Some (Tick) => False
  end.

Lemma first_call_snoc calls c :
  first_call (calls ++ [c])
  = match first_call calls with
    | Some first => Some first
    | None => match c with Tick => None | _ => Some c end
    end.
Proof.
  induction calls as [|a calls IH]; cbn [app first_call].
  - destruct c; reflexivity.
  - destruct a; trivial.
Qed.

Lemma later_calls_snoc calls c :
  later_calls (calls ++ [c])
  = match first_call calls with
    | Some _ => later_calls calls ++ [c]
    | None => []
    end.
Proof.
  induction calls as [|a calls IH]; cbn [app first_call later_calls].
  - destruct c; reflexivity.
  - destruct a; trivial.
Qed.

Lemma ticked_snoc calls c :
  ticked (calls ++ [c]) = ticked calls || match c with Tick => true | _ => false end.
Proof. unfold ticked. rewrite existsb_app. cbn [existsb]. rewrite orb_false_r. reflexivity. Qed.

(** X20.  Whatever calls of [resolve] and [reject] are made, and
    whenever the timers run, only the first call counts: after
    [resolve(v)] first the promise is fulfilled with [v]; after
    [reject(e)] first it is pending, with the one timer queued, as long
    as the event loop has not run a timer since, and rejected with [e]
    from the first run of a timer on; at most one timer is ever queued;
    and [resolved] is true exactly from the first call on. *)
Theorem deferred_settles_once :
  forall calls : list call,
    outcome (first_call calls) (ticked (later_calls calls)) (run T E calls)
    /\ List.length (timers (run T E calls)) <= 1.
Proof.
  intros calls.
  assert (H : outcome (first_call calls) (ticked (later_calls calls)) (run T E calls)).
  { induction calls as [|c calls IH] using rev_ind.
    - cbn. auto.
    - rewrite first_call_snoc, later_calls_snoc. unfold run in *. rewrite fold_left_app.
      cbn [fold_left]. set (s := fold_left (step T E) calls (init T E)) in *.
      destruct (first_call calls) as [[v|e|]|]; cbn [outcome] in IH.
      + destruct IH as (Hr & Hs & Ht). cbn [outcome].
        destruct c; cbn [step]; unfold resolve, reject, tick;
          rewrite ?Hr, ?Ht; cbn [negb]; auto.
      + destruct IH as (Hr & Hcases). cbn [outcome]. rewrite ticked_snoc.
        destruct (ticked (later_calls calls)); destruct Hcases as [Hs Ht];
          destruct c; cbn [step orb]; unfold resolve, reject, tick;
            rewrite ?Hr, ?Ht; cbn [negb resolved state timers]; rewrite ?Hs; auto.
      + contradiction.
      + destruct IH as (Hr & Hs & Ht).
        destruct c; cbn [step outcome ticked existsb]; unfold resolve, reject, tick;
          rewrite ?Hr, ?Ht; cbn [negb resolved state timers app]; rewrite ?Hs; auto. }
  split; [exact H|].
  destruct (first_call calls) as [[v|e|]|]; cbn [outcome] in H.
  - destruct H as (_ & _ & ->). cbn. lia.
  - destruct H as (_ & H). destruct (ticked (later_calls calls));
      destruct H as (_ & ->); cbn; lia.
  - contradiction.
  - destruct H as (_ & _ & ->). cbn. lia.
Qed.

(** [reject], a second [reject] and a [resolve] before the timer runs:
    pending with the first error queued; then the timer: rejected. *)
Lemma deferred_reject_example (v : T) (e e' : E) :
  state (run T E [Reject e; Reject e'; Resolve (Some v)]) = Pending
  /\ timers (run T E [Reject e; Reject e'; Resolve (Some v)]) = [e]
  /\ state (run T E [Reject e; Reject e'; Resolve (Some v); Tick]) = Rejected e.
Proof. repeat split. Qed.
End Deferred.

End DeferredFacts.

(** ** Regular expressions: what the matcher accepts *)

Module RegExpFacts.
Import Str StrFacts RegExp.
Local Open Scope string_scope.
Local Arguments Ascii.eqb : simpl never.

(** The strings of a pattern; a repetition is cut into pieces that are
    not empty. *)
Inductive lang : regex -> string -> Prop :=
| lang_eps : lang Eps ""
| lang_class p c : p c = true -> lang (Class p) (String c "")
| lang_cat r1 r2 s1 s2 : lang r1 s1 -> lang r2 s2 -> lang (Cat r1 r2) (s1 ++ s2)
| lang_alt_l r1 r2 s : lang r1 s -> lang (Alt r1 r2) s
| lang_alt_r r1 r2 s : lang r2 s -> lang (Alt r1 r2) s
| lang_star_nil r : lang (Star r) ""
| lang_star_cons r c s1 s2 :
    lang r (String c s1) -> lang (Star r) s2 -> lang (Star r) (String c s1 ++ s2).

Lemma app_nil s1 s2 : s1 ++ s2 = "" -> s1 = "" /\ s2 = "".
Proof. destruct s1; [auto | discriminate]. Qed.

Lemma lang_nil r s : lang r s -> s = "" -> nullable r = true.
Proof.
  induction 1 as [|p c Hp|r1 r2 s1 s2 H1 IH1 H2 IH2|r1 r2 s H IH|r1 r2 s H IH|r
                  |r c s1 s2 H1 IH1 H2 IH2]; intros E; cbn [nullable]; trivial.
  - discriminate.
  - apply app_nil in E. destruct E as [E1 E2]. now rewrite IH1, IH2.
  - now rewrite IH.
  - rewrite IH by exact E. apply orb_true_r.
Qed.

Lemma nullable_lang r : nullable r = true <-> lang r "".
Proof.
  split; [|intros H; apply (lang_nil r "" H eq_refl)].
  induction r as [| |p|r1 IH1 r2 IH2|r1 IH1 r2 IH2|r IH]; cbn [nullable]; intros H;
    try discriminate.
  - constructor.
  - apply andb_true_iff in H. destruct H as [H1 H2].
    change "" with ("" ++ ""). constructor; auto.
  - apply orb_true_iff in H. destruct H as [H|H]; [apply lang_alt_l | apply lang_alt_r]; auto.
  - constructor.
Qed.

Lemma deriv_sound c r : forall s, lang (deriv c r) s -> lang r (String c s).
Proof.
  induction r as [| |p|r1 IH1 r2 IH2|r1 IH1 r2 IH2|r IH]; cbn [deriv]; intros s H.
  - inversion H.
  - inversion H.
  - destruct (p c) eqn:E; inversion H; subst. constructor. exact E.
  - assert (Hcat : forall t, lang (Cat (deriv c r1) r2) t -> lang (Cat r1 r2) (String c t)).
    { intros t Ht. inversion Ht as [| |? ? s1 s2 H1 H2| | | |]; subst.
      change (String c (s1 ++ s2)) with (String c s1 ++ s2). constructor; auto. }
    destruct (nullable r1) eqn:N; [|apply Hcat, H].
    inversion H as [| | |? ? ? H1|? ? ? H2| |]; subst; [apply Hcat, H1|].
    change (String c s) with ("" ++ String c s).
    constructor; [apply nullable_lang, N | apply IH2, H2].
  - inversion H; subst; [apply lang_alt_l | apply lang_alt_r]; auto.
  - inversion H as [| |? ? s1 s2 H1 H2| | | |]; subst.
    change (String c (s1 ++ s2)) with (String c s1 ++ s2). constructor; auto.
Qed.

Lemma deriv_complete c r t :
  lang r t -> forall s, t = String c s -> lang (deriv c r) s.
Proof.
  induction 1 as [|p d Hp|r1 r2 s1 s2 H1 IH1 H2 IH2|r1 r2 t H IH|r1 r2 t H IH|r
                  |r d s1 s2 H1 IH1 H2 IH2]; intros s E; cbn [deriv].
  - discriminate.
  - injection E as -> <-. rewrite Hp. constructor.
  - destruct s1 as [|d s1'].
    + cbn [append] in E. subst s2.
      rewrite (lang_nil r1 "" H1 eq_refl). apply lang_alt_r. apply IH2. reflexivity.
    + cbn [append] in E. injection E as -> <-.
      assert (Hc : lang (Cat (deriv c r1) r2) (s1' ++ s2))
        by (constructor; [apply IH1; reflexivity | exact H2]).
      destruct (nullable r1); [apply lang_alt_l|]; exact Hc.
  - apply lang_alt_l, IH, E.
  - apply lang_alt_r, IH, E.
  - discriminate.
  - cbn [append] in E. injection E as -> <-.
    constructor; [apply IH1; reflexivity | exact H2].
Qed.

(** The matcher accepts the strings of the pattern. *)
Lemma matches_lang s : forall r, matches r s = true <-> lang r s.
Proof.
  induction s as [|c s IH]; intros r; cbn [matches].
  - apply nullable_lang.
  - rewrite IH. split; [apply deriv_sound|].
    intros H. apply (deriv_complete c r _ H s eq_refl).
Qed.

Lemma lang_any s : lang any s.
Proof.
  unfold any. induction s as [|c s IH]; [constructor|].
  change (String c s) with (String c "" ++ s). constructor; [|exact IH].
  constructor. reflexivity.
Qed.

(** [test]: some part of the string is a string of the pattern. *)
Lemma test_lang r s :
  test r s = true <-> exists a b c, s = a ++ b ++ c /\ lang r b.
Proof.
  unfold test. rewrite matches_lang. split.
  - intros H. inversion H as [| |? ? a t _ Ht| | | |]; subst.
    inversion Ht as [| |? ? b c Hb _| | | |]; subst. eauto.
  - intros (a & b & c & -> & Hb).
    constructor; [apply lang_any|]. constructor; [exact Hb | apply lang_any].
Qed.

Lemma lang_chr c s : lang (chr c) s <-> s = String c "".
Proof.
  unfold chr. split.
  - intros H. inversion H as [|? d Hd| | | | |]; subst.
    apply Ascii.eqb_eq in Hd. now subst.
  - intros ->. constructor. apply Ascii.eqb_refl.
Qed.

Lemma lang_lit t s : lang (lit t) s <-> s = t.
Proof.
  revert s. induction t as [|c t IH]; intros s; cbn [lit].
  - split; [intros H; now inversion H | intros ->; constructor].
  - split.
    + intros H. inversion H as [| |? ? s1 s2 H1 H2| | | |]; subst.
      apply lang_chr in H1. apply IH in H2. subst. reflexivity.
    + intros ->. change (String c t) with (String c "" ++ t).
      constructor; [apply lang_chr; reflexivity | apply IH; reflexivity].
Qed.

Lemma lang_opt r s : lang (opt r) s <-> s = "" \/ lang r s.
Proof.
  unfold opt. split.
  - intros H. inversion H as [| | |? ? ? H1|? ? ? H2| |]; subst; [|auto].
    inversion H1. auto.
  - intros [->|H]; [apply lang_alt_l; constructor | apply lang_alt_r, H].
Qed.

(** One or more characters of a class: a first one, and some string. *)
Lemma lang_plus_class p s :
  lang (plus (Class p)) s -> exists c s', s = String c s' /\ p c = true.
Proof.
  unfold plus. intros H. inversion H as [| |? ? s1 s2 H1 _| | | |]; subst.
  inversion H1; subst. cbn [append]. eauto.
Qed.

Lemma lang_plus_one p c : p c = true -> lang (plus (Class p)) (String c "").
Proof.
  intros H. unfold plus. change (String c "") with (String c "" ++ "").
  constructor; constructor. exact H.
Qed.

(** The string has [t] in it, followed by a character of [cls]. *)
Definition followed (t : string) (cls : ascii -> bool) (s : string) : Prop :=
  exists a c rest, s = a ++ t ++ String c rest /\ cls c = true.

(** A literal and then one or more characters of a class. *)
Lemma test_lit_plus t cls s :
  test (Cat (lit t) (plus (Class cls))) s = true <-> followed t cls s.
Proof.
  rewrite test_lang. unfold followed. split.
  - intros (a & b & c & -> & Hb).
    inversion Hb as [| |? ? s1 s2 H1 H2| | | |]; subst.
    apply lang_lit in H1. subst s1.
    apply lang_plus_class in H2. destruct H2 as (d & s' & -> & Hd).
    exists a, d, (s' ++ c). split; [|exact Hd].
    rewrite !append_assoc. reflexivity.
  - intros (a & c & rest & -> & Hc).
    exists a, (t ++ String c ""), rest. split.
    + rewrite !append_assoc. reflexivity.
    + constructor; [apply lang_lit; reflexivity | apply lang_plus_one, Hc].
Qed.

End RegExpFacts.

(** ** URL classification: what each label means *)

Module ClassifierMeaning.
Import JS Str StrFacts RegExp RegExpFacts Url Functions.
Local Open Scope string_scope.
Local Arguments Ascii.eqb : simpl never.

(** The class [[a-z0-9.\-%]] under the [i] flag. *)
Definition name_char (c : ascii) : bool := is_alnum c || one_of ".-%" c.

Lemma chr_i_p c :
  Ascii.eqb (to_lower c) (to_lower "p") = true -> name_char c = true.
Proof.
  destruct c as [[] [] [] [] [] [] [] []]; vm_compute; intros; congruence.
Qed.

Lemma test_page_pattern s :
  test page_pattern s = true <-> followed "/" name_char s.
Proof.
  rewrite test_lang. unfold followed, page_pattern. fold name_char. split.
  - intros (a & b & c & -> & Hb).
    inversion Hb as [| |? ? s0 t0 H0 Ht0| | | |]; subst.
    apply lang_chr in H0. subst s0.
    inversion Ht0 as [| |? ? x1 t1 H1 Ht1| | | |]; subst.
    inversion Ht1 as [| |? ? x2 t2 H2 Ht2| | | |]; subst.
    inversion Ht2 as [| |? ? x3 x4 H3 _| | | |]; subst.
    apply lang_plus_class in H3. destruct H3 as (d & s' & -> & Hd).
    apply lang_opt in H1. apply lang_opt in H2.
    destruct H1 as [->|H1].
    + destruct H2 as [->|H2].
      * exists a, d, (s' ++ x4 ++ c). split; [|exact Hd].
        repeat (cbn [append]; rewrite ?append_assoc). reflexivity.
      * apply lang_chr in H2. subst x2.
        exists (a ++ "/"), d, (s' ++ x4 ++ c). split; [|exact Hd].
        repeat (cbn [append]; rewrite ?append_assoc). reflexivity.
    + inversion H1 as [| |? ? y1 y2 Hy1 Hy2| | | |]; subst.
      unfold chr_i in Hy1, Hy2.
      inversion Hy1 as [|? c1 Hc1| | | | |]; subst.
      exists a, c1, (y2 ++ x2 ++ (String d s' ++ x4) ++ c).
      split; [|apply chr_i_p, Hc1].
      repeat (cbn [append]; rewrite ?append_assoc). reflexivity.
  - intros (a & d & rest & -> & Hd).
    exists a, (String "/" (String d "")), rest. split; [reflexivity|].
    change (String "/" (String d "")) with ("/" ++ ("" ++ ("" ++ (String d "" ++ "")))).
    constructor; [apply lang_chr; reflexivity|].
    constructor; [apply lang_opt; auto|].
    constructor; [apply lang_opt; auto|].
    constructor; [apply lang_plus_one, Hd | apply lang_opt; auto].
Qed.

(** The four shapes of a path the classifier looks for. *)
Definition listing (p : string) : Prop := startsWith "/biz/" p = true.
Definition album (p : string) : Prop := followed "/photos/a." is_digit p.
Definition post (p : string) : Prop := followed "/posts/" is_digit p.
Definition named (p : string) : Prop := followed "/" name_char p.

Lemma bool_cases (b : bool) (P : Prop) : (b = true <-> P) -> (b = true /\ P) \/ (b = false /\ ~ P).
Proof.
  intros H. destruct b; [left; split; [reflexivity | apply H; reflexivity]|].
  right. split; [reflexivity|]. intros HP. apply H in HP. discriminate.
Qed.

Ltac settle :=
  repeat split; intros;
  repeat match goal with
         | H : _ /\ _ |- _ => destruct H
         | H : exists _, _ |- _ => destruct H
         | H : _ \/ _ |- _ => destruct H
         end;
  try discriminate; try congruence; try tauto;
  try (left; discriminate); try (do 2 eexists; reflexivity).

(** X21.  On a non-empty string the constructor accepts, the label is
    decided by the host name and the path alone, the first test that
    succeeds winning: on a host with [facebook.com] in its name, a path
    that begins with [/biz/] is a listing; else one with [/photos/a.]
    and a digit after it is a photo; else one with [/posts/] and a digit
    after it is a post; else one with a slash and, after it, a letter, a
    digit or one of [.-%] is a page; every other URL, and every URL on
    another host, is refused with an [InfoError] that carries it. *)
Theorem getUrlLabel_meaning :
  forall (new_URL : string -> option URL) (url : string) (u : URL),
    url <> "" ->
    new_URL url = Some u ->
    let facebook := includes "facebook.com" (hostname u) = true in
    let p := pathname u in
    (getUrlLabel new_URL url = Ok LISTING <-> facebook /\ listing p)
    /\ (getUrlLabel new_URL url = Ok PHOTO <-> facebook /\ ~ listing p /\ album p)
    /\ (getUrlLabel new_URL url = Ok POST
        <-> facebook /\ ~ listing p /\ ~ album p /\ post p)
    /\ (getUrlLabel new_URL url = Ok PAGE
        <-> facebook /\ ~ listing p /\ ~ album p /\ ~ post p /\ named p)
    /\ ((exists message namespace,
            getUrlLabel new_URL url = Throw (InfoError message url namespace))
        <-> ~ facebook \/ (~ listing p /\ ~ album p /\ ~ post p /\ ~ named p)).
Proof.
  intros new_URL url u Hne Hu facebook p. unfold getUrlLabel.
  destruct url as [|c url']; [congruence|]. cbn [truthy_string negb]. rewrite Hu.
  fold p. unfold facebook.
  destruct (includes "facebook.com" (hostname u)); [|settle].
  destruct (bool_cases (startsWith "/biz/" p) (listing p) (iff_refl _)) as [[-> H1]|[-> H1]];
    [settle|].
  destruct (bool_cases _ (album p) (test_lit_plus "/photos/a." is_digit p))
    as [[E2 H2]|[E2 H2]];
    unfold photo_pattern, digit; rewrite E2; [settle|].
  destruct (bool_cases _ (post p) (test_lit_plus "/posts/" is_digit p))
    as [[E3 H3]|[E3 H3]];
    unfold post_pattern, digit; rewrite E3; [settle|].
  destruct (bool_cases _ (named p) (test_page_pattern p)) as [[E4 H4]|[E4 H4]];
    rewrite E4; settle.
Qed.

Lemma getUrlLabel_meaning_witness :
  getUrlLabel parse "https://www.facebook.com/somepage/posts/123" = Ok POST.
Proof.
  assert (Hne : "https://www.facebook.com/somepage/posts/123" <> "") by discriminate.
  destruct (getUrlLabel_meaning parse "https://www.facebook.com/somepage/posts/123" _
                                Hne eq_refl) as (_ & _ & H & _).
  apply H. split; [reflexivity|]. split; [|split].
  - intros Hl. vm_compute in Hl. discriminate.
  - intros Ha. apply test_lit_plus in Ha. vm_compute in Ha. discriminate.
  - apply test_lit_plus. vm_compute. reflexivity.
Defined.

End ClassifierMeaning.

(** ** Permalinks *)

Module PermalinkFacts.
Import JS Str StrFacts Url UrlFacts Functions FanoutFacts NormalizeSteps Username
       UsernameFacts Permalink.
Local Open Scope string_scope.
Local Arguments Ascii.eqb : simpl never.

Lemma parse_nonempty url u : parse url = Some u -> given (Some url) = true.
Proof. destruct url; [discriminate | reflexivity]. Qed.

(** The callback of the walk deletes or leaves alone; it deletes no
    kept name on a path without [/posts]. *)
Definition spares (path : string) (key : string) : Prop :=
  includes "/posts" path = false -> existsb (String.eqb key) kept = false.

Lemma story_walk_cases (path : string) :
  forall (value key : string) (w : URL),
    pathname w = path ->
    (if negb (existsb (String.eqb key) (if includes "/posts" (pathname w) then [] else kept))
     then delete key w else w) = w
    \/ ((if negb (existsb (String.eqb key)
                          (if includes "/posts" (pathname w) then [] else kept))
         then delete key w else w) = delete key w
        /\ spares path key).
Proof.
  intros value key w Hp. rewrite Hp. unfold spares.
  destruct (includes "/posts" path).
  - right. split; [reflexivity | discriminate].
  - destruct (existsb (String.eqb key) kept); cbn [negb]; [left | right]; auto.
Qed.

(** The walk of the permalink: as [walk_from], for a callback that reads
    the path, which no step changes. *)
Lemma story_walk (start : params) (path : string) : forall fuel i w names0,
  wf w -> consistent w -> pathname w = path ->
  searchParams w = without names0 start ->
  exists names,
    let w' := forEach_from fuel
                (fun _ key u =>
                   if negb (existsb (String.eqb key)
                                    (if includes "/posts" (pathname u) then [] else kept))
                   then delete key u else u) i w in
    wf w' /\ consistent w' /\ same_location w w'
    /\ searchParams w' = without (names ++ names0) start
    /\ Forall (spares path) names.
Proof.
  induction fuel as [|fuel IH]; intros i w names0 Hw Hc Hp Hs; cbn [forEach_from].
  - exists []. cbn zeta. split; [exact Hw|]. split; [exact Hc|]. split; [repeat split|].
    split; [exact Hs | constructor].
  - destruct (nth_error (searchParams w) i) as [[key value]|].
    + destruct (story_walk_cases path value key w Hp) as [->|[-> Hd]].
      * apply IH; assumption.
      * destruct (delete_wf key w Hw) as [Hw1 (L1 & L2 & L3 & L4)].
        assert (Hs1 : searchParams (delete key w) = without (key :: names0) start).
        { cbn [delete searchParams]. rewrite Hs. apply delete_without. }
        destruct (IH (S i) (delete key w) (key :: names0) Hw1
                     (delete_consistent key w Hw) (eq_trans L3 Hp) Hs1)
          as (names & Hw2 & Hc2 & (M1 & M2 & M3 & M4) & Hs2 & Hn).
        exists (names ++ [key])%list. cbn zeta.
        split; [exact Hw2|]. split; [exact Hc2|].
        split; [unfold same_location; repeat split; congruence|].
        split; [rewrite <- app_assoc; exact Hs2|].
        apply Forall_app; auto.
    + exists []. cbn zeta. split; [exact Hw|]. split; [exact Hc|]. split; [repeat split|].
      split; [exact Hs | constructor].
Qed.

Lemma without_none names list name :
  In name names -> forall value, ~ In (name, value) (without names list).
Proof.
  intros Hin value H. apply without_In in H. destruct H as [_ H]. cbn [fst] in H.
  assert (Ht : existsb (String.eqb name) names = true).
  { apply existsb_exists. exists name. split; [exact Hin | apply String.eqb_refl]. }
  congruence.
Qed.

(** What follows the choice of the path. *)
Lemma story_tail u p :
  wf p -> consistent p -> searchParams p = searchParams u ->
  exists v names,
    delete "__tn__"
      (forEach (fun _ key w =>
                  if negb (existsb (String.eqb key)
                                   (if includes "/posts" (pathname w) then [] else kept))
                  then delete key w else w) p) = v
    /\ wf v /\ consistent v /\ same_location p v
    /\ searchParams v = without ("__tn__" :: names) (searchParams u)
    /\ Forall (spares (pathname p)) names.
Proof.
  intros Hp Hc Hs.
  assert (Hs0 : searchParams p = without [] (searchParams u))
    by (rewrite without_nil; exact Hs).
  unfold forEach.
  destruct (story_walk (searchParams u) (pathname p) (List.length (searchParams p)) 0 p []
                       Hp Hc eq_refl Hs0)
    as (names & Hw & Hcw & (L1 & L2 & L3 & L4) & Hsw & Hn).
  cbn zeta in Hw, Hcw, L1, L2, L3, L4, Hsw.
  rewrite app_nil_r in Hsw.
  destruct (delete_wf "__tn__" _ Hw) as [Hd (M1 & M2 & M3 & M4)].
  eexists. exists names. split; [reflexivity|]. split; [exact Hd|].
  split; [apply delete_consistent, Hw|].
  split; [unfold same_location; repeat split; congruence|].
  split; [|exact Hn].
  cbn [delete searchParams]. rewrite Hsw. apply delete_without.
Qed.

(** X22.  For every URL the parser accepts, [storyFbToDesktopPermalink]
    returns, when it returns, a URL on the desktop host with the protocol
    and the fragment of the input and with no parameter [__tn__]; its
    parameters are the input's without the names deleted, and on a path
    without [/posts] none of [story_fbid], [id], [substory_index] and
    [type] is deleted.  Without a post id it always returns, on the path
    [/permalink.php] when the URL has [story_fbid] and [id] and its path
    has neither [/photos] nor [/video], and on the input's path
    otherwise; it never returns [null] for a URL that is not empty. *)
Theorem storyFbToDesktopPermalink_result :
  forall (url : string) (u : URL) (postId username : option string),
    parse url = Some u ->
    match storyFbToDesktopPermalink (Some url) postId username with
    | Some (Some v) =>
      parse (toString v) = Some v
      /\ hostname v = DESKTOP_HOST
      /\ protocol v = protocol u /\ fragment v = fragment u
      /\ (forall value, ~ In ("__tn__", value) (searchParams v))
      /\ (exists names,
             searchParams v = without names (searchParams u)
             /\ (includes "/posts" (pathname v) = false ->
                 forall pair, In pair (searchParams u) ->
                              In (fst pair) kept -> In pair (searchParams v)))
      /\ (given postId = false ->
          pathname v
          = if has "story_fbid" u && has "id" u
               && negb (includes "/photos" (pathname u))
               && negb (includes "/video" (pathname u))
            then "/permalink.php" else pathname u)
    | Some None => False
    | None => given postId = true
    end.
Proof.
  intros url u postId username Hparse.
  pose proof (parse_wf url u Hparse) as Hu.
  pose proof (parse_consistent url u Hparse) as Hc.
  unfold storyFbToDesktopPermalink.
  rewrite (parse_nonempty url u Hparse). cbn [negb text]. rewrite Hparse. cbn [bindo].
  destruct (set_hostname_wf DESKTOP_HOST u desktop_host_valid Hu)
    as (Hu1 & Hh1 & Hp1 & Hpa1 & Hq1 & Hf1 & Hs1).
  set (u1 := set_hostname DESKTOP_HOST u) in *.
  assert (Hc1 : consistent u1) by (unfold consistent; rewrite Hs1, Hq1; exact Hc).
  assert (Hhas : forall name, has name u1 = has name u)
    by (intros name; unfold has; rewrite Hs1; reflexivity).
  (* what the tail gives for a chosen URL [p] *)
  assert (Htail : forall p,
             wf p -> consistent p -> searchParams p = searchParams u ->
             hostname p = DESKTOP_HOST -> protocol p = protocol u ->
             fragment p = fragment u ->
             let v := delete "__tn__"
                        (forEach (fun _ key w =>
                           if negb (existsb (String.eqb key)
                                      (if includes "/posts" (pathname w) then [] else kept))
                           then delete key w else w) p) in
             parse (toString v) = Some v
             /\ hostname v = DESKTOP_HOST
             /\ protocol v = protocol u /\ fragment v = fragment u
             /\ (forall value, ~ In ("__tn__", value) (searchParams v))
             /\ (exists names,
                    searchParams v = without names (searchParams u)
                    /\ (includes "/posts" (pathname v) = false ->
                        forall pair, In pair (searchParams u) ->
                                     In (fst pair) kept -> In pair (searchParams v)))
             /\ pathname v = pathname p).
  { intros p Hp Hcp Hsp Hhp Hprp Hfp.
    destruct (story_tail u p Hp Hcp Hsp)
      as (v & names & -> & Hv & Hcv & (L1 & L2 & L3 & L4) & Hsv & Hn).
    cbn zeta. split; [apply parse_text; assumption|].
    split; [congruence|]. split; [congruence|]. split; [congruence|].
    split; [intros value; rewrite Hsv; apply without_none; left; reflexivity|].
    split; [|exact L3].
    exists ("__tn__" :: names). split; [exact Hsv|].
    intros Hno pair Hin Hk. rewrite Hsv. apply without_In. split; [exact Hin|].
    cbn [existsb]. apply orb_false_iff. split.
    - destruct Hk as [<-|[<-|[<-|[<-|[]]]]]; reflexivity.
    - destruct (existsb (String.eqb (fst pair)) names) eqn:E; [|reflexivity].
      apply existsb_exists in E. destruct E as (key & Hkey & E).
      apply String.eqb_eq in E. subst key.
      rewrite Forall_forall in Hn. specialize (Hn _ Hkey).
      unfold spares in Hn. rewrite <- L3 in Hn. specialize (Hn Hno).
      assert (Ht : existsb (String.eqb (fst pair)) kept = true).
      { apply existsb_exists. exists (fst pair). split; [exact Hk | apply String.eqb_refl]. }
      congruence. }
  destruct (given postId) eqn:Eg; cbn [negb].
  - (* a post id: the path is written anew, or left *)
    match goal with
    | |- context [bindo (if ?c then set_pathname ?val u1 else Some u1)] =>
      destruct c; [destruct (set_pathname val u1) as [p|] eqn:Eset|]
    end; cbn [bindo]; [| reflexivity |].
    + unfold set_pathname in Eset.
      match type of Eset with
      | (if valid_path ?val then _ else _) = _ => destruct (valid_path val) eqn:Ev
      end; [|discriminate].
      match type of Ev with
      | valid_path ?val = true =>
        destruct (set_pathname_any val u1 Ev Hu1)
          as (p' & Ep' & Hp & Ppa & Ppr & Ph & Pq & Pf & Ps)
      end.
      unfold set_pathname in Ep'. rewrite Ev in Ep'. rewrite Ep' in Eset.
      injection Eset as <-.
      destruct (Htail p' Hp) as (T1 & T2 & T3 & T4 & T5 & T6 & _);
        try congruence.
      { unfold consistent. rewrite Ps, Pq. exact Hc1. }
      repeat (split; trivial); try (intros E; discriminate E).
    + destruct (Htail u1 Hu1 Hc1 Hs1 Hh1 Hp1 Hf1) as (T1 & T2 & T3 & T4 & T5 & T6 & _).
      repeat (split; trivial); try (intros E; discriminate E).
  - rewrite !Hhas, Hpa1.
    destruct (has "story_fbid" u && has "id" u
              && negb (includes "/photos" (pathname u))
              && negb (includes "/video" (pathname u))).
    + destruct (set_pathname_wf "permalink.php" u1 eq_refl Hu1)
        as (p & Ep & Hp & Ppa & Ppr & Ph & Pq & Pf & Ps).
      change (String "/" "permalink.php") with "/permalink.php" in Ep, Ppa.
      rewrite Ep. cbn [bindo].
      destruct (Htail p Hp) as (T1 & T2 & T3 & T4 & T5 & T6 & T7); try congruence.
      { unfold consistent. rewrite Ps, Pq. exact Hc1. }
      repeat (split; trivial); try (intros _; congruence).
    + cbn [bindo].
      destruct (Htail u1 Hu1 Hc1 Hs1 Hh1 Hp1 Hf1) as (T1 & T2 & T3 & T4 & T5 & T6 & T7).
      repeat (split; trivial); try (intros _; congruence).
Qed.

Lemma storyFbToDesktopPermalink_result_witness :
  option_map (option_map toString)
             (storyFbToDesktopPermalink
                (Some "https://m.facebook.com/story.php?story_fbid=12&id=34&__tn__=x&ref=y")
                None (Some "somepage"))
  = Some (Some "https://www.facebook.com/permalink.php?story_fbid=12&id=34&ref=y")
  /\ match storyFbToDesktopPermalink
             (Some "https://m.facebook.com/story.php?story_fbid=12&id=34&__tn__=x&ref=y")
             None (Some "somepage") with
     | Some (Some v) => hostname v = DESKTOP_HOST
     | _ => False
     end.
Proof.
  split; [vm_compute; reflexivity|].
  pose proof (storyFbToDesktopPermalink_result
                "https://m.facebook.com/story.php?story_fbid=12&id=34&__tn__=x&ref=y" _
                None (Some "somepage") eq_refl) as H.
  destruct (storyFbToDesktopPermalink _ None (Some "somepage")) as [[v|]|];
    [|exact H|discriminate H].
  destruct H as (_ & H & _). exact H.
Defined.

(** *** [photoToPost] *)

(** A walk whose callback deletes at every pair leaves at most half. *)
Lemma walk_half (P : URL -> Prop) (callback : string -> string -> URL -> URL) :
  (forall value key w, P w -> callback value key w = delete key w /\ P (delete key w)) ->
  forall fuel i w,
    P w ->
    List.length (searchParams w) - i <= fuel ->
    2 * List.length (searchParams (forEach_from fuel callback i w))
    <= List.length (searchParams w) + i.
Proof.
  intros Hcb. induction fuel as [|fuel IH]; intros i w Hw Hf; cbn [forEach_from].
  - lia.
  - destruct (nth_error (searchParams w) i) as [[key value]|] eqn:E.
    + destruct (Hcb value key w Hw) as [-> Hd].
      assert (Hi : i < List.length (searchParams w))
        by (apply nth_error_Some; congruence).
      assert (Hl : List.length (searchParams (delete key w)) < List.length (searchParams w)).
      { cbn [delete searchParams]. apply nth_error_In in E.
        clear -E. induction (searchParams w) as [|[n v] l IHl]; [destruct E|].
        cbn [List.filter]. destruct E as [[= -> ->]|Hin].
        - rewrite String.eqb_refl. cbn [negb].
          pose proof (filter_length_le (fun '(n, _) => negb (String.eqb n key)) l).
          cbn [List.length]. lia.
        - specialize (IHl Hin). destruct (negb (String.eqb n key)); cbn [List.length]; lia. }
      specialize (IH (S i) (delete key w) Hd). lia.
    + apply nth_error_None in E. lia.
Qed.

Lemma includes_app t a b : includes t (a ++ t ++ b) = true.
Proof.
  induction a as [|c a IH]; cbn [append].
  - assert (H : startsWith t (t ++ b) = true).
    { clear. induction t as [|c t IH]; [reflexivity|].
      cbn [append startsWith]. now rewrite Ascii.eqb_refl, IH. }
    destruct (t ++ b); cbn [includes]; rewrite H; reflexivity.
  - cbn [includes]. rewrite IH. apply orb_true_r.
Qed.

(** The text a URL was parsed from. *)
Lemma parse_inv s u :
  parse s = Some u ->
  exists path,
    s = scheme_text (protocol u) ++ "//" ++ hostname u ++ path
        ++ opt_text "?" (query u) ++ opt_text "#" (fragment u)
    /\ pathname u = (if nonempty path then path else "/").
Proof.
  unfold parse, strip_scheme.
  assert (Hs : forall sch rest,
             s = scheme_text sch ++ "//" ++ rest ->
             match (let '(host, rest0) := break (one_of "/?#") rest in
                    let '(path, rest1) := break (one_of "?#") rest0 in
                    let '(query, rest2) :=
                      match rest1 with
                      | String "?" r => let '(q, r') := break (one_of "#") r in (Some q, r')
                      | _ => (None, rest1)
                      end in
                    let fragment :=
                      match rest2 with
                      | String "#" f => Some f
                      | _ => None
                      end in
                    if valid_host host && valid_path path
                       && valid_opt valid_query query && valid_opt valid_fragment fragment
                    then Some {| protocol := sch; hostname := host;
                                 pathname := if nonempty path then path else "/";
                                 query := query; fragment := fragment;
                                 searchParams := match query with
                                                 | Some q => parse_query q
                                                 | None => []
                                                 end |}
                    else None) with
             | Some u' =>
               u' = u ->
               exists path,
                 s = scheme_text (protocol u) ++ "//" ++ hostname u ++ path
                     ++ opt_text "?" (query u) ++ opt_text "#" (fragment u)
                 /\ pathname u = (if nonempty path then path else "/")
             | None => True
             end).
  { intros sch rest ->.
    destruct (break_spec (one_of "/?#") rest) as (E1 & _ & _).
    destruct (break (one_of "/?#") rest) as [host rest0]. cbn [fst snd] in E1.
    destruct (break_spec (one_of "?#") rest0) as (E2 & _ & S2).
    destruct (break (one_of "?#") rest0) as [path rest1]. cbn [fst snd] in E2, S2.
    assert (Hq : exists q rest2,
               match rest1 with
               | String "?" r => let '(q, r') := break (one_of "#") r in (Some q, r')
               | _ => (None, rest1)
               end = (q, rest2)
               /\ rest1 = opt_text "?" q ++ rest2
               /\ stops (one_of "#") rest2).
    { destruct rest1 as [|c r]; [exists None, ""; auto|].
      cbn [stops] in S2.
      destruct (Ascii.eqb_spec c "?") as [->|Hc].
      - destruct (break_spec (one_of "#") r) as (E3 & _ & S3).
        destruct (break (one_of "#") r) as [q r']. cbn [fst snd] in E3, S3.
        exists (Some q), r'. split; [reflexivity|]. split; [|exact S3].
        cbn [opt_text append]. congruence.
      - assert (Hh : one_of "#" c = true).
        { destruct c as [[] [] [] [] [] [] [] []]; vm_compute in S2 |- *;
            try discriminate; try reflexivity. exfalso. apply Hc. reflexivity. }
        exists None, (String c r). split; [|split; [reflexivity | exact Hh]].
        destruct c as [[] [] [] [] [] [] [] []]; try reflexivity.
        exfalso. apply Hc. reflexivity. }
    destruct Hq as (q & rest2 & -> & E3 & S3).
    assert (Hf : rest2 = opt_text "#" match rest2 with String "#" f => Some f | _ => None end).
    { destruct rest2 as [|c f]; [reflexivity|]. cbn [stops] in S3.
      destruct c as [[] [] [] [] [] [] [] []]; vm_compute in S3; try discriminate.
      reflexivity. }
    cbv zeta.
    destruct (valid_host host && valid_path path && valid_opt valid_query q
              && valid_opt valid_fragment
                   match rest2 with String "#" f => Some f | _ => None end); [|exact I].
    intros <-. cbn [protocol hostname pathname query fragment].
    exists path. split; [|reflexivity].
    rewrite <- Hf, <- E3, <- E2, <- E1. reflexivity. }
  destruct (startsWith "https://" s) eqn:E1.
  - apply startsWith_drop in E1. specialize (Hs https (drop 8 s) E1).
    cbn [String.length] in Hs.
    destruct (let '(host, rest0) := break (one_of "/?#") (drop 8 s) in _) as [u'|];
      [|discriminate].
    intros [= ->]. apply Hs. reflexivity.
  - destruct (startsWith "http://" s) eqn:E2; [|discriminate].
    apply startsWith_drop in E2. specialize (Hs http (drop 7 s) E2).
    cbn [String.length] in Hs.
    destruct (let '(host, rest0) := break (one_of "/?#") (drop 7 s) in _) as [u'|];
      [|discriminate].
    intros [= ->]. apply Hs. reflexivity.
Qed.

(** A segment and the slash after it, against a pattern of that form. *)
Lemma startsWith_segment t : none (Ascii.eqb "/") t = true ->
  forall h x r,
    none (Ascii.eqb "/") h = true ->
    startsWith (t ++ String "/" r) (h ++ String "/" x) = true ->
    h = t /\ startsWith r x = true.
Proof.
  induction t as [|a t IH]; intros Ht h x r Hh H.
  - destruct h as [|c h]; cbn [append startsWith] in H.
    + rewrite Ascii.eqb_refl in H. auto.
    + rewrite none_cons in Hh. apply andb_true_iff in Hh. destruct Hh as [Hc _].
      apply negb_true_iff in Hc. rewrite Hc in H. discriminate.
  - rewrite none_cons in Ht. apply andb_true_iff in Ht. destruct Ht as [Ha Ht].
    apply negb_true_iff in Ha.
    destruct h as [|c h]; cbn [append startsWith] in H.
    + rewrite Ascii.eqb_sym, Ha in H. discriminate.
    + apply andb_true_iff in H. destruct H as [Hac H]. apply Ascii.eqb_eq in Hac. subst c.
      rewrite none_cons in Hh. apply andb_true_iff in Hh. destruct Hh as [_ Hh].
      destruct (IH Ht h x r Hh H) as [-> Hr]. auto.
Qed.

Lemma digits_at_other c s : Ascii.eqb "/" c = false -> digits_at (String c s) = None.
Proof. intros H. unfold digits_at. cbn [startsWith]. rewrite H. reflexivity. Qed.

Lemma photo_skip pre s :
  none (Ascii.eqb "/") pre = true -> photo_search (pre ++ s) = photo_search s.
Proof.
  induction pre as [|c pre IH]; [reflexivity|].
  rewrite none_cons. intros H. apply andb_true_iff in H. destruct H as [Hc H].
  apply negb_true_iff in Hc. cbn [append photo_search].
  rewrite (digits_at_other c _ Hc). apply IH, H.
Qed.

(** The search passes over a segment that is not [photos] before [a.]. *)
Lemma photo_skip_segment h x :
  none (Ascii.eqb "/") h = true ->
  (h = "photos" -> startsWith "a." x = false) ->
  photo_search (String "/" (h ++ String "/" x)) = photo_search (String "/" x).
Proof.
  intros Hh Hne.
  assert (E : digits_at (String "/" (h ++ String "/" x)) = None).
  { unfold digits_at.
    destruct (startsWith "/photos/a." (String "/" (h ++ String "/" x))) eqn:E; [|reflexivity].
    exfalso.
    change (startsWith "/photos/a." (String "/" (h ++ String "/" x)))
      with (Ascii.eqb "/" "/" && startsWith ("photos" ++ String "/" "a.") (h ++ String "/" x))
      in E.
    rewrite Ascii.eqb_refl in E. cbn [andb] in E.
    destruct (startsWith_segment "photos" eq_refl h x "a." Hh E) as [E1 E2].
    rewrite (Hne E1) in E2. discriminate. }
  change (photo_search (String "/" (h ++ String "/" x)))
    with (match digits_at (String "/" (h ++ String "/" x)) with
          | Some digits => Some digits
          | None => photo_search (h ++ String "/" x)
          end).
  rewrite E. apply (photo_skip h (String "/" x) Hh).
Qed.

Lemma digit_path_char c : is_digit c = true -> path_char c = true.
Proof. destruct c as [[] [] [] [] [] [] [] []]; vm_compute; intros; congruence. Qed.

Lemma digit_no_slash c : is_digit c = true -> Ascii.eqb "/" c = false.
Proof. destruct c as [[] [] [] [] [] [] [] []]; vm_compute; intros; congruence. Qed.

Lemma digits_not_dots d :
  nonempty d = true -> all is_digit d = true -> dot_segment d = false.
Proof.
  destruct d as [|c d]; [discriminate|]. intros _ H. cbn [all] in H.
  apply andb_true_iff in H. destruct H as [Hc _].
  destruct c as [[] [] [] [] [] [] [] []]; vm_compute in Hc; try discriminate;
    unfold dot_segment; cbn; reflexivity.
Qed.

(** The name of a page URL on the desktop host. *)
Lemma search_desktop sch name after :
  nonempty name = true -> none (Ascii.eqb "/") name = true -> name <> "pg" ->
  stops (Ascii.eqb "/") after ->
  search (scheme_text sch ++ "//" ++ DESKTOP_HOST ++ "/" ++ name ++ after) = Some name.
Proof.
  intros Hn Hs Hpg Ha.
  assert (M : match_here ("facebook.com/" ++ name ++ after) = Some name).
  { unfold match_here. cbn [append].
    change (startsWith "facebook" (String "f" ?x)) with true.
    cbn [startsWith drop]. rewrite !Ascii.eqb_refl. cbn [andb].
    change (dot ".") with true. cbn [andb].
    rewrite (name_at_intro name after Hn Hs Ha).
    destruct name as [|c1 [|c2 name']]; [discriminate| |].
    - cbn [append]. destruct (Ascii.eqb "p" c1); cbn [andb]; [|reflexivity].
      destruct after as [|c after']; cbn [startsWith]; [reflexivity|].
      cbn [stops] in Ha. apply Ascii.eqb_eq in Ha. subst c. reflexivity.
    - cbn [append]. destruct (Ascii.eqb_spec "p" c1) as [<-|]; cbn [andb]; [|reflexivity].
      destruct (Ascii.eqb_spec "g" c2) as [<-|]; cbn [andb]; [|reflexivity].
      destruct name' as [|c3 name'']; [congruence|].
      cbn [append name_at].
      rewrite !none_cons in Hs.
      apply andb_true_iff in Hs. destruct Hs as [_ Hs].
      apply andb_true_iff in Hs. destruct Hs as [_ Hs].
      apply andb_true_iff in Hs. destruct Hs as [Hc3 _].
      apply negb_true_iff in Hc3.
      destruct c3 as [[] [] [] [] [] [] [] []]; try reflexivity.
      vm_compute in Hc3. discriminate. }
  assert (E : forall prefix,
             none (Ascii.eqb "f") prefix = true ->
             search (prefix ++ "facebook.com/" ++ name ++ after) = Some name).
  { intros prefix Hp. rewrite (search_skip prefix _ Hp).
    cbn [append] in M |- *. cbn [search]. rewrite M. reflexivity. }
  destruct sch; [apply (E "http://www.") | apply (E "https://www.")]; reflexivity.
Qed.

Lemma digits_at_double_slash x : digits_at (String "/" (String "/" x)) = None.
Proof. reflexivity. Qed.

Lemma photo_search_cons c s :
  photo_search (String c s)
  = match digits_at (String c s) with
    | Some digits => Some digits
    | None => photo_search s
    end.
Proof. reflexivity. Qed.

Lemma none_not_digit d :
  all is_digit d = true -> none (fun c => negb (is_digit c)) d = true.
Proof.
  unfold none. apply all_impl. intros c Hc. now rewrite Hc.
Qed.

(** The album photo of a page: the search finds its digits. *)
Lemma photo_search_album sch host page digits rest q f :
  none (Ascii.eqb "/") host = true -> host <> "photos" ->
  none (Ascii.eqb "/") page = true ->
  nonempty digits = true -> all is_digit digits = true ->
  stops (fun c => negb (is_digit c)) rest ->
  photo_search (scheme_text sch ++ "//" ++ host
                ++ ("/" ++ page ++ "/photos/a." ++ digits ++ rest)
                ++ opt_text "?" q ++ opt_text "#" f)
  = Some digits.
Proof.
  intros Hh Hhost Hp Hd Hds Hr.
  set (tail := opt_text "?" q ++ opt_text "#" f).
  assert (Hstop : stops (fun c => negb (is_digit c)) (rest ++ tail)).
  { destruct rest as [|c rest']; [|exact Hr].
    unfold tail. destruct q, f; cbn; trivial. }
  assert (E : forall colon,
             none (Ascii.eqb "/") colon = true ->
             photo_search (colon ++ String "/" (String "/" (host ++ String "/"
                             (page ++ String "/" ("photos/a." ++ digits ++ rest ++ tail)))))
             = Some digits).
  { intros colon Hc. rewrite (photo_skip colon _ Hc).
    rewrite photo_search_cons, digits_at_double_slash.
    rewrite photo_skip_segment; [|exact Hh | intros E; contradiction].
    rewrite photo_skip_segment; [|exact Hp | intros _; reflexivity].
    rewrite photo_search_cons. unfold digits_at.
    change (startsWith "/photos/a." (String "/" ("photos/a." ++ digits ++ rest ++ tail)))
      with (startsWith "/photos/a." ("/photos/a." ++ (digits ++ rest ++ tail))).
    assert (Hsw : forall t x, startsWith t (t ++ x) = true).
    { clear. induction t as [|c t IH]; intros x; [reflexivity|].
      cbn [append startsWith]. now rewrite Ascii.eqb_refl, IH. }
    rewrite Hsw.
    change (drop 10 (String "/" ("photos/a." ++ digits ++ rest ++ tail)))
      with (digits ++ rest ++ tail).
    rewrite (break_app _ digits (rest ++ tail) (none_not_digit digits Hds) Hstop).
    cbn [fst]. rewrite Hd. reflexivity. }
  assert (Htext : forall colon,
             colon ++ "//" ++ host ++ ("/" ++ page ++ "/photos/a." ++ digits ++ rest) ++ tail
             = colon ++ String "/" (String "/" (host ++ String "/"
                 (page ++ String "/" ("photos/a." ++ digits ++ rest ++ tail))))).
  { intros colon. cbn [append]. rewrite !append_assoc. cbn [append].
    rewrite !append_assoc. reflexivity. }
  rewrite Htext. destruct sch; [apply (E "http:") | apply (E "https:")]; reflexivity.
Qed.

Lemma story_deletes path :
  includes "/posts" path = true ->
  forall (value key : string) (w : URL),
    pathname w = path ->
    (fun (_ key : string) (w : URL) =>
       if negb (existsb (String.eqb key)
                        (if includes "/posts" (pathname w) then [] else kept))
       then delete key w else w) value key w = delete key w
    /\ pathname (delete key w) = path.
Proof.
  intros H value key w Hw. cbv beta. rewrite Hw, H. split; [reflexivity | exact Hw].
Qed.

(** X23.  For a URL the parser accepts on a Facebook host whose path is
    [/<page>/photos/a.<digits>], alone or followed by something that is
    no digit, and has no [/story.php] in it, [photoToPost] returns the
    post of that page on the desktop host, on the path
    [/<page>/posts/<digits>], with the protocol and the fragment of the
    input and at most half of its parameters; for at most one parameter
    that is [<protocol>//www.facebook.com/<page>/posts/<digits>] and the
    fragment.  [extractUsernameFromUrl] returns [<page>] for it, unless
    the page is called [pg]. *)
Theorem photoToPost_album :
  forall (url : string) (u : URL) (page digits rest : string),
    parse url = Some u ->
    includes "facebook.com" (hostname u) = true ->
    pathname u = "/" ++ page ++ "/photos/a." ++ digits ++ rest ->
    nonempty page = true -> none (Ascii.eqb "/") page = true ->
    nonempty digits = true -> all is_digit digits = true ->
    stops (fun c => negb (is_digit c)) rest ->
    includes "/story.php" (pathname u) = false ->
    exists v,
      photoToPost url = Some (Some (toString v))
      /\ parse (toString v) = Some v
      /\ protocol v = protocol u /\ hostname v = DESKTOP_HOST
      /\ fragment v = fragment u
      /\ pathname v = "/" ++ page ++ "/posts/" ++ digits
      /\ 2 * List.length (searchParams v) <= List.length (searchParams u)
      /\ (List.length (searchParams u) <= 1 ->
          toString v
          = scheme_text (protocol u) ++ "//www.facebook.com/" ++ page ++ "/posts/"
            ++ digits ++ opt_text "#" (fragment u))
      /\ (page <> "pg" -> extractUsernameFromUrl (toString v) = Ok page).
Proof.
  intros url u page digits rest Hparse Hfb Hpath Hpn Hps Hdn Hds Hrest Hstory.
  pose proof (parse_wf url u Hparse) as Hu.
  pose proof (parse_consistent url u Hparse) as Hc.
  (* the text of the URL *)
  destruct (parse_inv url u Hparse) as (path & Htext & Hpa).
  assert (Epath : path = pathname u).
  { destruct path as [|c path']; cbn [nonempty] in Hpa; [|congruence].
    rewrite Hpath in Hpa. cbn [append] in Hpa. injection Hpa as Hpa.
    destruct page; [discriminate Hpn | discriminate Hpa]. }
  subst path. clear Hpa.
  assert (Hhs : none (Ascii.eqb "/") (hostname u) = true).
  { apply (all_none host_char); [exact host_char_slash|].
    apply valid_host_chars, (wf_host _ Hu). }
  assert (Hhost : hostname u <> "photos").
  { intros E. rewrite E in Hfb. discriminate Hfb. }
  assert (Hsearch : photo_search url = Some digits).
  { rewrite Htext, Hpath. apply photo_search_album; assumption. }
  (* the permalink *)
  unfold photoToPost. rewrite Hsearch. unfold storyFbToDesktopPermalink.
  rewrite (parse_nonempty url u Hparse). cbn [negb text]. rewrite Hparse. cbn [bindo].
  destruct (set_hostname_wf DESKTOP_HOST u desktop_host_valid Hu)
    as (Hu1 & Hh1 & Hp1 & Hpa1 & Hq1 & Hf1 & Hs1).
  set (u1 := set_hostname DESKTOP_HOST u) in *.
  assert (Hc1 : consistent u1) by (unfold consistent; rewrite Hs1, Hq1; exact Hc).
  assert (Hg : given (Some digits) = true) by (destruct digits; [discriminate | reflexivity]).
  rewrite Hg. cbn [negb given]. rewrite Hpa1, Hstory. cbn [negb]. rewrite orb_true_r.
  assert (Hsecond : second_piece (pathname u) = page).
  { unfold second_piece. rewrite Hpath.
    change ("/" ++ page ++ "/photos/a." ++ digits ++ rest)
      with ("" ++ String "/" (page ++ String "/" ("photos/a." ++ digits ++ rest))).
    rewrite !split_app_sep, (split_none "/" page Hps). reflexivity. }
  rewrite Hsecond.
  assert (Hvalid : valid_path (page ++ "/posts/" ++ digits) = true).
  { pose proof (valid_path_chars _ (wf_path _ Hu)) as Hch.
    pose proof (valid_path_segments _ (wf_path _ Hu)) as Hsg.
    rewrite Hpath in Hch, Hsg.
    change ("/" ++ page ++ "/photos/a." ++ digits ++ rest)
      with ("/" ++ (page ++ ("/photos/a." ++ (digits ++ rest)))) in Hch.
    rewrite !all_app in Hch.
    apply andb_true_iff in Hch. destruct Hch as [_ Hch].
    apply andb_true_iff in Hch. destruct Hch as [Hpc _].
    change ("/" ++ page ++ "/photos/a." ++ digits ++ rest)
      with ("" ++ String "/" (page ++ String "/" ("photos/a." ++ digits ++ rest))) in Hsg.
    rewrite !split_app_sep, (split_none "/" page Hps) in Hsg.
    unfold no_dots in Hsg. rewrite !forallb_app in Hsg.
    apply andb_true_iff in Hsg. destruct Hsg as [_ Hsg].
    apply andb_true_iff in Hsg. destruct Hsg as [Hpd _].
    assert (Hdc : all path_char digits = true)
      by (apply (all_impl is_digit); [exact digit_path_char | exact Hds]).
    assert (Hdsl : none (Ascii.eqb "/") digits = true)
      by (apply (all_none is_digit); [exact digit_no_slash | exact Hds]).
    apply valid_path_intro.
    - rewrite !all_app, Hpc, Hdc. reflexivity.
    - change (page ++ "/posts/" ++ digits)
        with (page ++ String "/" ("posts" ++ String "/" digits)).
      rewrite !split_app_sep, (split_none "/" page Hps), (split_none "/" digits Hdsl).
      unfold no_dots. rewrite !forallb_app. cbn [forallb] in Hpd |- *.
      rewrite andb_true_r in Hpd. rewrite Hpd, (digits_not_dots digits Hdn Hds).
      reflexivity. }
  destruct (set_pathname_any _ u1 Hvalid Hu1)
    as (p & -> & Hp & Ppa & Ppr & Ph & Pq & Pf & Ps).
  cbn [bindo option_map].
  assert (Hrooted : rooted (page ++ "/posts/" ++ digits) = "/" ++ page ++ "/posts/" ++ digits).
  { unfold rooted. destruct page as [|c page']; [discriminate|].
    rewrite none_cons in Hps. apply andb_true_iff in Hps. destruct Hps as [Hc' _].
    apply negb_true_iff in Hc'. cbn [append startsWith]. rewrite Hc'. reflexivity. }
  rewrite Hrooted in Ppa.
  assert (Hposts : includes "/posts" (pathname p) = true).
  { rewrite Ppa.
    change ("/" ++ page ++ "/posts/" ++ digits)
      with ("/" ++ page ++ "/posts" ++ String "/" digits).
    rewrite <- append_assoc. apply includes_app. }
  assert (Hcp : consistent p) by (unfold consistent; rewrite Ps, Pq; exact Hc1).
  destruct (story_tail u p Hp Hcp (eq_trans Ps Hs1))
    as (v & names & Ev & Hv & Hcv & (L1 & L2 & L3 & L4) & Hsv & _).
  rewrite Ev.
  (* at most half of the parameters are left *)
  assert (Hhalf : 2 * List.length (searchParams v) <= List.length (searchParams u)).
  { rewrite <- Ev.
    pose proof (delete_length "__tn__"
                  (forEach (fun _ key w =>
                     if negb (existsb (String.eqb key)
                                (if includes "/posts" (pathname w) then [] else kept))
                     then delete key w else w) p)) as Hd.
    pose proof (walk_half (fun w => pathname w = pathname p) _
                          (story_deletes (pathname p) Hposts)
                          (List.length (searchParams p)) 0 p eq_refl) as Hw.
    unfold forEach in *.
    rewrite (eq_trans Ps Hs1) in *. lia. }
  exists v. split; [reflexivity|]. split; [apply parse_text; assumption|].
  split; [congruence|]. split; [congruence|]. split; [congruence|].
  split; [congruence|]. split; [exact Hhalf|].
  assert (Htxt : toString v
                 = scheme_text (protocol u) ++ "//" ++ DESKTOP_HOST
                   ++ "/" ++ page ++ ("/posts/" ++ digits ++ opt_text "?" (query v)
                                      ++ opt_text "#" (fragment u))).
  { rewrite toString_eq, L1, L2, L3, L4, Ppr, Ph, Ppa, Pf, Hp1, Hh1, Hf1.
    rewrite !append_assoc. reflexivity. }
  split.
  - intros Hone.
    assert (Hnil : searchParams v = []).
    { destruct (searchParams v); [reflexivity | cbn [List.length] in Hhalf; lia]. }
    assert (Hq : query v = None).
    { rewrite <- Ev in Hnil |- *. apply delete_tidy, Hnil. }
    rewrite Htxt, Hq. cbn [opt_text append]. reflexivity.
  - intros Hpg. apply extract_of_search; [|exact Hpn].
    rewrite Htxt. apply search_desktop; trivial. apply Ascii.eqb_refl.
Qed.

Lemma photoToPost_album_witness :
  photoToPost "https://m.facebook.com/somepage/photos/a.123/456?type=3"
  = Some (Some "https://www.facebook.com/somepage/posts/123")
  /\ extractUsernameFromUrl "https://www.facebook.com/somepage/posts/123" = Ok "somepage".
Proof.
  assert (Hpg : "somepage" <> "pg") by discriminate.
  destruct (photoToPost_album "https://m.facebook.com/somepage/photos/a.123/456?type=3" _
                              "somepage" "123" "/456"
                              eq_refl eq_refl eq_refl eq_refl eq_refl eq_refl eq_refl
                              eq_refl eq_refl)
    as (v & Hphoto & _ & _ & _ & _ & _ & _ & _ & Huser).
  assert (E : toString v = "https://www.facebook.com/somepage/posts/123").
  { assert (Hp := Hphoto). vm_compute in Hp. injection Hp as Hp. symmetry. exact Hp. }
  rewrite <- E. split; [exact Hphoto | exact (Huser Hpg)].
Defined.

End PermalinkFacts.

(** ** The dispatch of the start URLs *)

Module DispatchFacts.
Import JS Str StrFacts Url UrlFacts Functions FanoutFacts NormalizeSteps Username
       UsernameFacts Permalink PermalinkFacts SectionsFacts Dispatch.
Local Open Scope string_scope.
Local Arguments Ascii.eqb : simpl never.

(** The text after the host of a URL on the mobile host that begins with
    [/p] has a name in it. *)
Lemma search_mobile_p sch rest :
  exists name,
    search (scheme_text sch ++ "//" ++ MOBILE_HOST ++ String "/" (String "p" rest))
    = Some name
    /\ nonempty name = true.
Proof.
  assert (M : exists name,
             match_here ("facebook.com" ++ String "/" (String "p" rest)) = Some name
             /\ nonempty name = true).
  { change (match_here ("facebook.com" ++ String "/" (String "p" rest)))
      with (match (if startsWith "/pg" (String "/" (String "p" rest))
                   then name_at (drop 3 (String "/" (String "p" rest))) else None) with
            | Some name => Some name
            | None => name_at (String "/" (String "p" rest))
            end).
    assert (N : exists name, name_at (String "/" (String "p" rest)) = Some name
                             /\ nonempty name = true).
    { unfold name_at. cbn [break]. change (Ascii.eqb "/" "p") with false. cbv iota.
      destruct (break (Ascii.eqb "/") rest) as [a b]. cbn [fst nonempty]. eauto. }
    destruct N as (name & Hname & Hn).
    destruct (startsWith "/pg" (String "/" (String "p" rest))); [|rewrite Hname; eauto].
    destruct (name_at (drop 3 (String "/" (String "p" rest)))) as [name'|] eqn:E;
      [|rewrite Hname; eauto].
    apply name_at_inv in E. exists name'. tauto. }
  destruct M as (name & M & Hn). exists name. split; [|exact Hn].
  assert (E : forall prefix,
             none (Ascii.eqb "f") prefix = true ->
             search (prefix ++ "facebook.com" ++ String "/" (String "p" rest)) = Some name).
  { intros prefix Hp. rewrite (search_skip prefix _ Hp).
    cbn [append] in M |- *. cbn [search]. rewrite M. reflexivity. }
  destruct sch; [apply (E "http://m.") | apply (E "https://m.")]; reflexivity.
Qed.

(** The home URL of a plan always has a name. *)
Lemma home_username url u pages :
  parse url = Some u ->
  exists b name,
    generateSubpagesFromUrl url pages = Some (plan b pages)
    /\ extractUsernameFromUrl (toString b) = Ok name.
Proof.
  intros Hparse.
  destruct (mobile_steps url u (Flag true) Hparse)
    as (v & names & Hn & Hv & Hc & _ & Hh & _ & Hpa & _).
  destruct (base_parse v Hv) as (b & Pb & Tb & _).
  pose proof (parse_wf _ _ Pb) as Hb.
  exists b.
  assert (Hplan : generateSubpagesFromUrl url pages = Some (plan b pages)).
  { unfold generateSubpagesFromUrl. rewrite Hn. cbn [bindo].
    fold (base_of (toString v)). rewrite Pb.
    rewrite (traverse_map _ (fun sub => {| Functions.useMobile := true;
                                           url := toString (with_section b sub);
                                           section := sub |})).
    - cbn [bindo]. rewrite <- Tb. reflexivity.
    - intros sub. cbn [bindo]. apply section_url, Hb. }
  (* the base begins with [/p] *)
  assert (Hpg : exists R, pathname v = String "/" (String "p" R)).
  { rewrite Hpa. unfold mobile_path.
    destruct (startsWith "/pg" (pathname u)) eqn:E.
    - apply startsWith_drop in E. rewrite E. cbn [append]. eauto.
    - cbn [append]. eauto. }
  destruct Hpg as (R & HR).
  assert (Hhs : none (Ascii.eqb "/") (hostname v) = true).
  { apply (all_none host_char); [exact host_char_slash|].
    apply valid_host_chars, (wf_host _ Hv). }
  assert (Htext : exists rest,
             toString b = scheme_text (protocol v) ++ "//" ++ MOBILE_HOST
                          ++ String "/" (String "p" rest)).
  { rewrite Tb. unfold base_of. rewrite toString_eq, HR, Hh. cbn [append].
    rewrite Hh in Hhs.
    change (scheme_text (protocol v)
            ++ String "/" (String "/" (MOBILE_HOST ++ String "/" (String "p"
                 (R ++ opt_text "?" (query v) ++ opt_text "#" (fragment v))))))
      with (scheme_text (protocol v) ++ "//" ++ MOBILE_HOST
            ++ String "/" (String "p"
                 (R ++ opt_text "?" (query v) ++ opt_text "#" (fragment v)))).
    rewrite (base_of_text _ _ _ Hhs).
    set (X := R ++ opt_text "?" (query v) ++ opt_text "#" (fragment v)).
    assert (Hsp : exists piece pieces, split "/" (String "p" X) = String "p" piece :: pieces).
    { cbn [split]. change (Ascii.eqb "p" "/") with false. cbv iota.
      destruct (split "/" X) as [|piece pieces]; eauto. }
    destruct Hsp as (piece & pieces & ->). rewrite firstn_cons.
    destruct (firstn 1 pieces) as [|q l].
    - exists piece. reflexivity.
    - rewrite join_cons. eexists. cbn [append]. reflexivity. }
  destruct Htext as (rest & Htext).
  destruct (search_mobile_p (protocol v) rest) as (name & Hs & Hne).
  exists name. split; [exact Hplan|].
  apply extract_of_search; [|exact Hne]. rewrite Htext. exact Hs.
Qed.

(** The second piece of a path the parser accepts is one of its
    segments. *)
Lemma second_piece_valid p :
  valid_path p = true -> (exists rest, p = String "/" rest) ->
  all path_char (second_piece p) = true
  /\ none (Ascii.eqb "/") (second_piece p) = true
  /\ dot_segment (second_piece p) = false.
Proof.
  intros Hp [rest ->].
  pose proof (split_pieces path_char "/" _ (valid_path_chars _ Hp)) as Hc.
  pose proof (split_pieces_none "/" (String "/" rest)) as Hn.
  pose proof (valid_path_segments _ Hp) as Hd.
  unfold second_piece.
  change (String "/" rest) with ("" ++ String "/" rest) in Hc, Hn, Hd |- *.
  rewrite split_app_sep in Hc, Hn, Hd |- *.
  destruct (split "/" rest) as [|piece pieces] eqn:E; [now apply split_not_nil in E|].
  cbn [split app nth] in Hc, Hn, Hd |- *.
  inversion Hc as [|? ? _ Hc']; subst. inversion Hc' as [|? ? Hc1 _]; subst.
  inversion Hn as [|? ? _ Hn']; subst. inversion Hn' as [|? ? Hn1 _]; subst.
  unfold no_dots in Hd. cbn [forallb] in Hd.
  apply andb_true_iff in Hd. destruct Hd as [_ Hd].
  apply andb_true_iff in Hd. destruct Hd as [Hd _].
  apply negb_true_iff in Hd. auto.
Qed.

Lemma digits_at_digits s d :
  digits_at s = Some d -> nonempty d = true /\ all is_digit d = true.
Proof.
  unfold digits_at. destruct (startsWith "/photos/a." s); [|discriminate].
  destruct (break_spec (fun c => negb (is_digit c)) (drop 10 s)) as (_ & N & _).
  destruct (break (fun c => negb (is_digit c)) (drop 10 s)) as [a b]. cbn [fst] in *.
  destruct (nonempty a) eqn:E; [|discriminate]. intros [= <-]. split; [exact E|].
  unfold none in N. revert N. apply all_impl. intros c Hc.
  now rewrite negb_involutive in Hc.
Qed.

Lemma photo_search_digits s d :
  photo_search s = Some d -> nonempty d = true /\ all is_digit d = true.
Proof.
  induction s as [|c s IH].
  - cbn [photo_search]. destruct (digits_at "") eqn:E; [|discriminate].
    intros [= <-]. apply (digits_at_digits _ _ E).
  - rewrite photo_search_cons. destruct (digits_at (String c s)) eqn:E.
    + intros [= <-]. apply (digits_at_digits _ _ E).
    + exact IH.
Qed.

(** On a URL the parser accepts, [photoToPost] returns such a URL. *)
Lemma photoToPost_total url u :
  parse url = Some u ->
  exists out v, photoToPost url = Some (Some out) /\ parse out = Some v.
Proof.
  intros Hparse. unfold photoToPost.
  destruct (photo_search url) as [d|] eqn:Es; [|eauto].
  destruct (photo_search_digits _ _ Es) as [Hdn Hds].
  pose proof (parse_wf url u Hparse) as Hu.
  pose proof (parse_consistent url u Hparse) as Hc.
  unfold storyFbToDesktopPermalink.
  rewrite (parse_nonempty url u Hparse). cbn [negb text]. rewrite Hparse. cbn [bindo].
  destruct (set_hostname_wf DESKTOP_HOST u desktop_host_valid Hu)
    as (Hu1 & Hh1 & Hp1 & Hpa1 & Hq1 & Hf1 & Hs1).
  set (u1 := set_hostname DESKTOP_HOST u) in *.
  assert (Hc1 : consistent u1) by (unfold consistent; rewrite Hs1, Hq1; exact Hc).
  assert (Hg : given (Some d) = true) by (destruct d; [discriminate | reflexivity]).
  rewrite Hg. cbn [negb given].
  assert (Hfinal : forall p,
             wf p -> consistent p ->
             exists out v,
               option_map (option_map toString)
                 (Some (Some (delete "__tn__"
                    (forEach (fun _ key w =>
                       if negb (existsb (String.eqb key)
                                  (if includes "/posts" (pathname w) then [] else kept))
                       then delete key w else w) p))))
               = Some (Some out)
               /\ parse out = Some v).
  { intros p Hp Hcp.
    destruct (story_tail p p Hp Hcp eq_refl) as (v & names & -> & Hv & Hcv & _).
    exists (toString v), v. split; [reflexivity | apply parse_text; assumption]. }
  destruct (negb (includes "/permalink.php" (pathname u1))
            || negb (includes "/story.php" (pathname u1))); [|apply Hfinal; assumption].
  destruct (second_piece_valid (pathname u1) (wf_path _ Hu1) (wf_slash _ Hu1))
    as (Sc & Sn & Sd).
  assert (Hvalid : valid_path (second_piece (pathname u1) ++ "/posts/" ++ d) = true).
  { assert (Hdc : all path_char d = true)
      by (apply (all_impl is_digit); [exact digit_path_char | exact Hds]).
    assert (Hdsl : none (Ascii.eqb "/") d = true)
      by (apply (all_none is_digit); [exact digit_no_slash | exact Hds]).
    apply valid_path_intro.
    - rewrite !all_app, Sc, Hdc. reflexivity.
    - change (second_piece (pathname u1) ++ "/posts/" ++ d)
        with (second_piece (pathname u1) ++ String "/" ("posts" ++ String "/" d)).
      rewrite !split_app_sep, (split_none "/" _ Sn), (split_none "/" d Hdsl).
      unfold no_dots. rewrite !forallb_app. cbn [forallb].
      rewrite Sd, (digits_not_dots d Hdn Hds). reflexivity. }
  destruct (set_pathname_any _ u1 Hvalid Hu1) as (p & -> & Hp & _ & _ & _ & Pq & _ & Ps).
  cbn [bindo]. apply Hfinal; [exact Hp|].
  unfold consistent. rewrite Ps, Pq. exact Hc1.
Qed.

(** Without a post id the permalink is always made. *)
Lemma permalink_total url u username :
  parse url = Some u ->
  exists v, storyFbToDesktopPermalink (Some url) None username = Some (Some v).
Proof.
  intros Hparse. unfold storyFbToDesktopPermalink.
  rewrite (parse_nonempty url u Hparse). cbn [negb text given]. rewrite Hparse.
  cbn [bindo].
  pose proof (parse_wf url u Hparse) as Hu.
  destruct (set_hostname_wf DESKTOP_HOST u desktop_host_valid Hu) as (Hu1 & _).
  destruct (has "story_fbid" _ && has "id" _ && _ && _); [|cbn [bindo]; eauto].
  destruct (set_pathname_wf "permalink.php" _ eq_refl Hu1) as (p & Ep & _).
  change (String "/" "permalink.php") with "/permalink.php" in Ep.
  rewrite Ep. cbn [bindo]. eauto.
Qed.

Section Dispatch.
Variable Override : Type.

Local Abbreviation request := (request Override).
Local Abbreviation action := (action Override).

Definition is_request (a : action) : bool :=
  match a with AddRequest _ _ _ _ => true | _ => false end.

Definition is_append (a : action) : bool :=
  match a with Append _ _ _ _ => true | _ => false end.

Definition number (p : action -> bool) (actions : list action) : nat :=
  List.length (List.filter p actions).

(** A request for a section of a page is for the mobile device mode and
    goes to the front of the queue; every other request is for the
    desktop and goes to the back; and no search is added. *)
Definition coherent (a : action) : Prop :=
  match a with
  | AddRequest _ _ data forefront =>
    match label _ data with
    | PAGE => useMobile _ data = true /\ forefront = true
    | _ => useMobile _ data = false /\ forefront = false
    end
  | Append _ _ _ _ => True
  | AddPageSearch _ _ => False
  end.

Lemma getUrlLabel_parsed url u :
  parse url = Some u ->
  (exists message namespace url',
      getUrlLabel parse url = Throw (InfoError message url' namespace))
  \/ (exists l, getUrlLabel parse url = Ok l /\ l <> SEARCH).
Proof.
  intros Hparse. unfold getUrlLabel.
  destruct url as [|c url']; [discriminate|]. cbn [truthy_string negb]. rewrite Hparse.
  destruct (includes "facebook.com" (hostname u)); [|left; eauto].
  destruct (startsWith "/biz/" (pathname u)); [right; eexists; split; [eauto|discriminate]|].
  destruct (RegExp.test photo_pattern (pathname u));
    [right; eexists; split; [eauto|discriminate]|].
  destruct (RegExp.test post_pattern (pathname u));
    [right; eexists; split; [eauto|discriminate]|].
  destruct (RegExp.test page_pattern (pathname u));
    [right; eexists; split; [eauto|discriminate]|].
  left. eauto.
Qed.

Lemma extractUsernameFromUrl_throws url e :
  extractUsernameFromUrl url = Throw e ->
  exists message namespace url', e = InfoError message url' namespace.
Proof.
  unfold extractUsernameFromUrl. destruct (negb (truthy_string url)); [intros [= <-]; eauto|].
  destruct (search url) as [name|]; [|intros [= <-]; eauto].
  destruct (negb (truthy_string name)); [intros [= <-]; eauto | discriminate].
Qed.

(** The sections after the home task add one request each. *)
Lemma initSubPages_sections (b : URL) (request : request) (pages : list FbSection) :
  Forall (fun sub => sub <> home) pages ->
  exists actions,
    initSubPages Override
      (map (fun sub => {| Functions.useMobile := true;
                          url := toString (with_section b sub);
                          section := sub |}) pages) request
    = (actions, Ok tt)
    /\ Forall coherent actions
    /\ number is_request actions = List.length pages
    /\ number is_append actions = 0.
Proof.
  induction 1 as [|sub pages Hsub _ (actions & IH & Hc & Hr & Ha)]; cbn [map initSubPages].
  - exists []. repeat split. constructor.
  - rewrite IH. unfold initSubPage. cbn [section url Functions.useMobile].
    destruct sub; try contradiction; eexists; (split; [reflexivity|]);
      (split; [constructor; [cbn; auto | exact Hc]|]);
      unfold number in *; cbn [app List.filter is_request is_append List.length];
      rewrite Hr, Ha; auto.
Qed.

Lemma pageInfo_sections sp sr ss :
  Forall (fun sub => sub <> home) (Sections.pageInfo sp sr ss)
  /\ List.length (Sections.pageInfo sp sr ss) = Nat.b2n sp + Nat.b2n sr + Nat.b2n ss.
Proof.
  destruct sp, sr, ss; cbn; split; trivial; repeat constructor; discriminate.
Qed.

(** The home task of a plan: the page is initialized, and one request
    added. *)
Lemma initSubPage_home (b : URL) (request : request) name :
  extractUsernameFromUrl (toString b) = Ok name ->
  exists append add,
    initSubPage Override {| Functions.useMobile := true; url := toString b;
                            section := home |} request
    = ([append; add], Ok tt)
    /\ is_append append = true /\ is_request append = false
    /\ is_request add = true /\ is_append add = false
    /\ coherent append /\ coherent add.
Proof.
  intros Hname. unfold initSubPage. cbn [section url Functions.useMobile].
  rewrite Hname. eexists. eexists. split; [reflexivity|]. cbn. auto 10.
Qed.

(** What one iteration does for a URL the parser accepts. *)
Lemma dispatch_cases sp sr ss (request : request) u :
  parse (request_url _ request) = Some u ->
  (exists message namespace url',
      dispatch Override (Sections.pageInfo sp sr ss) request
      = ([], Throw (InfoError message url' namespace)))
  \/ (exists actions,
         dispatch Override (Sections.pageInfo sp sr ss) request = (actions, Ok tt)
         /\ Forall coherent actions
         /\ match getUrlLabel parse (request_url _ request) with
            | Ok LISTING =>
              number is_request actions = 1 /\ number is_append actions = 0
            | Ok PAGE =>
              number is_request actions = 1 + Nat.b2n sp + Nat.b2n sr + Nat.b2n ss
              /\ number is_append actions = 1
            | Ok POST | Ok PHOTO =>
              number is_request actions = 2 /\ number is_append actions = 1
            | _ => False
            end).
Proof.
  intros Hparse. unfold dispatch.
  destruct (getUrlLabel_parsed _ _ Hparse) as [(m & n & url' & ->)|(l & -> & Hl)];
    [left; eauto|].
  assert (Hpost :
            (exists message namespace url',
                match photoToPost (request_url _ request) with
                | None => ([], Throw TypeError)
                | Some converted =>
                  let url := match converted with
                             | Some s => s
                             | None => request_url _ request
                             end in
                  match extractUsernameFromUrl url with
                  | Throw e => ([], Throw e)
                  | Ok username =>
                    match storyFbToDesktopPermalink (Some url) None (Some username) with
                    | None => ([], Throw TypeError)
                    | Some permalink =>
                      let add :=
                        AddRequest Override url
                          {| override := request_override _ request; label := POST;
                             sub := None; ref := None; useMobile := false;
                             username := Some username;
                             canonical := option_map toString permalink |} false in
                      match generateSubpagesFromUrl url [] with
                      | None => ([add], Throw TypeError)
                      | Some [] => ([add], Throw TypeError)
                      | Some (subpage :: _) =>
                        let '(done, r) := initSubPage Override subpage request in
                        (add :: done, r)
                      end
                    end
                  end
                end = ([], Throw (InfoError message url' namespace)))
            \/ (exists actions,
                   match photoToPost (request_url _ request) with
                   | None => ([], Throw TypeError)
                   | Some converted =>
                     let url := match converted with
                                | Some s => s
                                | None => request_url _ request
                                end in
                     match extractUsernameFromUrl url with
                     | Throw e => ([], Throw e)
                     | Ok username =>
                       match storyFbToDesktopPermalink (Some url) None (Some username) with
                       | None => ([], Throw TypeError)
                       | Some permalink =>
                         let add :=
                           AddRequest Override url
                             {| override := request_override _ request; label := POST;
                                sub := None; ref := None; useMobile := false;
                                username := Some username;
                                canonical := option_map toString permalink |} false in
                         match generateSubpagesFromUrl url [] with
                         | None => ([add], Throw TypeError)
                         | Some [] => ([add], Throw TypeError)
                         | Some (subpage :: _) =>
                           let '(done, r) := initSubPage Override subpage request in
                           (add :: done, r)
                         end
                       end
                     end
                   end = (actions, Ok tt)
                   /\ Forall coherent actions
                   /\ number is_request actions = 2 /\ number is_append actions = 1)).
  { destruct (photoToPost_total _ _ Hparse) as (out & v & -> & Hout). cbv zeta.
    destruct (extractUsernameFromUrl out) as [name|e] eqn:En.
    2: { destruct (extractUsernameFromUrl_throws _ _ En) as (m & n & url' & ->).
         left. eauto. }
    destruct (permalink_total out v (Some name) Hout) as (pv & ->).
    destruct (home_username out v [] Hout) as (b & hname & -> & Hhome).
    unfold plan. cbn [map].
    destruct (initSubPage_home b request hname Hhome)
      as (append & add & -> & A1 & A2 & A3 & A4 & A5 & A6).
    right. eexists. split; [reflexivity|]. split.
    - repeat constructor; assumption.
    - unfold number. cbn [List.filter is_request is_append]. rewrite A1, A2, A3, A4.
      auto. }
  destruct l; try contradiction.
  - right. eexists. split; [reflexivity|]. split; [repeat constructor|]. auto.
  - destruct Hpost as [H|(actions & H1 & H2 & H3)]; [left; exact H|].
    right. exists actions. auto.
  - destruct Hpost as [H|(actions & H1 & H2 & H3)]; [left; exact H|].
    right. exists actions. auto.
  - destruct (home_username _ u (Sections.pageInfo sp sr ss) Hparse)
      as (b & name & -> & Hhome).
    unfold plan. cbn [initSubPages].
    destruct (initSubPage_home b request name Hhome)
      as (append & add & -> & A1 & A2 & A3 & A4 & A5 & A6).
    destruct (pageInfo_sections sp sr ss) as [Hsec Hlen].
    destruct (initSubPages_sections b request _ Hsec) as (actions & -> & Hc & Hr & Ha).
    right. eexists. split; [reflexivity|]. split.
    + repeat (constructor; [assumption|]). exact Hc.
    + unfold number in *. cbn [app List.filter]. rewrite A1, A2, A3, A4.
      cbn [List.length]. rewrite Hr, Ha, Hlen. auto.
Qed.

(** X24.  A start URL the parser accepts never stops the loop.  It is
    either dropped, with an [InfoError] logged and nothing added to the
    queue or to the state, the count unchanged; or it is dispatched in
    full and counted: a listing as one request, a page as the
    initialization of its state and one request for its home and for each
    section switched on, a post or a photo as the request for the post,
    the initialization of the page and the request for its home.  The
    requests for the sections of a page are for the mobile device mode
    and go to the front of the queue, all others are for the desktop and
    go to the back, and no search is ever added. *)
Theorem start_url_dispatch :
  forall (scrapePosts scrapeReviews scrapeServices : bool)
         (p : progress Override) (request : request) (u : URL),
    parse (request_url _ request) = Some u ->
    exists p',
      turn Override (Sections.pageInfo scrapePosts scrapeReviews scrapeServices) p request
      = Ok p'
      /\ ((exists message namespace url',
              startUrlCount _ p' = startUrlCount _ p
              /\ done _ p' = done _ p
              /\ warnings _ p' = (warnings _ p ++ [InfoError message url' namespace])%list)
          \/ (exists actions,
                 startUrlCount _ p' = S (startUrlCount _ p)
                 /\ warnings _ p' = warnings _ p
                 /\ done _ p' = (done _ p ++ actions)%list
                 /\ Forall coherent actions
                 /\ match getUrlLabel parse (request_url _ request) with
                    | Ok LISTING =>
                      number is_request actions = 1 /\ number is_append actions = 0
                    | Ok PAGE =>
                      number is_request actions
                      = 1 + Nat.b2n scrapePosts + Nat.b2n scrapeReviews
                        + Nat.b2n scrapeServices
                      /\ number is_append actions = 1
                    | Ok POST | Ok PHOTO =>
                      number is_request actions = 2 /\ number is_append actions = 1
                    | _ => False
                    end)).
Proof.
  intros sp sr ss p request u Hparse. unfold turn.
  destruct (dispatch_cases sp sr ss request u Hparse)
    as [(m & n & url' & ->)|(actions & -> & Hc & Hn)].
  - eexists. split; [reflexivity|]. left. exists m, n, url'.
    cbn [startUrlCount done warnings]. rewrite app_nil_r. auto.
  - eexists. split; [reflexivity|]. right. exists actions.
    cbn [startUrlCount done warnings]. auto.
Qed.
End Dispatch.

Lemma start_url_dispatch_witness :
  exists p',
    turn unit (Sections.pageInfo true true false)
         {| startUrlCount := 0; done := []; warnings := [] |}
         {| request_url := "https://www.facebook.com/somepage"; request_override := None |}
    = Ok p'
    /\ startUrlCount unit p' = 1
    /\ List.length (done unit p') = 4.
Proof.
  destruct (start_url_dispatch unit true true false
              {| startUrlCount := 0; done := []; warnings := [] |}
              {| request_url := "https://www.facebook.com/somepage";
                 request_override := None |} _ eq_refl)
    as (p' & Hturn & _).
  exists p'. split; [exact Hturn|].
  vm_compute in Hturn. injection Hturn as <-. split; reflexivity.
Defined.

End DispatchFacts.
